(** * Task download service: store, manager and crash recovery

    A shallow embedding of the Go packages [model], [util], [storage] and
    [manager], with the properties of the service specification stated
    and proved (or refuted) over it.

    Conventions.
    - A Go [string] is a byte sequence: [string] of the standard library
      (a list of 8-bit [ascii]).
    - [int] and [int64] are 64-bit two's-complement integers: [Z] with
      the wrap-around of each arithmetic operation written out ([wrap64]).
    - A Go [error] is [option string]: [None] is [nil], [Some msg] an
      error whose [Error()] text is [msg].
    - [time.Time] is an instant, a [Z]; [*time.Time] is [option Z].
    - What the operating system, the network and the random source answer
      is an input of the function that asks. *)

From Stdlib Require Import ZArith String Ascii List Lia Permutation.
From stdpp Require Import gmap strings list fin_maps pretty.

Local Open Scope string_scope.
Local Open Scope list_scope.
Local Open Scope Z_scope.

(* ===================================================================== *)
(** * Machine integers *)

Definition wrap64 (z : Z) : Z := (z + 2 ^ 63) mod 2 ^ 64 - 2 ^ 63.
Definition max_int : Z := 2 ^ 63 - 1.
Definition min_int : Z := - 2 ^ 63.
Definition add64 (a b : Z) : Z := wrap64 (a + b).

Definition in_int (z : Z) : Prop := min_int <= z <= max_int.

(* ===================================================================== *)
(** * crypto/sha256 (FIPS 180-4), on bytes given as [Z] in [0, 256) *)

Module sha256.

Definition w32 (x : Z) : Z := x mod 2 ^ 32.
Definition add32 (x y : Z) : Z := w32 (x + y).
Definition rotr (n x : Z) : Z :=
  Z.lor (Z.shiftr x n) (w32 (Z.shiftl x (32 - n))).
Definition not32 (x : Z) : Z := Z.lxor x 0xffffffff.

Definition Ch (x y z : Z) : Z := Z.lxor (Z.land x y) (Z.land (not32 x) z).
Definition Maj (x y z : Z) : Z :=
  Z.lxor (Z.lxor (Z.land x y) (Z.land x z)) (Z.land y z).
Definition Sigma0 (x : Z) : Z :=
  Z.lxor (Z.lxor (rotr 2 x) (rotr 13 x)) (rotr 22 x).
Definition Sigma1 (x : Z) : Z :=
  Z.lxor (Z.lxor (rotr 6 x) (rotr 11 x)) (rotr 25 x).
Definition sigma0 (x : Z) : Z :=
  Z.lxor (Z.lxor (rotr 7 x) (rotr 18 x)) (Z.shiftr x 3).
Definition sigma1 (x : Z) : Z :=
  Z.lxor (Z.lxor (rotr 17 x) (rotr 19 x)) (Z.shiftr x 10).

(** The round constants: the first 32 bits of the fractional parts of
the cube roots of the first 64 primes.  [icbrt] is the integer cube
root, found bit by bit from the top. *)
Definition primes64 : list Z :=
[ 2; 3; 5; 7; 11; 13; 17; 19; 23; 29; 31; 37; 41; 43; 47; 53; 59; 61; 67;
71; 73; 79; 83; 89; 97; 101; 103; 107; 109; 113; 127; 131; 137; 139; 149;
151; 157; 163; 167; 173; 179; 181; 191; 193; 197; 199; 211; 223; 227; 229;
233; 239; 241; 251; 257; 263; 269; 271; 277; 281; 283; 293; 307; 311 ].

Fixpoint cbrt_bits (k : nat) (n r : Z) : Z :=
match k with
| O => r
| S k' =>
    let c := r + 2 ^ Z.of_nat k' in
    if c * c * c <=? n then cbrt_bits k' n c else cbrt_bits k' n r
end.

Definition icbrt (n : Z) : Z := cbrt_bits 40 n 0.

Definition K : list Z :=
Eval vm_compute in map (fun p => w32 (icbrt (p * 2 ^ 96))) primes64.

(** The eight working variables, and the hash value, as a record. *)
Record regs := Regs { ra : Z; rb : Z; rc : Z; rd : Z;
                      re : Z; rf : Z; rg : Z; rh : Z }.

(** The initial hash value: the first 32 bits of the fractional parts of
the square roots of the first 8 primes. *)
Definition frac_sqrt (p : Z) : Z := w32 (Z.sqrt (p * 2 ^ 64)).

Definition H0 : regs :=
Eval vm_compute in
  Regs (frac_sqrt 2) (frac_sqrt 3) (frac_sqrt 5) (frac_sqrt 7)
       (frac_sqrt 11) (frac_sqrt 13) (frac_sqrt 17) (frac_sqrt 19).

(** Padding: a 1 bit, zeros up to 56 modulo 64, the bit length on 8
    bytes, big-endian. *)
Definition be_bytes (n : nat) (x : Z) : list Z :=
  map (fun i => Z.shiftr x (8 * Z.of_nat i) mod 256) (rev (seq 0 n)).

Definition pad (msg : list Z) : list Z :=
  let len := Z.of_nat (length msg) in
  let k := Z.to_nat ((55 - len) mod 64) in
  msg ++ [0x80] ++ repeat 0 k ++ be_bytes 8 ((8 * len) mod 2 ^ 64).

Fixpoint be_word (bs : list Z) (acc : Z) : Z :=
  match bs with
  | [] => acc
  | b :: bs' => be_word bs' (acc * 256 + b)
  end.

(** The sixteen 32-bit words of a 64-byte block. *)
Fixpoint words (n : nat) (bs : list Z) : list Z :=
  match n with
  | O => []
  | S n' => be_word (take 4 bs) 0 :: words n' (drop 4 bs)
  end.

(** Message schedule, newest word first: [rw] holds W(t-1), W(t-2), ... *)
Fixpoint schedule (n : nat) (rw : list Z) : list Z :=
  match n with
  | O => rw
  | S n' =>
      let wt := add32 (add32 (sigma1 (nth 1 rw 0)) (nth 6 rw 0))
                      (add32 (sigma0 (nth 14 rw 0)) (nth 15 rw 0)) in
      schedule n' (wt :: rw)
  end.

Definition round (r : regs) (kw : Z * Z) : regs :=
  let t1 := add32 (add32 (add32 (rh r) (Sigma1 (re r)))
                         (add32 (Ch (re r) (rf r) (rg r)) (fst kw)))
                  (snd kw) in
  let t2 := add32 (Sigma0 (ra r)) (Maj (ra r) (rb r) (rc r)) in
  Regs (add32 t1 t2) (ra r) (rb r) (rc r)
       (add32 (rd r) t1) (re r) (rf r) (rg r).

Definition compress (h : regs) (block : list Z) : regs :=
  let ws := rev (schedule 48 (rev (words 16 block))) in
  let r := fold_left round (combine K ws) h in
  Regs (add32 (ra h) (ra r)) (add32 (rb h) (rb r))
       (add32 (rc h) (rc r)) (add32 (rd h) (rd r))
       (add32 (re h) (re r)) (add32 (rf h) (rf r))
       (add32 (rg h) (rg r)) (add32 (rh h) (rh r)).

Fixpoint blocks (n : nat) (h : regs) (bs : list Z) : regs :=
  match n with
  | O => h
  | S n' => blocks n' (compress h (take 64 bs)) (drop 64 bs)
  end.

Definition digest (h : regs) : list Z :=
  be_bytes 4 (ra h) ++ be_bytes 4 (rb h) ++ be_bytes 4 (rc h)
  ++ be_bytes 4 (rd h) ++ be_bytes 4 (re h) ++ be_bytes 4 (rf h)
  ++ be_bytes 4 (rg h) ++ be_bytes 4 (rh h).

(** [sha256.Sum256]. *)
Definition Sum256 (msg : list Z) : list Z :=
  let p := pad msg in
  digest (blocks (length p / 64) H0 p).

End sha256.

(** [[]byte(s)]. *)
Definition bytes_of_string (s : string) : list Z :=
  map (fun c => Z.of_N (N_of_ascii c)) (list_ascii_of_string s).

(* ===================================================================== *)
(** * encoding/hex *)

Definition hextable : string := "0123456789abcdef".

Definition hex_digit (d : Z) : ascii :=
  match String.get (Z.to_nat d) hextable with
  | Some c => c
  | None => "0"%char
  end.

(** [hex.EncodeToString]: two lower-case digits per byte, high nibble
    first. *)
Fixpoint EncodeToString (bs : list Z) : string :=
  match bs with
  | [] => ""
  | b :: bs' =>
      String (hex_digit (Z.shiftr b 4))
        (String (hex_digit (Z.land b 0x0f)) (EncodeToString bs'))
  end.

Definition is_hex_char (c : ascii) : bool :=
  existsb (Ascii.eqb c) (list_ascii_of_string hextable).

(* ===================================================================== *)
(** * package model (internal/model/types.go) *)

Abbreviation TaskID := string (only parsing).

Inductive TaskStatus :=
  | TaskStatusPending
  | TaskStatusRunning
  | TaskStatusCompleted
  | TaskStatusFailed.

Inductive ItemStatus :=
  | ItemStatusQueued
  | ItemStatusDownloading
  | ItemStatusDone
  | ItemStatusError.

#[global] Instance TaskStatus_eq_dec : EqDecision TaskStatus.
Proof. solve_decision. Defined.
#[global] Instance ItemStatus_eq_dec : EqDecision ItemStatus.
Proof. solve_decision. Defined.

Record Item := mkItem {
  URL : string;
  FileName : string;
  IStatus : ItemStatus;
  Attempts : Z;
  ErrorMessage : string;
  SizeExpected : Z;
  SizeDownloaded : Z;
  StartedAt : option Z;
  CompletedAt : option Z;
}.

Record Task := mkTask {
  ID : TaskID;
  CreatedAt : Z;
  Status : TaskStatus;
  Items : list Item;
}.

(** Field assignments [it.F = v] and [t.F = v]. *)
Definition set_IStatus (v : ItemStatus) (it : Item) : Item :=
  mkItem (URL it) (FileName it) v (Attempts it) (ErrorMessage it)
         (SizeExpected it) (SizeDownloaded it) (StartedAt it) (CompletedAt it).
Definition set_Attempts (v : Z) (it : Item) : Item :=
  mkItem (URL it) (FileName it) (IStatus it) v (ErrorMessage it)
         (SizeExpected it) (SizeDownloaded it) (StartedAt it) (CompletedAt it).
Definition set_ErrorMessage (v : string) (it : Item) : Item :=
  mkItem (URL it) (FileName it) (IStatus it) (Attempts it) v
         (SizeExpected it) (SizeDownloaded it) (StartedAt it) (CompletedAt it).
Definition set_SizeExpected (v : Z) (it : Item) : Item :=
  mkItem (URL it) (FileName it) (IStatus it) (Attempts it) (ErrorMessage it)
         v (SizeDownloaded it) (StartedAt it) (CompletedAt it).
Definition set_SizeDownloaded (v : Z) (it : Item) : Item :=
  mkItem (URL it) (FileName it) (IStatus it) (Attempts it) (ErrorMessage it)
         (SizeExpected it) v (StartedAt it) (CompletedAt it).
Definition set_StartedAt (v : option Z) (it : Item) : Item :=
  mkItem (URL it) (FileName it) (IStatus it) (Attempts it) (ErrorMessage it)
         (SizeExpected it) (SizeDownloaded it) v (CompletedAt it).
Definition set_CompletedAt (v : option Z) (it : Item) : Item :=
  mkItem (URL it) (FileName it) (IStatus it) (Attempts it) (ErrorMessage it)
         (SizeExpected it) (SizeDownloaded it) (StartedAt it) v.

Definition set_Status (v : TaskStatus) (t : Task) : Task :=
  mkTask (ID t) (CreatedAt t) v (Items t).
Definition set_Items (v : list Item) (t : Task) : Task :=
  mkTask (ID t) (CreatedAt t) (Status t) v.

(** [it := &t.Items[idx]] followed by writes through [it]: the item at
    [idx] is replaced in place; the slice is never reallocated. *)
Definition set_item (idx : nat) (it : Item) (t : Task) : Task :=
  set_Items (<[idx := it]> (Items t)) t.

(** ** path.Base and path.Ext of the Go standard library *)

Definition slash : ascii := "/"%char.
Definition dot : ascii := "."%char.

Fixpoint drop_slashes (r : list ascii) : list ascii :=
  match r with
  | c :: r' => if Ascii.eqb c slash then drop_slashes r' else r
  | [] => []
  end.

Fixpoint until_slash (r : list ascii) : list ascii :=
  match r with
  | c :: r' => if Ascii.eqb c slash then [] else c :: until_slash r'
  | [] => []
  end.

(** [path.Base]: "." for the empty path; trailing slashes stripped; the
    part after the last slash; "/" when only slashes were there. *)
Definition path_Base (p : string) : string :=
  if String.eqb p "" then "."
  else
    let r := until_slash (drop_slashes (rev (list_ascii_of_string p))) in
    match r with
    | [] => "/"
    | _ => string_of_list_ascii (rev r)
    end.

(** [path.Ext]: scanning from the end and stopping at a slash, the suffix
    that starts at the first dot met; [seen] is what was scanned. *)
Fixpoint ext_scan (r seen : list ascii) : list ascii :=
  match r with
  | [] => []
  | c :: r' =>
      if Ascii.eqb c slash then []
      else if Ascii.eqb c dot then c :: seen
      else ext_scan r' (c :: seen)
  end.

Definition path_Ext (p : string) : string :=
  string_of_list_ascii (ext_scan (rev (list_ascii_of_string p)) []).

(** [strings.Contains(s, "?")]. *)
Definition contains_qmark (s : string) : bool :=
  existsb (Ascii.eqb "?"%char) (list_ascii_of_string s).

(** [len(s)]: the number of bytes. *)
Definition len (s : string) : Z := Z.of_nat (String.length s).

(** ** net/url

    [url.Parse] belongs to the Go standard library; the model takes it as
    an interface: the [Path] field of the parsed URL, or [None] when
    [url.Parse] returns an error. *)
Class URLParser := url_Parse_Path : string -> option string.

Section Model.
Context {parser : URLParser}.

(** The first 16 bytes of the SHA-256 of the URL, in hex. *)
Definition hash_name (rawURL : string) : string :=
  EncodeToString (take 16 (sha256.Sum256 (bytes_of_string rawURL))).

Definition DeriveDeterministicFileName (rawURL : string) : string :=
  let bare := hash_name rawURL in
  match url_Parse_Path rawURL with
  | Some upath =>
      let base := path_Base upath in
      if negb (String.eqb base "/") && negb (String.eqb base ".")
         && negb (String.eqb base "") && negb (contains_qmark base)
      then
        let ext := path_Ext base in
        if (0 <? len ext) && (len ext <=? 10)
        then bare +:+ ext
        else bare
      else bare
  | None => bare
  end.

(** The file name as the specification words it: the extension of the
    basename is appended when it has 1 to 10 bytes, dot included, and
    the basename holds no question mark. *)
Definition spec_file_name (rawURL : string) : string :=
  let bare := hash_name rawURL in
  match url_Parse_Path rawURL with
  | Some upath =>
      let base := path_Base upath in
      let ext := path_Ext base in
      if (1 <=? len ext) && (len ext <=? 10) && negb (contains_qmark base)
      then bare +:+ ext
      else bare
  | None => bare
  end.

End Model.

(** A parser for the examples: it agrees with [url.Parse] on plain URLs
    [scheme://host/path?query#fragment] without percent escapes: the path
    runs from the first slash after the authority to the first [?] or
    [#]. *)
Fixpoint after_authority (cs : list ascii) : list ascii :=
  match cs with
  | a :: ((b :: c :: rest) as tl) =>
      if Ascii.eqb a ":"%char && Ascii.eqb b slash && Ascii.eqb c slash
      then rest else after_authority tl
  | _ => []
  end.

Fixpoint from_slash (cs : list ascii) : list ascii :=
  match cs with
  | c :: cs' => if Ascii.eqb c slash then cs else from_slash cs'
  | [] => []
  end.

Fixpoint until_query (cs : list ascii) : list ascii :=
  match cs with
  | c :: cs' =>
      if Ascii.eqb c "?"%char || Ascii.eqb c "#"%char then []
      else c :: until_query cs'
  | [] => []
  end.

Definition plain_url_path (rawURL : string) : option string :=
  Some (string_of_list_ascii
          (until_query (from_slash (after_authority
             (list_ascii_of_string rawURL))))).

(* ===================================================================== *)
(** * package storage (internal/storage/store.go)

    The state directory holds [state.snapshot.json] and [state.wal].  The
    model keeps both by content, after JSON decoding:
    - the snapshot is absent (or unreadable), present but not a JSON
      object of tasks, or a map of tasks;
    - the log is the sequence of what [json.Decoder.Decode] meets: a
      record of type [upsert_task] or [update_task] whose data carries a
      task, a well-formed JSON value of another type or whose data does
      not unmarshal (the [switch] applies nothing and the loop goes on),
      or bytes that do not decode (the loop breaks).  A record of one of
      the two types that carries no task, which the code never writes, is
      not in the model.
    [encoding/json] is taken to give back the task it was given.

    A [*model.Task] held by the store is represented by the key under
    which the store holds it: writing a field through the pointer is
    writing the entry of the map.  The representation is exact as long as
    every task is held under its own [ID], which [UpsertTask] and
    [UpdateTask] keep true ([tasks_keyed] below). *)

Inductive walLine :=
  | LUpsert (t : Task)
  | LUpdate (task_id : TaskID) (t : Task)
  | LSkip
  | LTorn.

Inductive SnapFile :=
  | SnapAbsent
  | SnapCorrupt
  | SnapOk (m : gmap TaskID Task).

Record Dir := mkDir {
  snapshot_json : SnapFile;
  state_wal : list walLine;
}.

(** What a system call answers: success, failure, or (for a write) part
    of the bytes written and then failure. *)
Inductive IoOutcome := IoOk | IoErr | IoShort.

(** [os.File] of the log, opened for append: open or closed. *)
Record File := mkFile { fclosed : bool }.

(** [bufio.Writer]: the bytes not yet flushed, and the error that, once
    met, makes every later [Write] and [Flush] fail. *)
Record Writer := mkWriter {
  wbuf : list walLine;
  werr : option string;
}.

(** A [Store] as [NewStore] returns it: [walFile] and [walWriter] are
    set.  [io] is the environment: the answers of the next system calls,
    in order; when the list is empty they succeed. *)
Record Store := mkStore {
  dir : Dir;
  tasks : gmap TaskID Task;
  walFile : File;
  walWriter : Writer;
  io : list IoOutcome;
}.

Definition set_dir (v : Dir) (s : Store) : Store :=
  mkStore v (tasks s) (walFile s) (walWriter s) (io s).
Definition set_tasks (v : gmap TaskID Task) (s : Store) : Store :=
  mkStore (dir s) v (walFile s) (walWriter s) (io s).
Definition set_walFile (v : File) (s : Store) : Store :=
  mkStore (dir s) (tasks s) v (walWriter s) (io s).
Definition set_walWriter (v : Writer) (s : Store) : Store :=
  mkStore (dir s) (tasks s) (walFile s) v (io s).
Definition set_io (v : list IoOutcome) (s : Store) : Store :=
  mkStore (dir s) (tasks s) (walFile s) (walWriter s) v.

Definition wal_append (ls : list walLine) (d : Dir) : Dir :=
  mkDir (snapshot_json d) (state_wal d ++ ls).
Definition set_snapshot (v : SnapFile) (d : Dir) : Dir :=
  mkDir v (state_wal d).

(** The answer of the next system call. *)
Definition next_io (s : Store) : IoOutcome * Store :=
  match io s with
  | [] => (IoOk, s)
  | o :: rest => (o, set_io rest s)
  end.

Definition ErrClosed : string := "file already closed".
Definition ErrIO : string := "input/output error".

(** ** Replay *)

(** One iteration of the replay loop on a decoded record. *)
Definition replay_line (m : gmap TaskID Task) (l : walLine) : gmap TaskID Task :=
  match l with
  | LUpsert t => <[ID t := t]> m
  | LUpdate task_id t => <[task_id := t]> m
  | LSkip | LTorn => m
  end.

(** The loop: [Decode] fails on the first bytes that do not parse, and
    the loop breaks there. *)
Fixpoint replay (m : gmap TaskID Task) (ls : list walLine) : gmap TaskID Task :=
  match ls with
  | [] => m
  | LTorn :: _ => m
  | l :: ls' => replay (replay_line m l) ls'
  end.

Definition load_snapshot (f : SnapFile) : gmap TaskID Task :=
  match f with
  | SnapOk m => m
  | SnapAbsent | SnapCorrupt => ∅
  end.

(** [loadSnapshotAndWal]: [s.tasks] is the empty map made by [NewStore].
    The log is replayed when it opens for reading.  The result is always
    [nil]. *)
Definition loadSnapshotAndWal (s : Store) : Store * option string :=
  let s1 :=
    match snapshot_json (dir s) with
    | SnapOk m => set_tasks m s
    | SnapAbsent | SnapCorrupt => s
    end in
  let (o, s2) := next_io s1 in
  match o with
  | IoOk => (set_tasks (replay (tasks s2) (state_wal (dir s2))) s2, None)
  | IoErr | IoShort => (s2, None)
  end.

(** [openWal]. *)
Definition openWal (s : Store) : Store * option string :=
  let (o, s1) := next_io s in
  match o with
  | IoOk => (set_walWriter (mkWriter [] None) (set_walFile (mkFile false) s1), None)
  | IoErr | IoShort => (s1, Some ErrIO)
  end.

(** [NewStore]: [MkdirAll], then load, then open the log for append. *)
Definition NewStore (d : Dir) (plan : list IoOutcome) : option Store * option string :=
  let s0 := mkStore d ∅ (mkFile true) (mkWriter [] None) plan in
  let (o, s1) := next_io s0 in
  match o with
  | IoErr | IoShort => (None, Some ErrIO)
  | IoOk =>
      let (s2, e) := loadSnapshotAndWal s1 in
      match e with
      | Some e => (None, Some e)
      | None =>
          let (s3, e') := openWal s2 in
          match e' with
          | Some e' => (None, Some e')
          | None => (Some s3, None)
          end
      end
  end.

(** What a restart that can read the directory loads from it. *)
Definition persisted (d : Dir) : gmap TaskID Task :=
  replay (load_snapshot (snapshot_json d)) (state_wal d).

(** ** Writing *)

(** [bufio.Writer.Write]: refused once the writer has failed. *)
Definition writer_Write (l : walLine) (s : Store) : Store * option string :=
  let w := walWriter s in
  match werr w with
  | Some e => (s, Some e)
  | None => (set_walWriter (mkWriter (wbuf w ++ [l]) None) s, None)
  end.

(** [bufio.Writer.Flush]: writes the buffer to the file.  A failed write
    leaves the writer failed; a short one leaves a torn record in the
    file. *)
Definition writer_Flush (s : Store) : Store * option string :=
  let w := walWriter s in
  match werr w with
  | Some e => (s, Some e)
  | None =>
      match wbuf w with
      | [] => (s, None)
      | data =>
          if fclosed (walFile s)
          then (set_walWriter (mkWriter data (Some ErrClosed)) s, Some ErrClosed)
          else
            let (o, s1) := next_io s in
            match o with
            | IoOk =>
                (set_walWriter (mkWriter [] None)
                   (set_dir (wal_append data (dir s1)) s1), None)
            | IoErr =>
                (set_walWriter (mkWriter data (Some ErrIO)) s1, Some ErrIO)
            | IoShort =>
                (set_walWriter (mkWriter data (Some ErrIO))
                   (set_dir (wal_append [LTorn] (dir s1)) s1), Some ErrIO)
            end
      end
  end.

(** [os.File.Sync]. *)
Definition file_Sync (s : Store) : Store * option string :=
  if fclosed (walFile s) then (s, Some ErrClosed)
  else
    let (o, s1) := next_io s in
    match o with
    | IoOk => (s1, None)
    | IoErr | IoShort => (s1, Some ErrIO)
    end.

(** [os.File.Close]: an error when the file is closed already. *)
Definition file_Close (s : Store) : Store * option string :=
  if fclosed (walFile s) then (s, Some ErrClosed)
  else
    let (o, s1) := next_io s in
    let s2 := set_walFile (mkFile true) s1 in
    match o with
    | IoOk => (s2, None)
    | IoErr | IoShort => (s2, Some ErrIO)
    end.

(** [appendRecord]: marshal, write the line, flush, sync. *)
Definition appendRecord (rec : walLine) (s : Store) : Store * option string :=
  let (s1, e1) := writer_Write rec s in
  match e1 with
  | Some e => (s1, Some e)
  | None =>
      let (s2, e2) := writer_Flush s1 in
      match e2 with
      | Some e => (s2, Some e)
      | None => file_Sync s2
      end
  end.

(** [UpsertTask] and [UpdateTask]: the entry of the map first, then the
    record. *)
Definition UpsertTask (t : Task) (s : Store) : Store * option string :=
  appendRecord (LUpsert t) (set_tasks (<[ID t := t]> (tasks s)) s).

Definition UpdateTask (t : Task) (s : Store) : Store * option string :=
  appendRecord (LUpdate (ID t) t) (set_tasks (<[ID t := t]> (tasks s)) s).

(** [GetTask]. *)
Definition GetTask (id : TaskID) (s : Store) : option Task := tasks s !! id.

(** [ListTasks]: the tasks of the map.  Go ranges over a map in an order
    of its own choosing: callers are stated for every permutation. *)
Definition ListTasks (s : Store) : list Task := (map_to_list (tasks s)).*2.

(** [SaveSnapshot]: the map, marshalled, written to the temporary file
    and renamed over the snapshot. *)
Definition SaveSnapshot (s : Store) : Store * option string :=
  let snap := tasks s in
  let (o1, s1) := next_io s in
  match o1 with
  | IoErr | IoShort => (s1, Some ErrIO)
  | IoOk =>
      let (o2, s2) := next_io s1 in
      match o2 with
      | IoErr | IoShort => (s2, Some ErrIO)
      | IoOk => (set_dir (set_snapshot (SnapOk snap) (dir s2)) s2, None)
      end
  end.

(** [Close]: flush (its error is dropped), then close the file. *)
Definition Close (s : Store) : Store * option string :=
  let (s1, _) := writer_Flush s in
  file_Close s1.

(* ===================================================================== *)
(** * package util (internal/util/id.go) *)

(** [NewID]: [b] is the 16-byte array after [rand.Read], given by the
    random source (the bytes it left unset are zero). *)
Definition NewID (b : list Z) : string :=
  EncodeToString (take 16 (b ++ repeat 0 16)).

(* ===================================================================== *)
(** * package manager

    [queue] holds the tickets sent on the channel and not yet received.
    The channel buffers [chanCap] tickets.  A send of [CreateTask] or of a
    retry timer that finds the buffer full parks its goroutine until a
    worker receives: the ticket is in flight all the same, and the model
    appends it.  [Start] sends before any worker exists: there a send that
    finds the buffer full never returns ([Blocked]).

    [timers] holds the retry callbacks that [time.AfterFunc] has scheduled
    and that have not run yet. *)

Record Config := mkConfig {
  DataDir : string;
  WorkerCount : Z;
  MaxRetryPerItem : Z;
  BaseBackoff : Z;
  SnapshotEveryN : Z;
}.

Record queueItem := mkQueueItem {
  taskID : TaskID;
  itemIdx : Z;
}.

#[global] Instance queueItem_eq_dec : EqDecision queueItem.
Proof. solve_decision. Defined.

(** The closure of a retry: the task and the item it captured (the item
    by its position, which is what [indexOfItem] recovers from the
    address), and the delay. *)
Record Timer := mkTimer {
  tm_task : TaskID;
  tm_item : nat;
  tm_delay : Z;
}.

Record Manager := mkManager {
  cfg : Config;
  store : Store;
  queue : list queueItem;
  timers : list Timer;
  processedN : Z;
}.

Definition set_store (v : Store) (m : Manager) : Manager :=
  mkManager (cfg m) v (queue m) (timers m) (processedN m).
Definition set_queue (v : list queueItem) (m : Manager) : Manager :=
  mkManager (cfg m) (store m) v (timers m) (processedN m).
Definition set_timers (v : list Timer) (m : Manager) : Manager :=
  mkManager (cfg m) (store m) (queue m) v (processedN m).
Definition set_processedN (v : Z) (m : Manager) : Manager :=
  mkManager (cfg m) (store m) (queue m) (timers m) v.

Definition chanCap : nat := 1024.

(** [NewManager], for a store that is not [nil]. *)
Definition NewManager (c : Config) (s : Store) : Manager :=
  let c' := if WorkerCount c <=? 0
            then mkConfig (DataDir c) 4 (MaxRetryPerItem c) (BaseBackoff c)
                          (SnapshotEveryN c)
            else c in
  mkManager c' s [] [] 0.

(** [_ = m.store.UpdateTask(t)]: the error is dropped. *)
Definition update_task (t : Task) (m : Manager) : Manager :=
  set_store (UpdateTask t (store m)).1 m.

(** [m.queue <- qi] while workers receive. *)
Definition enqueue (qi : queueItem) (m : Manager) : Manager :=
  set_queue (queue m ++ [qi]) m.

(** Writes through [it := &t.Items[idx]]. *)
Definition on_item (idx : nat) (f : Item -> Item) (t : Task) : Task :=
  set_Items (alter f idx (Items t)) t.

(** ** Start: the requeue after a restart *)

Inductive Blocking (A : Type) :=
  | Returned (a : A)
  | Blocked (m : Manager).
Arguments Returned {A} a.
Arguments Blocked {A} m.

Definition requeue_reset (it : Item) : Item :=
  set_CompletedAt None
    (set_StartedAt None
       (set_ErrorMessage "" (set_IStatus ItemStatusQueued it))).

(** The inner loop [for idx := range t.Items]. *)
Fixpoint requeue_items (idxs : list nat) (t : Task) (m : Manager)
  : Blocking (Task * Manager) :=
  match idxs with
  | [] => Returned (t, m)
  | idx :: rest =>
      match Items t !! idx with
      | Some it =>
          if decide (IStatus it <> ItemStatusDone) then
            let t1 := on_item idx requeue_reset t in
            let m1 := update_task t1 m in
            if (length (queue m1) <? chanCap)%nat
            then requeue_items rest t1
                   (enqueue (mkQueueItem (ID t1) (Z.of_nat idx)) m1)
            else Blocked m1
          else requeue_items rest t m
      | None => requeue_items rest t m
      end
  end.

(** The body of the outer loop. *)
Definition requeue_task (t : Task) (m : Manager) : Blocking Manager :=
  match requeue_items (seq 0 (length (Items t))) t m with
  | Blocked m' => Blocked m'
  | Returned (t1, m1) =>
      if decide (Status t1 <> TaskStatusCompleted)
      then Returned (update_task (set_Status TaskStatusPending t1) m1)
      else Returned m1
  end.

(** [Start] on the tasks in the order [ListTasks] gave them; the workers
    are spawned when the loop is over. *)
Fixpoint Start_on (ts : list Task) (m : Manager) : Blocking Manager :=
  match ts with
  | [] => Returned m
  | t :: ts' =>
      match requeue_task t m with
      | Blocked m' => Blocked m'
      | Returned m1 => Start_on ts' m1
      end
  end.

Definition Start (m : Manager) : Blocking Manager :=
  Start_on (ListTasks (store m)) m.

(** ** Retry *)

Definition mul64 (a b : Z) : Z := wrap64 (a * b).

(** [indexOfItem]: the position whose address is [it], or -1. *)
Definition indexOfItem (t : Task) (idx : nat) : Z :=
  if (idx <? length (Items t))%nat then Z.of_nat idx else -1.

Definition fail_fields (cause : string) (it : Item) : Item :=
  set_IStatus ItemStatusError
    (set_ErrorMessage cause (set_Attempts (add64 (Attempts it) 1) it)).

Definition is_pending (it : Item) : bool :=
  bool_decide (IStatus it = ItemStatusQueued)
  || bool_decide (IStatus it = ItemStatusDownloading).

Definition attempts_at (idx : nat) (t : Task) : Z :=
  match Items t !! idx with
  | Some it => Attempts it
  | None => 0
  end.

(** [retryOrFail]. *)
Definition retryOrFail (t : Task) (idx : nat) (cause : string) (m : Manager)
  : Manager :=
  let t1 := on_item idx (fail_fields cause) t in
  let m1 := update_task t1 m in
  if attempts_at idx t1 <=? MaxRetryPerItem (cfg m) then
    let backoff := mul64 (BaseBackoff (cfg m)) (attempts_at idx t1) in
    set_timers (timers m1 ++ [mkTimer (ID t1) idx backoff]) m1
  else
    if existsb is_pending (Items t1) then m1
    else update_task (set_Status TaskStatusFailed t1) m1.

(** [failItem]. *)
Definition failItem (t : Task) (idx : nat) (cause : string) (m : Manager)
  : Manager :=
  update_task (on_item idx (fail_fields cause) t) m.

(** The callback given to [time.AfterFunc], when it runs: it reads the
    task through the pointer it captured. *)
Definition timer_fire (tm : Timer) (m : Manager) : Manager :=
  match tasks (store m) !! tm_task tm with
  | Some t =>
      let t1 := on_item (tm_item tm) (set_IStatus ItemStatusQueued) t in
      let m1 := update_task t1 m in
      enqueue (mkQueueItem (ID t1) (indexOfItem t1 (tm_item tm))) m1
  | None => m
  end.

(** ** CreateTask *)

Section Manager.
Context {parser : URLParser}.

Definition new_item (u : string) : Item :=
  mkItem u (DeriveDeterministicFileName u) ItemStatusQueued 0 "" 0 0
         None None.

Definition tickets (id : TaskID) (n : nat) : list queueItem :=
  map (fun idx => mkQueueItem id (Z.of_nat idx)) (seq 0 n).

(** [rnd] is what [rand.Read] gives, [now] what [time.Now] gives.  The
    result is the id and the error. *)
Definition CreateTask (rnd : list Z) (now : Z) (urls : list string)
    (m : Manager) : Manager * (TaskID * option string) :=
  let t := mkTask (NewID rnd) now TaskStatusPending (map new_item urls) in
  let (s1, err) := UpsertTask t (store m) in
  match err with
  | Some e => (set_store s1 m, ("", Some e))
  | None =>
      (set_queue (queue m ++ tickets (ID t) (length (Items t)))
         (set_store s1 m),
       (ID t, None))
  end.

End Manager.

(** ** Processing a ticket *)

(** What the world answers during one [processQueueItem]. *)
Record Response := mkResponse {
  StatusCode : Z;
  RStatus : string;
  ContentLength : Z;
}.

Inductive DoResult :=
  | DoErr (e : string)
  | DoResp (r : Response).

Record DownloadEnv := mkDownloadEnv {
  now_start : Z;                (* time.Now() on entry *)
  mkdir_err : option string;    (* os.MkdirAll(DataDir) *)
  stat_size : option Z;         (* os.Stat(tmpPath): the size, if it is there *)
  newreq_err : option string;   (* http.NewRequest *)
  do_result : DoResult;         (* client.Do *)
  open_err : option string;     (* os.OpenFile(tmpPath) *)
  seek_err : option string;     (* f.Seek *)
  copy_written : Z;             (* io.Copy: bytes written *)
  copy_err : option string;     (* io.Copy: error *)
  close_err : option string;    (* f.Close *)
  rename_err : option string;   (* os.Rename *)
  now_done : Z;                 (* time.Now() at the end *)
}.

(** What one [processQueueItem] does to the world outside the store. *)
Inductive Effect :=
  | FsMkdirAll (p : string)
  | FsStat (p : string)
  | HttpGet (url : string) (range : option string)
  | FsOpenFile (p : string)
  | FsSeek (p : string) (off : Z)
  | FsCopy (p : string) (off written : Z)
  | FsClose (p : string)
  | FsRename (src dst : string).

Definition StatusOK : Z := 200.
Definition StatusPartialContent : Z := 206.

(** [filepath.Join] of a directory and a file name. *)
Definition filepath_Join (d f : string) : string :=
  if String.eqb d "" then f else d +:+ "/" +:+ f.

(** [fmt.Sprintf("bytes=%d-", n)]. *)
Definition range_header (n : Z) : string := "bytes=" +:+ pretty n +:+ "-".

Definition all_done (its : list Item) : bool :=
  forallb (fun it => bool_decide (IStatus it = ItemStatusDone)) its.

(** The end of [processQueueItem], once the file is renamed. *)
Definition finish_item (now : Z) (t : Task) (idx : nat) (m : Manager)
  : Manager :=
  let t1 := on_item idx
              (fun it => set_ErrorMessage ""
                           (set_IStatus ItemStatusDone
                              (set_CompletedAt (Some now) it))) t in
  let m1 := update_task t1 m in
  if all_done (Items t1)
  then update_task (set_Status TaskStatusCompleted t1) m1
  else m1.

(** From the response on: the expected size, the file, the copy, the
    rename. *)
Definition receive (env : DownloadEnv) (resp : Response) (startOffset : Z)
    (tmpPath dstPath : string) (t : Task) (idx : nat) (m : Manager)
  : Manager * list Effect :=
  if negb (StatusCode resp =? StatusOK)
     && negb (StatusCode resp =? StatusPartialContent)
  then (retryOrFail t idx ("bad status: " +:+ RStatus resp) m, [])
  else
    let t1 := if 0 <? ContentLength resp
              then on_item idx
                     (set_SizeExpected (add64 startOffset (ContentLength resp))) t
              else t in
    match open_err env with
    | Some e => (retryOrFail t1 idx e m, [FsOpenFile tmpPath])
    | None =>
        match seek_err env with
        | Some e =>
            (retryOrFail t1 idx e m,
             [FsOpenFile tmpPath; FsSeek tmpPath startOffset; FsClose tmpPath])
        | None =>
            let written := copy_written env in
            let err := match copy_err env with
                       | Some e => Some e
                       | None => close_err env
                       end in
            let t2 := on_item idx
                        (set_SizeDownloaded (add64 startOffset written)) t1 in
            let io_trace := [FsOpenFile tmpPath; FsSeek tmpPath startOffset;
                             FsCopy tmpPath startOffset written;
                             FsClose tmpPath] in
            match err with
            | Some e => (retryOrFail t2 idx e m, io_trace)
            | None =>
                match rename_err env with
                | Some e =>
                    (retryOrFail t2 idx e m,
                     io_trace ++ [FsRename tmpPath dstPath])
                | None =>
                    (finish_item (now_done env) t2 idx m,
                     io_trace ++ [FsRename tmpPath dstPath])
                end
            end
        end
    end.

(** [processQueueItem]. *)
Definition processQueueItem (env : DownloadEnv) (qi : queueItem) (m : Manager)
  : Manager * list Effect :=
  match GetTask (taskID qi) (store m) with
  | None => (m, [])
  | Some t =>
      if (itemIdx qi <? 0) || (Z.of_nat (length (Items t)) <=? itemIdx qi)
      then (m, [])
      else
        let idx := Z.to_nat (itemIdx qi) in
        let t1 := set_Status TaskStatusRunning t in
        let t2 := on_item idx
                    (fun it => set_IStatus ItemStatusDownloading
                                 (set_StartedAt (Some (now_start env)) it)) t1 in
        let m1 := update_task t2 m in
        let dataDir := DataDir (cfg m) in
        match mkdir_err env with
        | Some e => (failItem t2 idx ("mkdir: " +:+ e) m1, [FsMkdirAll dataDir])
        | None =>
            let fileName := match Items t2 !! idx with
                            | Some it => FileName it
                            | None => ""
                            end in
            let url := match Items t2 !! idx with
                       | Some it => URL it
                       | None => ""
                       end in
            let dstPath := filepath_Join dataDir fileName in
            let tmpPath := dstPath +:+ ".part" in
            let startOffset := match stat_size env with
                               | Some sz => sz
                               | None => 0
                               end in
            let pre := [FsMkdirAll dataDir; FsStat tmpPath] in
            match newreq_err env with
            | Some e => (retryOrFail t2 idx e m1, pre)
            | None =>
                let range := if 0 <? startOffset
                             then Some (range_header startOffset)
                             else None in
                let sent := pre ++ [HttpGet url range] in
                match do_result env with
                | DoErr e => (retryOrFail t2 idx e m1, sent)
                | DoResp resp =>
                    let (m2, tr) := receive env resp startOffset tmpPath
                                      dstPath t2 idx m1 in
                    (m2, sent ++ tr)
                end
            end
        end
  end.

(** One iteration of the [worker] loop on a received ticket. *)
Definition worker_iteration (env : DownloadEnv) (qi : queueItem) (m : Manager)
  : Manager * list Effect :=
  let (m1, tr) := processQueueItem env qi m in
  let n := add64 (processedN m1) 1 in
  let m2 := set_processedN n m1 in
  if (0 <? SnapshotEveryN (cfg m2)) && (Z.rem n (SnapshotEveryN (cfg m2)) =? 0)
  then (set_store (SaveSnapshot (store m2)).1 m2, tr)
  else (m2, tr).

(* ===================================================================== *)
(** * The service as a transition system

    A world is the state directory of a stopped service ([Down]) or a
    running manager ([Up]).  One step of a running service is one
    operation, run to its end: a [CreateTask], one iteration of a worker
    on a ticket in flight (the per-task mutex and the workers' scheduling
    decide which one: any), a retry timer that fires, a snapshot.  The
    answers of the world (I/O outcomes, HTTP, clock, random bytes) are
    arbitrary; the random source is taken not to repeat an id that the
    store holds.

    The service can crash at any time, also in the middle of an
    operation: the directory then holds the log up to some record that
    the operation had appended, with a torn record behind it when the
    crash struck during a write.  A boot loads the directory and runs
    [Start]; it can crash as well. *)

Definition with_io (plan : list IoOutcome) (m : Manager) : Manager :=
  set_store (set_io plan (store m)) m.

Definition wal_of (m : Manager) : list walLine := state_wal (dir (store m)).

(** The log left by a crash while it grew from [old] to [new]. *)
Inductive crash_wal (old new : list walLine) : list walLine -> Prop :=
  | crash_clean mid :
      old `prefix_of` mid -> mid `prefix_of` new ->
      crash_wal old new mid
  | crash_torn mid l :
      old `prefix_of` mid -> (mid ++ [l]) `prefix_of` new ->
      crash_wal old new (mid ++ [LTorn]).

Definition blocking_mgr (b : Blocking Manager) : Manager :=
  match b with
  | Returned m => m
  | Blocked m => m
  end.

Inductive World :=
  | Down (d : Dir)
  | Up (m : Manager).

Definition dir_of (w : World) : Dir :=
  match w with
  | Down d => d
  | Up m => dir (store m)
  end.

Section System.
Context {parser : URLParser}.
Variable c : Config.

Inductive step : Manager -> Manager -> Prop :=
  | step_create plan rnd now urls m :
      tasks (store m) !! NewID rnd = None ->
      step m (CreateTask rnd now urls (with_io plan m)).1
  | step_work plan env q1 qi q2 m :
      queue m = q1 ++ qi :: q2 ->
      step m (worker_iteration env qi
                (set_queue (q1 ++ q2) (with_io plan m))).1
  | step_timer plan t1 tm t2 m :
      timers m = t1 ++ tm :: t2 ->
      step m (timer_fire tm (set_timers (t1 ++ t2) (with_io plan m)))
  | step_snapshot plan m :
      step m (set_store (SaveSnapshot (store (with_io plan m))).1 m).

(** A boot of the directory [d]: [NewStore], [NewManager], [Start]. *)
Inductive boot (d : Dir) : Blocking Manager -> Prop :=
  | boot_intro plan plan' s ts :
      NewStore d plan = (Some s, None) ->
      Permutation ts (ListTasks s) ->
      boot d (Start_on ts (NewManager c (set_io plan' s))).

(** [reachable n w]: the world [w] is reached from a fresh install, the
    service having come up [n] times. *)
Inductive reachable : nat -> World -> Prop :=
  | reach_install :
      reachable 0 (Down (mkDir SnapAbsent []))
  | reach_boot n d m :
      reachable n (Down d) -> boot d (Returned m) ->
      reachable (S n) (Up m)
  | reach_boot_crash n d b w :
      reachable n (Down d) -> boot d b ->
      crash_wal (state_wal d) (wal_of (blocking_mgr b)) w ->
      reachable n (Down (mkDir (snapshot_json d) w))
  | reach_step n m m' :
      reachable n (Up m) -> step m m' ->
      reachable n (Up m')
  | reach_crash n m m' w :
      reachable n (Up m) -> step m m' ->
      crash_wal (wal_of m) (wal_of m') w ->
      reachable n (Down (mkDir (snapshot_json (dir (store m))) w)).

End System.

(* ===================================================================== *)
(** * Go strings: unicode/utf8, unicode, strings, strconv, bufio

    What [internal/config] uses of the standard library, on the bytes of
    a string. *)

(** The value of a byte. *)
Definition bv (c : ascii) : Z := Z.of_N (N_of_ascii c).

(** A line feed. *)
Definition nl : string := String "010"%char "".

Definition byte_at (s : list ascii) (i : Z) : Z :=
  bv (nth (Z.to_nat i) s zero).

Module utf8.

Definition RuneError : Z := 0xFFFD.
Definition RuneSelf : Z := 0x80.

Definition between (lo hi b : Z) : bool := (lo <=? b) && (b <=? hi).

(** [utf8.DecodeRuneInString]: the first rune and its width; an encoding
    that is not valid gives [(RuneError, 1)], the empty string
    [(RuneError, 0)].  The second byte of a sequence is accepted in a range
    that depends on the first (no overlong forms, no surrogates, nothing
    above U+10FFFF). *)
Definition DecodeRune (s : list ascii) : Z * nat :=
  match s with
  | [] => (RuneError, 0%nat)
  | c0 :: rest =>
      let s0 := bv c0 in
      if s0 <? RuneSelf then (s0, 1%nat)
      else if (s0 <? 0xC2) || (0xF4 <? s0) then (RuneError, 1%nat)
      else
        let lo := if s0 =? 0xE0 then 0xA0
                  else if s0 =? 0xF0 then 0x90 else 0x80 in
        let hi := if s0 =? 0xED then 0x9F
                  else if s0 =? 0xF4 then 0x8F else 0xBF in
        if s0 <? 0xE0 then
          match rest with
          | c1 :: _ =>
              if between lo hi (bv c1)
              then (Z.lor (Z.shiftl (Z.land s0 0x1F) 6) (Z.land (bv c1) 0x3F),
                    2%nat)
              else (RuneError, 1%nat)
          | _ => (RuneError, 1%nat)
          end
        else if s0 <? 0xF0 then
          match rest with
          | c1 :: c2 :: _ =>
              if between lo hi (bv c1) && between 0x80 0xBF (bv c2)
              then (Z.lor (Z.shiftl (Z.land s0 0x0F) 12)
                      (Z.lor (Z.shiftl (Z.land (bv c1) 0x3F) 6)
                         (Z.land (bv c2) 0x3F)),
                    3%nat)
              else (RuneError, 1%nat)
          | _ => (RuneError, 1%nat)
          end
        else
          match rest with
          | c1 :: c2 :: c3 :: _ =>
              if between lo hi (bv c1) && between 0x80 0xBF (bv c2)
                 && between 0x80 0xBF (bv c3)
              then (Z.lor (Z.shiftl (Z.land s0 0x07) 18)
                      (Z.lor (Z.shiftl (Z.land (bv c1) 0x3F) 12)
                         (Z.lor (Z.shiftl (Z.land (bv c2) 0x3F) 6)
                            (Z.land (bv c3) 0x3F))),
                    4%nat)
              else (RuneError, 1%nat)
          | _ => (RuneError, 1%nat)
          end
  end.

(** [utf8.RuneStart]: not a continuation byte. *)
Definition RuneStart (b : Z) : bool := negb (Z.land b 0xC0 =? 0x80).

(** The loop of [DecodeLastRuneInString] that walks back, at most to
    [lim], to a byte that can start a rune. *)
Fixpoint back_to_start (fuel : nat) (s : list ascii) (start lim : Z) : Z :=
  match fuel with
  | O => start
  | S fuel' =>
      if start <? lim then start
      else if RuneStart (byte_at s start) then start
      else back_to_start fuel' s (start - 1) lim
  end.

(** [utf8.DecodeLastRuneInString]. *)
Definition DecodeLastRune (s : list ascii) : Z * nat :=
  let e := Z.of_nat (length s) in
  if e =? 0 then (RuneError, 0%nat)
  else
    let r := byte_at s (e - 1) in
    if r <? RuneSelf then (r, 1%nat)
    else
      let lim := Z.max 0 (e - 4) in
      let start := Z.max 0 (back_to_start 4 s (e - 2) lim) in
      let (r', size) := DecodeRune (drop (Z.to_nat start) s) in
      if start + Z.of_nat size =? e then (r', size) else (RuneError, 1%nat).

End utf8.

(** [unicode.IsSpace]: the Latin-1 spaces, and beyond them the runes with
    the property White_Space. *)
Definition IsSpace (r : Z) : bool :=
  if r <=? 0xFF
  then utf8.between 0x09 0x0D r || (r =? 0x20) || (r =? 0x85) || (r =? 0xA0)
  else (r =? 0x1680) || utf8.between 0x2000 0x200A r || (r =? 0x2028)
       || (r =? 0x2029) || (r =? 0x202F) || (r =? 0x205F) || (r =? 0x3000).

Module strings.

(** [TrimLeftFunc(s, unicode.IsSpace)]: the runes are decoded from the
    left up to the first that is not a space. *)
Fixpoint TrimLeftSpace (fuel : nat) (s : list ascii) : list ascii :=
  match fuel, s with
  | S fuel', _ :: _ =>
      let (r, w) := utf8.DecodeRune s in
      if IsSpace r then TrimLeftSpace fuel' (drop w s) else s
  | _, _ => s
  end.

(** [lastIndexFunc(s, unicode.IsSpace, false)]: where the last rune that
    is not a space starts, or -1; [i] is the end of what is left. *)
Fixpoint lastIndexNotSpace (fuel : nat) (s : list ascii) (i : nat) : Z :=
  match fuel with
  | O => -1
  | S fuel' =>
      if (i =? 0)%nat then -1
      else
        let (r, size) := utf8.DecodeLastRune (take i s) in
        let i' := (i - size)%nat in
        if IsSpace r then lastIndexNotSpace fuel' s i' else Z.of_nat i'
  end.

(** [TrimRightFunc(s, unicode.IsSpace)]. *)
Definition TrimRightSpace (s : list ascii) : list ascii :=
  let i := lastIndexNotSpace (length s) s (length s) in
  if (0 <=? i) && (utf8.RuneSelf <=? byte_at s i)
  then let (_, wid) := utf8.DecodeRune (drop (Z.to_nat i) s) in
       take (Z.to_nat i + wid) s
  else take (Z.to_nat (i + 1)) s.

(** The table [asciiSpace]: tab, line feed, vertical tab, form feed,
    carriage return, space. *)
Definition asciiSpace (c : ascii) : bool :=
  utf8.between 0x09 0x0D (bv c) || (bv c =? 0x20).

(** The two loops of [TrimSpace] over ASCII spaces: each one stops at a
    byte that is no space, or falls back on the Unicode functions at a
    byte that is not ASCII. *)
Inductive Scan :=
  | Fallback (rest : list ascii)
  | Stopped (rest : list ascii).

Fixpoint scan_space (s : list ascii) : Scan :=
  match s with
  | [] => Stopped []
  | c :: s' =>
      if utf8.RuneSelf <=? bv c then Fallback s
      else if asciiSpace c then scan_space s'
      else Stopped s
  end.

Definition trim_space (s : list ascii) : list ascii :=
  match scan_space s with
  | Fallback rest =>
      TrimRightSpace (TrimLeftSpace (length rest) rest)
  | Stopped rest =>
      match scan_space (rev rest) with
      | Fallback r => TrimRightSpace (rev r)
      | Stopped r => rev r
      end
  end.

(** [strings.TrimSpace]. *)
Definition TrimSpace (s : string) : string :=
  string_of_list_ascii (trim_space (list_ascii_of_string s)).

(** [strings.HasPrefix]. *)
Fixpoint has_prefix (s p : list ascii) : bool :=
  match p, s with
  | [], _ => true
  | c :: p', d :: s' => Ascii.eqb c d && has_prefix s' p'
  | _ :: _, [] => false
  end.

Definition HasPrefix (s p : string) : bool :=
  has_prefix (list_ascii_of_string s) (list_ascii_of_string p).

(** [strings.SplitN(s, "=", 2)]: the parts before and after the first
    [=], or the string alone (one part) when it holds none. *)
Fixpoint cut_eq (s : list ascii) : option (list ascii * list ascii) :=
  match s with
  | [] => None
  | c :: s' =>
      if Ascii.eqb c "="%char then Some ([], s')
      else match cut_eq s' with
           | Some (a, b) => Some (c :: a, b)
           | None => None
           end
  end.

Definition SplitN_eq_2 (s : string) : list string :=
  match cut_eq (list_ascii_of_string s) with
  | Some (a, b) => [string_of_list_ascii a; string_of_list_ascii b]
  | None => [s]
  end.

(** [strings.TrimPrefix]. *)
Definition TrimPrefix (s p : string) : string :=
  if HasPrefix s p
  then string_of_list_ascii (drop (String.length p) (list_ascii_of_string s))
  else s.

End strings.

Module strconv.

Definition digit (c : ascii) : option Z :=
  if utf8.between 48 57 (bv c) then Some (bv c - 48) else None.

Fixpoint digits (acc : Z) (s : list ascii) : option Z :=
  match s with
  | [] => Some acc
  | c :: s' =>
      match digit c with
      | Some d => digits (acc * 10 + d) s'
      | None => None
      end
  end.

(** [strconv.Atoi] on a 64-bit platform: an optional sign, at least one
    decimal digit, nothing else, and a value that fits an [int];
    [None] stands for an error (of syntax or of range). *)
Definition Atoi (s : string) : option Z :=
  let cs := list_ascii_of_string s in
  let (neg, ds) :=
    match cs with
    | c :: rest =>
        if Ascii.eqb c "-"%char then (true, rest)
        else if Ascii.eqb c "+"%char then (false, rest)
        else (false, cs)
    | [] => (false, [])
    end in
  match ds with
  | [] => None
  | _ =>
      match digits 0 ds with
      | Some n =>
          let v := if neg then - n else n in
          if (min_int <=? v) && (v <=? max_int) then Some v else None
      | None => None
      end
  end.

End strconv.

Module bufio.

(** The longest line that a [Scanner] with its default buffer gives:
    the line and its line feed must fit [MaxScanTokenSize] bytes. *)
Definition MaxScanTokenSize : Z := 65536.

Definition dropCR (line : list ascii) : list ascii :=
  match rev line with
  | c :: r => if bv c =? 13 then rev r else line
  | [] => line
  end.

(** The lines that [for scanner.Scan()] goes through with the split
    function [ScanLines]: [cur] holds, last byte first, the bytes of the
    line being read.  A line that does not fit the buffer ends the loop
    ([Scan] returns false with [ErrTooLong]). *)
Fixpoint scan_from (cur : list ascii) (s : list ascii) : list (list ascii) :=
  match s with
  | [] =>
      match cur with
      | [] => []
      | _ => if Z.of_nat (length cur) <? MaxScanTokenSize
             then [dropCR (rev cur)] else []
      end
  | c :: s' =>
      if bv c =? 10
      then if Z.of_nat (length cur) <? MaxScanTokenSize
           then dropCR (rev cur) :: scan_from [] s'
           else []
      else scan_from (c :: cur) s'
  end.

Definition scan_lines (content : string) : list string :=
  string_of_list_ascii <$> scan_from [] (list_ascii_of_string content).

End bufio.

(* ===================================================================== *)
(** * package config (internal/config/config.go)

    The environment of the process is a map from names to values;
    [file] is what the reads of [.env] give, [None] when the file cannot
    be opened. *)

Module config.

Abbreviation Env := (gmap string string) (only parsing).

Definition has_byte (b : Z) (s : string) : bool :=
  existsb (fun c => bv c =? b) (list_ascii_of_string s).

(** [os.Getenv]: the empty string for a name that is not set. *)
Definition os_Getenv (key : string) (env : Env) : string :=
  if String.eqb key "" then "" else default "" (env !! key).

(** [os.Setenv], its error dropped: the call is refused for an empty
    name, for a name that holds [=] or a zero byte, and for a value that
    holds a zero byte. *)
Definition os_Setenv (key value : string) (env : Env) : Env :=
  if String.eqb key "" || has_byte 61 key || has_byte 0 key
     || has_byte 0 value
  then env
  else <[key := value]> env.

Record Config := mkConfig {
  Port : string;
  DataDir : string;
  StateDir : string;
  Workers : Z;
  RetryMax : Z;
  RetryBackoffMs : Z;
}.

Definition getenv (key def : string) (env : Env) : string :=
  let v := os_Getenv key env in
  if negb (String.eqb v "") then v else def.

Definition getenvInt (key : string) (def : Z) (env : Env) : Z :=
  let v := os_Getenv key env in
  if negb (String.eqb v "")
  then match strconv.Atoi v with
       | Some i => i
       | None => def
       end
  else def.

(** The quotes around a value, when it has both and they are the same. *)
Definition unquote (value : string) : string :=
  let n := String.length value in
  let first := String.get 0 value in
  let last := String.get (n - 1) value in
  if (2 <=? n)%nat
     && ((bool_decide (first = Some "034"%char)
          && bool_decide (last = Some "034"%char))
         || (bool_decide (first = Some "'"%char)
             && bool_decide (last = Some "'"%char)))
  then String.substring 1 (n - 2) value
  else value.

(** The body of the loop of [loadEnvFile] on one line of the file. *)
Definition load_line (text : string) (env : Env) : Env :=
  let line := strings.TrimSpace text in
  if String.eqb line "" || strings.HasPrefix line "#" then env
  else
    match strings.SplitN_eq_2 line with
    | [k; v] =>
        os_Setenv (strings.TrimSpace k) (unquote (strings.TrimSpace v)) env
    | _ => env
    end.

Definition loadEnvFile (file : option string) (env : Env) : Env :=
  match file with
  | None => env
  | Some content =>
      fold_left (fun e text => load_line text e) (bufio.scan_lines content) env
  end.

(** [Load]: the environment as [loadEnvFile] leaves it, and the
    configuration read from it. *)
Definition Load (file : option string) (env : Env) : Env * Config :=
  let env' := loadEnvFile file env in
  (env',
   mkConfig (getenv "PORT" "8080" env')
            (getenv "DATA_DIR" "data" env')
            (getenv "STATE_DIR" "var/state" env')
            (getenvInt "WORKERS" 4 env')
            (getenvInt "RETRY_MAX" 3 env')
            (getenvInt "RETRY_BACKOFF_MS" 500 env')).

End config.

(* ===================================================================== *)
(** * package main: from the configuration to the manager *)

(** [time.Millisecond], in nanoseconds. *)
Definition Millisecond : Z := 1000000.

(** The [manager.Config] that [main] builds. *)
Definition manager_config (c : config.Config) : Config :=
  mkConfig (config.DataDir c) (config.Workers c) (config.RetryMax c)
           (mul64 (config.RetryBackoffMs c) Millisecond) 50.

(* ===================================================================== *)
(** * package httpapi

    The two handlers that [RegisterHandlers] gives to the mux, as
    functions of the request.  The JSON of a body is taken decoded: the
    [urls] of the request, or [None] when [Decode] fails; the JSON of an
    answer is the value that is encoded. *)

Module httpapi.

Record Request := mkRequest {
  Method : string;
  Path : string;
  Body : option (list string);
}.

Inductive Payload :=
  | Text (s : string)
  | CreatedID (id : string)
  | OneTask (t : Task)
  | Tasks (ts : list Task).

Record Response := mkResponse {
  Code : Z;
  ContentType : string;
  Sent : Payload;
}.

(** [http.Error]: the message and a line feed, as plain text. *)
Definition http_Error (msg : string) (code : Z) : Response :=
  mkResponse code "text/plain; charset=utf-8" (Text (msg +:+ nl)).

Definition http_NotFound : Response := http_Error "404 page not found" 404.

Definition writeJSON (v : Payload) (code : Z) : Response :=
  mkResponse code "application/json" v.

Section Handlers.
Context {parser : URLParser}.

Definition handleCreateTask (rnd : list Z) (now : Z) (r : Request)
    (m : Manager) : Manager * Response :=
  match Body r with
  | None => (m, http_Error "invalid json" 400)
  | Some urls =>
      if (length urls =? 0)%nat
      then (m, http_Error "urls is required" 400)
      else
        let (m', res) := CreateTask rnd now urls m in
        match res.2 with
        | Some _ => (m', http_Error "failed to create task" 500)
        | None => (m', writeJSON (CreatedID res.1) 201)
        end
  end.

(** [ts] is what [ListTasks] returned, in the order it chose. *)
Definition handleListTasks (ts : list Task) : Response :=
  writeJSON (Tasks ts) 200.

(** The handler of [/tasks]. *)
Definition tasks_handler (rnd : list Z) (now : Z) (ts : list Task)
    (r : Request) (m : Manager) : Manager * Response :=
  if String.eqb (Method r) "POST" then handleCreateTask rnd now r m
  else if String.eqb (Method r) "GET" then (m, handleListTasks ts)
  else (m, http_Error "method not allowed" 405).

(** The handler of [/tasks/]. *)
Definition task_handler (r : Request) (m : Manager) : Response :=
  if negb (String.eqb (Method r) "GET")
  then http_Error "method not allowed" 405
  else
    let id := strings.TrimPrefix (Path r) "/tasks/" in
    if String.eqb id "" then http_NotFound
    else match GetTask id (store m) with
         | Some t => writeJSON (OneTask t) 200
         | None => http_NotFound
         end.

End Handlers.

End httpapi.

(* ===================================================================== *)
(** * Stopping the manager

    [stopped] says that [StopAndWait] has run: [stopCh] and [queue] are
    closed.  A send on the closed queue panics. *)

Record Service := mkService {
  mgr : Manager;
  stopped : bool;
}.

Inductive Outcome :=
  | Returns (sv : Service)
  | Panics (sv : Service).

(** [StopAndWait]: [ctx_err] is the error of the context when it is done
    before the workers, [None] when the workers are done first.  The body
    runs once ([stopOnce]); a later call returns the zero value of [err]. *)
Definition StopAndWait (ctx_err : option string) (sv : Service)
  : Service * option string :=
  if stopped sv then (sv, None)
  else (mkService (mgr sv) true, ctx_err).

(** A worker that has received the ticket [qi]: it returns at once when
    [stopCh] is closed, and processes the ticket otherwise. *)
Definition worker_receive (env : DownloadEnv) (qi : queueItem) (sv : Service)
  : Service * list Effect :=
  if stopped sv then (sv, [])
  else let (m', tr) := worker_iteration env qi (mgr sv) in
       (mkService m' false, tr).

(** [m.queue <- qi]. *)
Definition send (qi : queueItem) (sv : Service) : Outcome :=
  if stopped sv then Panics sv
  else Returns (mkService (enqueue qi (mgr sv)) false).

(** The callback of a retry timer, which nothing cancels. *)
Definition timer_callback (tm : Timer) (sv : Service) : Outcome :=
  match tasks (store (mgr sv)) !! tm_task tm with
  | Some t =>
      let t1 := on_item (tm_item tm) (set_IStatus ItemStatusQueued) t in
      let m1 := update_task t1 (mgr sv) in
      send (mkQueueItem (ID t1) (indexOfItem t1 (tm_item tm)))
           (mkService m1 (stopped sv))
  | None => Returns sv
  end.

(* ===================================================================== *)
(** * Vocabulary of the properties *)

(** A sequence of calls to the store, and its run as long as every call
    returns [nil]. *)
Inductive StoreOp :=
  | OpUpsert (t : Task)
  | OpUpdate (t : Task).

Definition op_task (op : StoreOp) : Task :=
  match op with
  | OpUpsert t => t
  | OpUpdate t => t
  end.

Definition run_op (op : StoreOp) (s : Store) : Store * option string :=
  match op with
  | OpUpsert t => UpsertTask t s
  | OpUpdate t => UpdateTask t s
  end.

Fixpoint run_ops (ops : list StoreOp) (s : Store) : option Store :=
  match ops with
  | [] => Some s
  | op :: rest =>
      match run_op op s with
      | (s1, None) => run_ops rest s1
      | (_, Some _) => None
      end
  end.

(** The map as last written: the last writer of an id wins. *)
Definition last_written (m : gmap TaskID Task) (ops : list StoreOp)
  : gmap TaskID Task :=
  fold_left (fun acc op => <[ID (op_task op) := op_task op]> acc) ops m.

Definition is_torn (l : walLine) : bool :=
  match l with
  | LTorn => true
  | _ => false
  end.

(** Every line of the log decodes. *)
Definition torn_free (ls : list walLine) : bool := forallb (fun l => negb (is_torn l)) ls.

(** The key and the task that a record of the log carries: the task's own
    id for [upsert_task], the [task_id] of the record for [update_task]. *)
Definition line_write (l : walLine) : option (TaskID * Task) :=
  match l with
  | LUpsert t => Some (ID t, t)
  | LUpdate task_id t => Some (task_id, t)
  | LSkip | LTorn => None
  end.


(** The basename that [path.Base] gives for a path without a file name. *)
Definition base_is_dot `{URLParser} (rawURL : string) : bool :=
  match url_Parse_Path rawURL with
  | Some upath => String.eqb (path_Base upath) "."
  | None => false
  end.

Definition all_hex (s : string) : bool :=
  forallb is_hex_char (list_ascii_of_string s).

Definition writer_ok (s : Store) : Prop :=
  werr (walWriter s) = None -> wbuf (walWriter s) = [].

Definition sample_task : Task := mkTask "a" 0 TaskStatusPending [].

(** A store whose writer holds a line that is not flushed yet. *)
Definition ex_unflushed : Store :=
  mkStore (mkDir SnapAbsent []) ∅ (mkFile false) (mkWriter [LSkip] None) [].

(** A store in step with its directory: the map is what a restart would
    load, every line of the log decodes, the writer holds nothing. *)
Definition in_step (s : Store) : Prop :=
  tasks s = persisted (dir s)
  /\ torn_free (state_wal (dir s)) = true
  /\ walWriter s = mkWriter [] None.


(** A line that decodes to a task satisfying [R], held under its own id,
    or a torn line. *)
Definition line_of (R : Task -> Prop) (l : walLine) : Prop :=
  match l with
  | LTorn => True
  | LUpsert u => R u
  | LUpdate k u => k = ID u /\ R u
  | LSkip => False
  end.

(** The store [s'] comes from [s] by appending such lines, the snapshot
    being left alone. *)
Definition writes_only (R : Task -> Prop) (s s' : Store) : Prop :=
  snapshot_json (dir s') = snapshot_json (dir s)
  /\ (writer_ok s ->
      writer_ok s'
      /\ exists ls, state_wal (dir s') = state_wal (dir s) ++ ls
                    /\ Forall (line_of R) ls).

Definition att_step (a a' : Z) : Prop := a' = a \/ a' = add64 a 1.

(** [u] is a value that the task [t0] can take while, or after, a worker
    processes its item [idx]: same id, same items elsewhere, at most one
    more attempt, and [completed] only with every item done. *)
Record processed (t0 : Task) (idx : nat) (u : Task) : Prop := mkProcessed {
  pr_id : ID u = ID t0;
  pr_len : length (Items u) = length (Items t0);
  pr_other : forall j, j <> idx -> Items u !! j = Items t0 !! j;
  pr_att : att_step (attempts_at idx t0) (attempts_at idx u);
  pr_sound : Status u = TaskStatusCompleted -> all_done (Items u) = true;
}.

(** The local value of the task before the attempt is counted. *)
Record working (t0 : Task) (idx : nat) (t : Task) : Prop := mkWorking {
  wk_id : ID t = ID t0;
  wk_len : length (Items t) = length (Items t0);
  wk_other : forall j, j <> idx -> Items t !! j = Items t0 !! j;
  wk_att : attempts_at idx t = attempts_at idx t0;
  wk_status : Status t = TaskStatusRunning;
}.

(** The manager [m'] comes from [m] by updates of the task under [k], the
    last of which wrote [u]. *)
Definition mrel (R : Task -> Prop) (k : TaskID) (m m' : Manager) (u : Task)
  : Prop :=
  cfg m' = cfg m /\ queue m' = queue m /\ processedN m' = processedN m
  /\ writes_only R (store m) (store m')
  /\ tasks (store m') = <[k := u]> (tasks (store m)).

Definition timer_added (t0 : Task) (idx : nat) (u : Task) (m m' : Manager)
  : Prop :=
  timers m' = timers m
  \/ exists d it',
       timers m' = timers m ++ [mkTimer (ID t0) idx d]
       /\ Items u !! idx = Some it'
       /\ IStatus it' = ItemStatusError
       /\ Attempts it' <= MaxRetryPerItem (cfg m).

Definition restart_item (it : Item) : Item :=
  if decide (IStatus it <> ItemStatusDone) then requeue_reset it else it.

(** The task once [Start] is through with it. *)
Definition restarted (t : Task) : Task :=
  let t1 := set_Items (restart_item <$> Items t) t in
  if decide (Status t <> TaskStatusCompleted)
  then set_Status TaskStatusPending t1
  else t1.

Definition not_done_at (t : Task) (idx : nat) : bool :=
  match Items t !! idx with
  | Some it => bool_decide (IStatus it <> ItemStatusDone)
  | None => false
  end.

(** The tickets that [Start] sends for a task. *)
Definition requeue_tickets (t : Task) : list queueItem :=
  (fun idx => mkQueueItem (ID t) (Z.of_nat idx))
    <$> List.filter (not_done_at t) (seq 0 (length (Items t))).

(** The items of [t0] with the first [i] of them restarted. *)
Definition restarted_upto (i : nat) (t0 t : Task) : Prop :=
  length (Items t) = length (Items t0)
  /\ forall j, Items t !! j
               = (if decide (j < i)%nat then restart_item <$> Items t0 !! j
                  else Items t0 !! j).

(** A value that [Start] writes for the task [t0]. *)
Definition restarting (t0 u : Task) : Prop :=
  ID u = ID t0
  /\ (exists i, restarted_upto i t0 u)
  /\ (Status u = Status t0
      \/ (Status u = TaskStatusPending /\ Status t0 <> TaskStatusCompleted)).

(** [completed] only with every item done. *)
Definition completed_sound (t : Task) : Prop :=
  Status t = TaskStatusCompleted -> all_done (Items t) = true.

Definition attempts_below (b : Z) (t : Task) : Prop :=
  Forall (fun it => 0 <= Attempts it <= b) (Items t).

(** The bound on the attempts once the service has come up [n] times, and
    the configurations for which it is claimed: a retry budget that is not
    negative, and a bound that fits an [int]. *)
Definition bound (c : Config) (n : nat) : Z := MaxRetryPerItem c + Z.of_nat n.

Definition sane (c : Config) (n : nat) : Prop :=
  0 <= MaxRetryPerItem c /\ bound c n <= max_int.

Definition good (c : Config) (n : nat) (t : Task) : Prop :=
  completed_sound t /\ (sane c n -> attempts_below (bound c n) t).

(** The tickets in flight and the timers pending, as (task, item) pairs. *)
Definition qtok (qi : queueItem) : TaskID * Z := (taskID qi, itemIdx qi).
Definition ttok (tm : Timer) : TaskID * Z := (tm_task tm, Z.of_nat (tm_item tm)).
Definition tokens (m : Manager) : list (TaskID * Z) :=
  (qtok <$> queue m) ++ (ttok <$> timers m).

(** A ticket in flight points at a queued item with an attempt to spare;
    a pending timer points at an item in error within the budget. *)
Definition ticket_ok (c : Config) (n : nat) (ts : gmap TaskID Task)
    (qi : queueItem) : Prop :=
  exists t it,
    ts !! taskID qi = Some t /\ 0 <= itemIdx qi
    /\ Items t !! Z.to_nat (itemIdx qi) = Some it
    /\ IStatus it = ItemStatusQueued
    /\ (sane c n -> Attempts it <= bound c n - 1).

Definition timer_ok (c : Config) (ts : gmap TaskID Task) (tm : Timer) : Prop :=
  exists t it,
    ts !! tm_task tm = Some t
    /\ Items t !! tm_item tm = Some it
    /\ IStatus it = ItemStatusError
    /\ Attempts it <= MaxRetryPerItem c.

Definition keyed_and (R : Task -> Prop) (ts : gmap TaskID Task) : Prop :=
  map_Forall (fun k t => ID t = k /\ R t) ts.

Definition snapshot_ok (R : Task -> Prop) (f : SnapFile) : Prop :=
  match f with
  | SnapAbsent => True
  | SnapCorrupt => False
  | SnapOk snap => keyed_and R snap
  end.

Definition dir_ok (R : Task -> Prop) (d : Dir) : Prop :=
  snapshot_ok R (snapshot_json d) /\ Forall (line_of R) (state_wal d).

Record up_inv (c : Config) (n : nat) (m : Manager) : Prop := mkUpInv {
  ui_n : (1 <= n)%nat;
  ui_cfg : MaxRetryPerItem (cfg m) = MaxRetryPerItem c;
  ui_tasks : keyed_and (good c n) (tasks (store m));
  ui_tokens : NoDup (tokens m);
  ui_queue : Forall (ticket_ok c n (tasks (store m))) (queue m);
  ui_timers : Forall (timer_ok c (tasks (store m))) (timers m);
  ui_writer : writer_ok (store m);
  ui_disk : dir_ok (good c n) (dir (store m));
}.

Definition world_inv (c : Config) (n : nat) (w : World) : Prop :=
  match w with
  | Down d => dir_ok (good c n) d
  | Up m => up_inv c n m
  end.

Definition example_parser : URLParser := plain_url_path.

(** No retry, no snapshot. *)
Definition ex_cfg : Config := mkConfig "data" 1 0 0 0.

Definition ex_dir0 : Dir := mkDir SnapAbsent [].
Definition ex_store0 : Store :=
  mkStore ex_dir0 ∅ (mkFile false) (mkWriter [] None) [].

(** First boot, on the empty directory. *)
Definition ex_m0 : Manager := NewManager ex_cfg (set_io [] ex_store0).

(** One task with one URL. *)
Definition ex_url : string := "http://host/a.zip".
Definition ex_rnd : list Z :=
  [18; 52; 86; 120; 154; 188; 222; 240; 1; 35; 69; 103; 137; 171; 205; 239].
Definition ex_id : TaskID := NewID ex_rnd.
Definition ex_m1 : Manager :=
  (@CreateTask example_parser ex_rnd 0 [ex_url] (with_io [] ex_m0)).1.

Definition ex_ticket : queueItem := mkQueueItem ex_id 0.

(** The server answers 200 with three bytes; the server answers 500. *)
Definition env_ok : DownloadEnv :=
  mkDownloadEnv 10 None None None
    (DoResp (mkResponse 200 "200 OK" 3)) None None 3 None None None 20.
Definition env_500 : DownloadEnv :=
  mkDownloadEnv 10 None None None
    (DoResp (mkResponse 500 "500 Internal Server Error" (-1)))
    None None 0 None None None 20.

(** The download succeeds ... *)
Definition ex_m2 : Manager :=
  (worker_iteration env_ok ex_ticket (set_queue [] (with_io [] ex_m1))).1.
(** ... but the service dies after the record "item done" and before the
    record "task completed". *)
Definition ex_dir3 : Dir :=
  mkDir (snapshot_json (dir (store ex_m1))) (take 3 (wal_of ex_m2)).
Definition ex_store3 : Store :=
  match NewStore ex_dir3 [] with
  | (Some s, _) => s
  | _ => ex_store0
  end.
Definition ex_m4 : Manager :=
  blocking_mgr (Start_on (ListTasks ex_store3)
                  (NewManager ex_cfg (set_io [] ex_store3))).

(** The download fails, the service is restarted, the download fails
    again. *)
Definition ex_f2 : Manager :=
  (worker_iteration env_500 ex_ticket (set_queue [] (with_io [] ex_m1))).1.
Definition ex_fdir : Dir :=
  mkDir (snapshot_json (dir (store ex_f2))) (wal_of ex_f2).
Definition ex_fstore : Store :=
  match NewStore ex_fdir [] with
  | (Some s, _) => s
  | _ => ex_store0
  end.
Definition ex_f3 : Manager :=
  blocking_mgr (Start_on (ListTasks ex_fstore)
                  (NewManager ex_cfg (set_io [] ex_fstore))).
Definition ex_f4 : Manager :=
  (worker_iteration env_500 ex_ticket (set_queue [] (with_io [] ex_f3))).1.

(** The task as the example runs leave it. *)
Definition ex_item_done : Item :=
  mkItem ex_url "4111e48eb62813882f8fef4a286ac2ff.zip" ItemStatusDone 0 ""
         3 3 (Some 10) (Some 20).
Definition ex_done : Task :=
  mkTask ex_id 0 TaskStatusCompleted [ex_item_done].
Definition ex_failed_item : Item :=
  mkItem ex_url "4111e48eb62813882f8fef4a286ac2ff.zip" ItemStatusError 2
         "bad status: 500 Internal Server Error" 0 0 (Some 10) None.
Definition ex_failed : Task :=
  mkTask ex_id 0 TaskStatusFailed [ex_failed_item].

(** A task of 1026 URLs that all failed (no retry budget), as the log
    holds it when the service is started again. *)
Definition ex_err_item : Item :=
  mkItem ex_url "4111e48eb62813882f8fef4a286ac2ff.zip" ItemStatusError 1
         "bad status: 500 Internal Server Error" 0 0 (Some 10) None.
Definition ex_big_task : Task :=
  mkTask "t" 0 TaskStatusFailed (repeat ex_err_item 1026).
Definition ex_big_dir : Dir := mkDir SnapAbsent [LUpsert ex_big_task].
Definition ex_big_store : Store :=
  match NewStore ex_big_dir [] with
  | (Some s, _) => s
  | _ => ex_store0
  end.

Definition blocked_with (P : Manager -> bool) (b : Blocking Manager) : bool :=
  match b with
  | Blocked m => P m
  | Returned _ => false
  end.

Definition item_status (m : Manager) (id : TaskID) (idx : nat)
  : option ItemStatus :=
  match tasks (store m) !! id with
  | Some t => IStatus <$> Items t !! idx
  | None => None
  end.

Definition task_status (m : Manager) (id : TaskID) : option TaskStatus :=
  Status <$> tasks (store m) !! id.

(** The task of the example as [CreateTask] made it. *)
Definition ex_item_new : Item :=
  mkItem ex_url "4111e48eb62813882f8fef4a286ac2ff.zip" ItemStatusQueued 0 ""
         0 0 None None.
Definition ex_new : Task := mkTask ex_id 0 TaskStatusPending [ex_item_new].


Definition ex_stale : queueItem := mkQueueItem ex_id 7.

(** ** The store under failures *)

(** A sequence of calls run to its end, with what each call returned. *)
Fixpoint run_all (ops : list StoreOp) (s : Store)
  : Store * list (option string) :=
  match ops with
  | [] => (s, [])
  | op :: rest =>
      let (s1, e) := run_op op s in
      let (s2, es) := run_all rest s1 in
      (s2, e :: es)
  end.

(** The replay seen from one key: [cur] is what the map holds under [k]. *)
Fixpoint last_write (k : TaskID) (ls : list walLine) (cur : option Task)
  : option Task :=
  match ls with
  | [] => cur
  | LTorn :: _ => cur
  | l :: ls' =>
      last_write k ls' (match line_write l with
                        | Some (k', t) => if decide (k' = k) then Some t else cur
                        | None => cur
                        end)
  end.

(** A store that is in step with its directory, whose file is open, and
    whose next system calls all succeed. *)
Definition quiet (s : Store) : Prop :=
  in_step s /\ io s = [] /\ fclosed (walFile s) = false.

Definition ex_quiet : Store :=
  mkStore (mkDir SnapAbsent [LUpsert sample_task])
          {["a" := sample_task]} (mkFile false) (mkWriter [] None) [].

(** ** Outcomes of a download *)

Definition no_err (e : option string) : bool :=
  match e with
  | None => true
  | Some _ => false
  end.

(** Every answer of the world is a success: the directory is there, the
    request is built and answered with 200 or 206, the file is opened,
    positioned, written, closed and renamed. *)
Definition succeeds (env : DownloadEnv) : bool :=
  no_err (mkdir_err env) && no_err (newreq_err env)
  && match do_result env with
     | DoResp resp =>
         (StatusCode resp =? StatusOK)
         || (StatusCode resp =? StatusPartialContent)
     | DoErr _ => false
     end
  && no_err (open_err env) && no_err (seek_err env)
  && no_err (copy_err env) && no_err (close_err env)
  && no_err (rename_err env).

(** The task as [processQueueItem] first writes it. *)
Definition started (now : Z) (idx : nat) (t : Task) : Task :=
  on_item idx (fun it => set_IStatus ItemStatusDownloading
                           (set_StartedAt (Some now) it))
    (set_Status TaskStatusRunning t).

(** A change of an item that touches its two sizes only. *)
Definition sizes_only (g : Item -> Item) : Prop :=
  forall it,
    g it = set_SizeDownloaded (SizeDownloaded (g it))
             (set_SizeExpected (SizeExpected (g it)) it).

(** The item once its download is through. *)
Definition done_fields (now : Z) (it : Item) : Item :=
  set_ErrorMessage "" (set_IStatus ItemStatusDone
                         (set_CompletedAt (Some now) it)).

(** Workers that take tickets one after the other, each with the answers
    of the world to its download. *)
Fixpoint run_workers (jobs : list (DownloadEnv * queueItem)) (m : Manager)
  : Manager :=
  match jobs with
  | [] => m
  | (env, qi) :: rest => run_workers rest (worker_iteration env qi m).1
  end.

Definition env_mkdir_fails : DownloadEnv :=
  mkDownloadEnv 10 (Some "permission denied") None None
    (DoErr "") None None 0 None None None 20.

(** A service that retries three times, and a task of one URL in it. *)
Definition ex_cfg_retry : Config := mkConfig "data" 4 3 500000000 50.
Definition ex_r1 : Manager :=
  (@CreateTask example_parser ex_rnd 0 [ex_url]
     (NewManager ex_cfg_retry ex_store0)).1.

(** ** Lines of an [.env] file that say what they seem to say *)

Definition dquote : string := String "034"%char "".

(** The file whose lines are [lines], each ended by a line feed. *)
Definition unlines (lines : list string) : string :=
  fold_right (fun l rest => l +:+ nl +:+ rest) "" lines.

(** An ASCII byte that is no space. *)
Definition plain (c : ascii) : bool :=
  (bv c <? utf8.RuneSelf) && negb (strings.asciiSpace c).

(** A string that starts and ends with such a byte. *)
Definition edges_plain (s : string) : bool :=
  match list_ascii_of_string s with
  | c :: _ => plain c
  | [] => false
  end
  && match rev (list_ascii_of_string s) with
     | c :: _ => plain c
     | [] => false
     end.

(** A name that [loadEnvFile] and [os.Setenv] take as it is written. *)
Definition name_ok (k : string) : bool :=
  edges_plain k && negb (config.has_byte 61 k) && negb (config.has_byte 0 k)
  && negb (strings.HasPrefix k "#").

(** A line as the scanner gives it back: no line feed in it, no carriage
    return at its end, short enough for the buffer. *)
Definition line_ok (l : string) : bool :=
  negb (config.has_byte 10 l)
  && (Z.of_nat (String.length l) <? bufio.MaxScanTokenSize)
  && match rev (list_ascii_of_string l) with
     | c :: _ => negb (bv c =? 13)
     | [] => true
     end.

(* ===================================================================== *)
(** * Properties of the model package *)

(** The implementation of SHA-256 on the test vectors of FIPS 180-4, and
the file name of the specification's first scenario. *)
Example sha256_abc :
  EncodeToString (sha256.Sum256 (bytes_of_string "abc"))
  = "ba7816bf8f01cfea414140de5dae2223b00361a396177a9cb410ff61f20015ad".
Proof. vm_compute. reflexivity. Qed.

Example sha256_empty :
  EncodeToString (sha256.Sum256 (bytes_of_string ""))
  = "e3b0c44298fc1c149afbf4c8996fb92427ae41e4649b934ca495991b7852b855".
Proof. vm_compute. reflexivity. Qed.

Example sha256_two_blocks :
  EncodeToString
    (sha256.Sum256
       (bytes_of_string
          "abcdbcdecdefdefgefghfghighijhijkijkljklmklmnlmnomnopnopq"))
  = "248d6a61d20638b8e5c026930c3e6039a33ce45964ff2167f6ecedd419db06c1".
Proof. vm_compute. reflexivity. Qed.

Example path_Base_examples :
  map path_Base [""; "/"; "/a/b/"; "/dir/a.tar.gz"; "/x/."]
  = ["."; "/"; "b"; "a.tar.gz"; "."].
Proof. reflexivity. Qed.

Example path_Ext_examples :
  map path_Ext ["a.zip"; "a.tar.gz"; "x"; "."; "a."; "a.b/c"]
  = [".zip"; ".gz"; ""; "."; "."; ""].
Proof. reflexivity. Qed.

Example derive_examples :
  map (@DeriveDeterministicFileName plain_url_path)
      ["http://host/a.zip"; "http://h/x"; "http://host"]
  = ["4111e48eb62813882f8fef4a286ac2ff.zip";
     "86ca99740210faa002c7e540649a2601";
     "a7ea5c455a69bc0ee07766940e5f6e75"].
Proof. vm_compute. reflexivity. Qed.

Lemma length_be_bytes n x : length (sha256.be_bytes n x) = n.
Proof.
  unfold sha256.be_bytes.
  by rewrite length_map, length_rev, length_seq.
Qed.

Lemma length_Sum256 msg : length (sha256.Sum256 msg) = 32%nat.
Proof.
  unfold sha256.Sum256, sha256.digest.
  rewrite !length_app, !length_be_bytes. reflexivity.
Qed.

Lemma length_EncodeToString bs :
  String.length (EncodeToString bs) = (2 * length bs)%nat.
Proof. induction bs as [|b bs IH]; simpl; [done | rewrite IH; lia]. Qed.

Lemma hex_digit_is_hex d : is_hex_char (hex_digit d) = true.
Proof.
  unfold hex_digit.
  destruct (Z.to_nat d) as [|n]; [reflexivity|].
  do 15 (destruct n as [|n]; [reflexivity|]).
  reflexivity.
Qed.

Lemma all_hex_EncodeToString bs : all_hex (EncodeToString bs) = true.
Proof.
  unfold all_hex. induction bs as [|b bs IH]; [reflexivity|].
  cbn [EncodeToString list_ascii_of_string forallb].
  by rewrite !hex_digit_is_hex, IH.
Qed.

Lemma length_hash_name u : String.length (hash_name u) = 32%nat.
Proof.
  unfold hash_name.
  rewrite length_EncodeToString, length_take, length_Sum256. reflexivity.
Qed.

Lemma string_app_nil_r (s : string) : s +:+ "" = s.
Proof.
  induction s as [|a s IH]; [reflexivity|].
  change (String a (s +:+ "") = String a s). by rewrite IH.
Qed.

(** The extension of a path is the empty string when the path is a lone
    slash. *)
Lemma path_Base_not_empty p : path_Base p <> "".
Proof.
  unfold path_Base. destruct (String.eqb p ""); [done|].
  destruct (until_slash _) as [|a r] eqn:E; [done|].
  intros Hs. apply (f_equal list_ascii_of_string) in Hs.
  rewrite list_ascii_of_string_of_list_ascii in Hs.
  apply (f_equal length) in Hs. rewrite length_rev in Hs. discriminate Hs.
Qed.

Section ModelFacts.
Context {parser : URLParser}.

(** Where the code and the wording of the specification agree: on every
    URL whose basename is not the "." of a path without file name. *)
Lemma derive_eq_spec u :
  base_is_dot u = false ->
  DeriveDeterministicFileName u = spec_file_name u.
Proof.
  unfold base_is_dot, DeriveDeterministicFileName, spec_file_name.
  destruct (url_Parse_Path u) as [p|]; [|done].
  intros Hdot. rewrite Hdot. cbn [negb andb].
  destruct (String.eqb (path_Base p) "/") eqn:Hsl.
  - apply String.eqb_eq in Hsl. rewrite Hsl. reflexivity.
  - destruct (String.eqb (path_Base p) "") eqn:He.
    { apply String.eqb_eq in He. by destruct (path_Base_not_empty p). }
    cbn [negb andb].
    destruct (contains_qmark (path_Base p)); cbn [negb andb].
    + by rewrite andb_false_r.
    + rewrite andb_true_r.
      replace (0 <? len (path_Ext (path_Base p)))
        with (1 <=? len (path_Ext (path_Base p))); [done|].
      destruct (Z.leb_spec 1 (len (path_Ext (path_Base p))));
        destruct (Z.ltb_spec 0 (len (path_Ext (path_Base p)))); lia.
Qed.

Lemma derive_dot u :
  base_is_dot u = true -> DeriveDeterministicFileName u = hash_name u.
Proof.
  unfold base_is_dot, DeriveDeterministicFileName.
  destruct (url_Parse_Path u) as [p|]; [|done].
  intros Hdot. rewrite Hdot. by rewrite andb_false_r.
Qed.

(** The name is the hash or the hash followed by at most 10 bytes. *)
Lemma derive_shape u :
  exists ext, DeriveDeterministicFileName u = hash_name u +:+ ext
              /\ (String.length ext <= 10)%nat.
Proof.
  unfold DeriveDeterministicFileName.
  assert (Hbare : exists ext, hash_name u = hash_name u +:+ ext
                              /\ (String.length ext <= 10)%nat).
  { exists "". rewrite string_app_nil_r. simpl. split; [done | lia]. }
  destruct (url_Parse_Path u) as [p|]; [|done].
  destruct (_ && negb (contains_qmark _)); [|done].
  destruct (0 <? _) eqn:H0; [|done].
  destruct (len _ <=? 10) eqn:H10; [|done]. cbn [andb].
  eexists. split; [reflexivity|].
  apply Z.leb_le in H10. unfold len in H10. lia.
Qed.

End ModelFacts.

(** C5 (as stated, refuted).  For the URL [http://host] the parsed path is
    empty, its basename is "." and [path.Ext] of it is ".", one byte long:
    by the wording of the claim the name would end in a dot, whereas the
    code returns the bare hash. *)
Lemma derive_file_name_counterexample :
  @DeriveDeterministicFileName plain_url_path "http://host"
  <> @spec_file_name plain_url_path "http://host".
Proof. vm_compute. discriminate. Qed.

(** C5 (amended).  For every URL [u] the name starts with the hex encoding
    of the first 16 bytes of SHA-256(u), exactly 32 hex characters.  When
    the basename of the parsed path is the "." that stands for a path
    without file name, the name is that bare hash; otherwise it is what
    the specification words: the extension of the basename is appended
    when it has 1 to 10 bytes (dot included) and the basename holds no
    question mark, and the bare hash is returned in every other case.  In
    particular a basename without extension, or a URL that does not parse,
    gives the 32 hex characters alone. *)
Theorem derive_file_name_amended {parser : URLParser} (u : string) :
  String.length (hash_name u) = 32%nat
  /\ all_hex (hash_name u) = true
  /\ DeriveDeterministicFileName u
     = (if base_is_dot u then hash_name u else spec_file_name u)
  /\ (forall p, url_Parse_Path u = Some p -> path_Ext (path_Base p) = "" ->
      DeriveDeterministicFileName u = hash_name u)
  /\ (url_Parse_Path u = None -> DeriveDeterministicFileName u = hash_name u).
Proof.
  split; [apply length_hash_name|].
  split; [apply all_hex_EncodeToString|].
  split.
  { destruct (base_is_dot u) eqn:Hd;
      [by apply derive_dot | by apply derive_eq_spec]. }
  split.
  - intros p Hp Hext. unfold DeriveDeterministicFileName.
    rewrite Hp, Hext. cbn. by destruct (_ && _).
  - intros Hp. unfold DeriveDeterministicFileName. by rewrite Hp.
Qed.

(* ===================================================================== *)
(** * Properties of the store *)

Lemma next_io_frame s o s' :
  next_io s = (o, s') ->
  dir s' = dir s /\ tasks s' = tasks s /\ walFile s' = walFile s
  /\ walWriter s' = walWriter s.
Proof.
  unfold next_io. destruct (io s); intros [= <- <-]; done.
Qed.

Ltac store_cases :=
  repeat match goal with
    | |- context [next_io ?s] =>
        let o := fresh "o" in
        let s1 := fresh "s" in
        let E := fresh "E" in
        destruct (next_io s) as [o s1] eqn:E;
        apply next_io_frame in E as (? & ? & ? & ?);
        destruct o
    | |- context [match werr ?w with _ => _ end] =>
        let E := fresh "E" in destruct (werr w) eqn:E
    | |- context [match wbuf ?w with _ => _ end] =>
        let E := fresh "E" in destruct (wbuf w) eqn:E
    | |- context [if fclosed ?f then _ else _] =>
        let E := fresh "E" in destruct (fclosed f) eqn:E
    end; cbn in *.

(** What a successful [appendRecord] has done: the record is the last line
    of the log, behind what the buffer held. *)
Lemma appendRecord_ok rec s s' :
  appendRecord rec s = (s', None) ->
  state_wal (dir s') = state_wal (dir s) ++ wbuf (walWriter s) ++ [rec]
  /\ snapshot_json (dir s') = snapshot_json (dir s)
  /\ tasks s' = tasks s
  /\ walWriter s' = mkWriter [] None
  /\ walFile s' = walFile s
  /\ fclosed (walFile s) = false
  /\ werr (walWriter s) = None.
Proof.
  unfold appendRecord, writer_Write, writer_Flush, file_Sync.
  destruct (werr (walWriter s)) eqn:Ew; cbn; [intros [=]|].
  destruct (wbuf (walWriter s) ++ [rec]) as [|l0 data] eqn:Ed; cbn.
  { by destruct (wbuf (walWriter s)). }
  destruct (fclosed (walFile s)) eqn:Ec; cbn; [intros [=]|].
  destruct (next_io _) as [o s1] eqn:E1.
  apply next_io_frame in E1 as (Hd1 & Ht1 & Hf1 & Hw1). cbn in *.
  destruct o; cbn; [|intros [=]..].
  rewrite Hf1, Ec.
  destruct (next_io _) as [o2 s2] eqn:E2.
  apply next_io_frame in E2 as (Hd2 & Ht2 & Hf2 & Hw2). cbn in *.
  destruct o2; intros [= <-].
  rewrite Hd2, Ht2, Hf2, Hw2, Hd1, Ht1, Hf1. cbn. done.
Qed.

(** What any [appendRecord] does: the log grows by nothing, by the buffer
    and the record, or by a torn record. *)
Lemma appendRecord_any rec s :
  let s' := (appendRecord rec s).1 in
  (exists ls, state_wal (dir s') = state_wal (dir s) ++ ls
              /\ (ls = [] \/ ls = wbuf (walWriter s) ++ [rec] \/ ls = [LTorn]))
  /\ snapshot_json (dir s') = snapshot_json (dir s)
  /\ tasks s' = tasks s
  /\ walFile s' = walFile s
  /\ (writer_ok s -> writer_ok s').
Proof.
  unfold appendRecord, writer_Write, writer_Flush, file_Sync, writer_ok.
  destruct (werr (walWriter s)) eqn:Ew; cbn.
  { rewrite Ew. split; [exists []; rewrite app_nil_r; auto | done]. }
  destruct (wbuf (walWriter s) ++ [rec]) as [|l0 data] eqn:Ed; cbn.
  { by destruct (wbuf (walWriter s)). }
  destruct (fclosed (walFile s)) eqn:Ec; cbn.
  { split; [exists []; rewrite app_nil_r; auto | done]. }
  destruct (next_io _) as [o s1] eqn:E1.
  apply next_io_frame in E1 as (Hd1 & Ht1 & Hf1 & Hw1). cbn in *.
  destruct o; cbn.
  - rewrite Hf1, Ec.
    destruct (next_io _) as [o2 s2] eqn:E2.
    apply next_io_frame in E2 as (Hd2 & Ht2 & Hf2 & Hw2). cbn in *.
    destruct o2; cbn; rewrite Hd2, Ht2, Hf2, Hw2, Hd1, Ht1, Hf1; cbn;
      (split; [exists (l0 :: data); auto | done]).
  - rewrite Hd1, Ht1, Hf1.
    split; [exists []; rewrite app_nil_r; auto | done].
  - rewrite Hd1, Ht1, Hf1. cbn.
    split; [exists [LTorn]; auto | done].
Qed.

(** ** Replay *)

Lemma replay_torn m rest : replay m (LTorn :: rest) = m.
Proof. reflexivity. Qed.

Lemma replay_app m l1 l2 :
  torn_free l1 = true ->
  replay m (l1 ++ l2) = replay (fold_left replay_line l1 m) l2.
Proof.
  revert m. induction l1 as [|l l1 IH]; intros m Hfree; [done|].
  cbn in Hfree. apply andb_true_iff in Hfree as [Hl Hfree].
  destruct l; try discriminate Hl; cbn; by apply IH.
Qed.

Lemma replay_all m ls :
  torn_free ls = true -> replay m ls = fold_left replay_line ls m.
Proof.
  intros Hfree. rewrite <- (app_nil_r ls) at 1. by rewrite replay_app.
Qed.

Lemma torn_free_app l1 l2 :
  torn_free (l1 ++ l2) = torn_free l1 && torn_free l2.
Proof. unfold torn_free. apply forallb_app. Qed.

Lemma fold_replay_app m l1 l2 :
  fold_left replay_line (l1 ++ l2) m
  = fold_left replay_line l2 (fold_left replay_line l1 m).
Proof. apply fold_left_app. Qed.

Lemma NewStore_ok d :
  exists s, NewStore d [] = (Some s, None)
            /\ tasks s = persisted d /\ dir s = d
            /\ walWriter s = mkWriter [] None /\ walFile s = mkFile false
            /\ io s = [].
Proof.
  unfold NewStore, loadSnapshotAndWal, openWal, persisted, load_snapshot.
  destruct d as [snap wal]. cbn.
  destruct snap; cbn; eexists; (split; [reflexivity|]); cbn; done.
Qed.










(** ** Close *)

Lemma Close_closes s : fclosed (walFile (Close s).1) = true.
Proof.
  unfold Close, writer_Flush, file_Close.
  store_cases; try done; congruence.
Qed.

Lemma Close_settles_writer s : writer_ok (Close s).1.
Proof.
  unfold Close, writer_Flush, file_Close, writer_ok.
  store_cases; try done; try congruence.
  all: repeat match goal with H : walWriter _ = _ |- _ => rewrite H end;
    cbn; congruence.
Qed.

(** A [Close] on a store whose file is closed changes nothing and returns
    the error of the file. *)
Lemma Close_again s :
  fclosed (walFile s) = true -> writer_ok s ->
  Close s = (s, Some ErrClosed).
Proof.
  unfold Close, writer_Flush, file_Close, writer_ok. intros Hc Hw.
  destruct (werr (walWriter s)) eqn:Ew; cbn.
  - by rewrite Hc.
  - rewrite (Hw eq_refl). cbn. by rewrite Hc.
Qed.

(** C8 (as stated, refuted).  On the store opened on an empty directory
    the first [Close] succeeds and the second returns an error. *)
Lemma Close_twice_counterexample :
  exists s s1,
    NewStore (mkDir SnapAbsent []) [] = (Some s, None)
    /\ Close s = (s1, None)
    /\ (Close s1).2 <> None.
Proof.
  do 2 eexists. split; [reflexivity|]. split; [reflexivity|].
  vm_compute. discriminate.
Qed.

(** C8 (amended).  On a store whose writer has not failed and whose file
    is open, with no I/O failure, [Close] writes the buffer to the log,
    closes the file and returns success.  After any [Close], a second
    [Close] leaves the store as it is and returns the error of the file,
    "file already closed". *)
Theorem Close_flushes_then_fails_closed (s : Store) :
  werr (walWriter s) = None -> fclosed (walFile s) = false -> io s = [] ->
  exists s1,
    Close s = (s1, None)
    /\ state_wal (dir s1) = state_wal (dir s) ++ wbuf (walWriter s)
    /\ wbuf (walWriter s1) = []
    /\ fclosed (walFile s1) = true
    /\ tasks s1 = tasks s
    /\ Close s1 = (s1, Some ErrClosed).
Proof.
  intros Hw Hc Hio.
  pose proof (Close_closes s) as Hcl.
  pose proof (Close_settles_writer s) as Hwo.
  destruct (Close s) as [s1 e1] eqn:EC. cbn in Hcl, Hwo.
  exists s1. rewrite (Close_again s1 Hcl Hwo).
  unfold Close, writer_Flush, file_Close, next_io in EC.
  rewrite Hw in EC.
  destruct (wbuf (walWriter s)) eqn:Eb; cbn in EC;
    do 3 (rewrite ?Hc, ?Hio in EC; cbn in EC);
    simplify_eq; cbn; rewrite ?app_nil_r, ?Eb; repeat split; done.
Qed.

Lemma Close_flushes_then_fails_closed_witness :
  werr (walWriter ex_unflushed) = None
  /\ fclosed (walFile ex_unflushed) = false
  /\ io ex_unflushed = []
  /\ exists s1,
       Close ex_unflushed = (s1, None)
       /\ state_wal (dir s1) = [LSkip]
       /\ Close s1 = (s1, Some ErrClosed).
Proof.
  do 3 (split; [reflexivity|]).
  destruct (Close_flushes_then_fails_closed ex_unflushed
              eq_refl eq_refl eq_refl)
    as (s1 & H1 & H2 & _ & _ & _ & H3).
  exists s1. repeat split; assumption.
Defined.

(** ** Round trip through a restart *)

Lemma persisted_snoc d l :
  torn_free (state_wal d) = true ->
  persisted (mkDir (snapshot_json d) (state_wal d ++ [l]))
  = (if is_torn l then persisted d else replay_line (persisted d) l).
Proof.
  intros Hfree. unfold persisted. cbn.
  rewrite replay_app by done. rewrite <- replay_all by done.
  by destruct l.
Qed.

Lemma run_op_in_step op s s1 :
  in_step s -> run_op op s = (s1, None) ->
  in_step s1 /\ tasks s1 = <[ID (op_task op) := op_task op]> (tasks s).
Proof.
  intros (Ht & Hfree & Hw) Hrun.
  assert (Hgen : forall rec,
    is_torn rec = false ->
    replay_line (persisted (dir s)) rec
    = <[ID (op_task op) := op_task op]> (tasks s) ->
    appendRecord rec (set_tasks (<[ID (op_task op) := op_task op]> (tasks s)) s)
    = (s1, None) ->
    in_step s1 /\ tasks s1 = <[ID (op_task op) := op_task op]> (tasks s)).
  { intros rec Hrec Hline Happ.
    apply appendRecord_ok in Happ as (Hwal & Hsnap & Htasks & Hw1 & _).
    cbn in Hwal, Hsnap, Htasks. rewrite Hw in Hwal. cbn in Hwal.
    split; [|done]. split; [|split; [|done]].
    - rewrite Htasks, <- Hline.
      destruct (dir s1) as [snap1 wal1]. cbn in Hwal, Hsnap. subst.
      rewrite persisted_snoc by done. by rewrite Hrec.
    - rewrite Hwal, torn_free_app, Hfree. cbn. by rewrite Hrec. }
  destruct op as [t|t]; cbn in Hrun |- *.
  - apply (Hgen (LUpsert t)); [done | cbn; by rewrite Ht | done].
  - apply (Hgen (LUpdate (ID t) t)); [done | cbn; by rewrite Ht | done].
Qed.

Lemma run_ops_in_step ops s s1 :
  in_step s -> run_ops ops s = Some s1 ->
  in_step s1 /\ tasks s1 = last_written (tasks s) ops.
Proof.
  revert s. induction ops as [|op ops IH]; intros s Hs Hrun.
  - injection Hrun as <-. done.
  - cbn in Hrun. destruct (run_op op s) as [s' [e|]] eqn:Eop; [done|].
    destruct (run_op_in_step op s s' Hs Eop) as [Hs' Ht'].
    destruct (IH s' Hs' Hrun) as [Hs1 Ht1].
    split; [done|]. cbn. by rewrite <- Ht'.
Qed.

(** C2 (the code departs from the claim).  The store is opened on a log
    that ends with a torn record, as a crash or a short write during
    [appendRecord] leaves it.  The replay stops at the torn record and the
    store opens; an [UpsertTask] then succeeds, and its record lands
    behind the torn one, the log being opened for append as it is.  The
    next restart stops at the torn record again: the task that was
    written, and that the map in memory holds, is not in the map that the
    restart loads. *)
Theorem writes_behind_torn_tail_are_lost :
  exists s0 s1 s2,
    NewStore (mkDir SnapAbsent [LTorn]) [] = (Some s0, None)
    /\ run_ops [OpUpsert sample_task] s0 = Some s1
    /\ NewStore (dir s1) [] = (Some s2, None)
    /\ tasks s1 !! "a" = Some sample_task
    /\ tasks s2 !! "a" = None.
Proof. do 3 eexists. repeat split; reflexivity. Qed.

(** On a directory whose log decodes to its end the round trip holds: for
    any sequence of [UpsertTask] and [UpdateTask] calls that all succeed,
    a restart loads a map equal to the map in memory, which is the map at
    opening overwritten by the calls in order (the last writer of an id
    wins); and on replay an [upsert_task] record and an [update_task]
    record for the same task have the same effect. *)
Lemma restart_replays_last_written (d : Dir) (plan : list IoOutcome)
    (ops : list StoreOp) (s0 s1 : Store) :
  torn_free (state_wal d) = true ->
  NewStore d [] = (Some s0, None) ->
  run_ops ops (set_io plan s0) = Some s1 ->
  (exists s2, NewStore (dir s1) [] = (Some s2, None) /\ tasks s2 = tasks s1)
  /\ tasks s1 = last_written (tasks s0) ops
  /\ (forall m t, replay_line m (LUpsert t) = replay_line m (LUpdate (ID t) t)).
Proof.
  intros Hfree Hnew Hrun.
  destruct (NewStore_ok d) as (s & Hs & Ht & Hd & Hw & _).
  rewrite Hs in Hnew. injection Hnew as <-.
  assert (Hstep : in_step (set_io plan s)).
  { unfold in_step. cbn. by rewrite Hd. }
  destruct (run_ops_in_step ops _ s1 Hstep Hrun) as [(Ht1 & _) Hlast].
  split; [|split; [done|done]].
  destruct (NewStore_ok (dir s1)) as (s2 & Hs2 & Ht2 & _).
  exists s2. split; [done|]. by rewrite Ht2, Ht1.
Qed.

Example restart_replays_last_written_example :
  exists s0 s1,
    NewStore (mkDir SnapAbsent [LSkip]) [] = (Some s0, None)
    /\ run_ops [OpUpsert sample_task; OpUpdate sample_task] (set_io [] s0)
       = Some s1
    /\ (exists s2, NewStore (dir s1) [] = (Some s2, None)
                   /\ tasks s2 = tasks s1).
Proof.
  do 2 eexists. split; [reflexivity|]. split; [reflexivity|].
  eapply (proj1 (restart_replays_last_written (mkDir SnapAbsent [LSkip]) []
                   [OpUpsert sample_task; OpUpdate sample_task] _ _
                   eq_refl eq_refl eq_refl)).
Qed.

(* ===================================================================== *)
(** * Properties of the manager: one operation *)

Lemma UpdateTask_tasks u s :
  tasks (UpdateTask u s).1 = <[ID u := u]> (tasks s).
Proof.
  unfold UpdateTask.
  destruct (appendRecord_any (LUpdate (ID u) u)
              (set_tasks (<[ID u := u]> (tasks s)) s)) as (_ & _ & Ht & _).
  exact Ht.
Qed.

Lemma UpsertTask_tasks u s :
  tasks (UpsertTask u s).1 = <[ID u := u]> (tasks s).
Proof.
  unfold UpsertTask.
  destruct (appendRecord_any (LUpsert u)
              (set_tasks (<[ID u := u]> (tasks s)) s)) as (_ & _ & Ht & _).
  exact Ht.
Qed.

Lemma update_task_tasks u m :
  tasks (store (update_task u m)) = <[ID u := u]> (tasks (store m)).
Proof. apply UpdateTask_tasks. Qed.

Lemma update_task_frame u m :
  cfg (update_task u m) = cfg m /\ queue (update_task u m) = queue m
  /\ timers (update_task u m) = timers m
  /\ processedN (update_task u m) = processedN m.
Proof. done. Qed.

Lemma tickets_length id n : length (tickets id n) = n.
Proof. unfold tickets. by rewrite length_map, length_seq. Qed.


Lemma tickets_NoDup id n : NoDup (tickets id n).
Proof.
  unfold tickets. change (map ?f ?l) with (f <$> l).
  apply NoDup_fmap_2; [|apply NoDup_seq].
  intros i j Hij. injection Hij as Hij. by apply Nat2Z.inj.
Qed.





Lemma NewID_length b : String.length (NewID b) = 32%nat.
Proof.
  unfold NewID. rewrite length_EncodeToString, length_take, length_app,
    repeat_length. lia.
Qed.

Section ManagerFacts.
Context {parser : URLParser}.


End ManagerFacts.

(** C10.  A ticket whose task is not in the store, or whose index is
    negative or not below the number of items, is dropped: the manager
    (store, queue, timers, counters) is returned as it was and nothing is
    done to the world. *)
Theorem processQueueItem_drops_stale_ticket (env : DownloadEnv)
    (qi : queueItem) (m : Manager) :
  (GetTask (taskID qi) (store m) = None
   \/ exists t, GetTask (taskID qi) (store m) = Some t
                /\ (itemIdx qi < 0 \/ Z.of_nat (length (Items t)) <= itemIdx qi)) ->
  processQueueItem env qi m = (m, []).
Proof.
  intros [Hnone | (t & Ht & Hidx)]; unfold processQueueItem.
  - by rewrite Hnone.
  - rewrite Ht.
    destruct (Z.ltb_spec (itemIdx qi) 0);
      destruct (Z.leb_spec (Z.of_nat (length (Items t))) (itemIdx qi));
      cbn; try done; lia.
Qed.

Lemma wrap64_id z : in_int z -> wrap64 z = z.
Proof.
  unfold in_int, min_int, max_int, wrap64. intros Hz.
  rewrite Z.mod_small; lia.
Qed.

Lemma add64_exact a b : in_int (a + b) -> add64 a b = a + b.
Proof. apply wrap64_id. Qed.

Lemma range_header_example : range_header 51200 = "bytes=51200-".
Proof. reflexivity. Qed.

(** The entry of the task after a chain of [update_task]. *)
Lemma lookup_update_task u m :
  tasks (store (update_task u m)) !! ID u = Some u.
Proof. by rewrite update_task_tasks, lookup_insert_eq. Qed.

Lemma store_set_timers v m : store (set_timers v m) = store m.
Proof. done. Qed.

Ltac final_task :=
  repeat first
    [ rewrite store_set_timers
    | rewrite update_task_tasks ];
  cbn [ID on_item set_Status set_Items];
  rewrite lookup_insert_eq.



(* ===================================================================== *)
(** * What the operations write *)

Lemma writes_only_refl R s : writes_only R s s.
Proof.
  split; [done|]. intros Hw. split; [done|].
  exists []. by rewrite app_nil_r.
Qed.

Lemma writes_only_trans R s1 s2 s3 :
  writes_only R s1 s2 -> writes_only R s2 s3 -> writes_only R s1 s3.
Proof.
  intros [Hs12 H12] [Hs23 H23]. split; [congruence|].
  intros Hw1. destruct (H12 Hw1) as (Hw2 & l12 & E12 & F12).
  destruct (H23 Hw2) as (Hw3 & l23 & E23 & F23).
  split; [done|]. exists (l12 ++ l23).
  split; [by rewrite E23, E12, app_assoc | by apply Forall_app].
Qed.

Lemma writes_only_mono (R R' : Task -> Prop) s s' :
  (forall u, R u -> R' u) -> writes_only R s s' -> writes_only R' s s'.
Proof.
  intros HRR' [Hs H]. split; [done|].
  intros Hw. destruct (H Hw) as (Hw' & ls & E & F).
  split; [done|]. exists ls. split; [done|].
  eapply Forall_impl; [exact F|].
  intros [u|k u| |]; cbn; [auto | intros [? ?]; auto | done | done].
Qed.

Lemma writes_only_set_io R plan s s' :
  writes_only R (set_io plan s) s' -> writes_only R s s'.
Proof. done. Qed.

Lemma appendRecord_writes R rec s :
  line_of R rec -> writes_only R s (appendRecord rec s).1.
Proof.
  intros Hrec.
  destruct (appendRecord_any rec s) as ((ls & Hwal & Hls) & Hsnap & _ & _ & Hw).
  split; [done|]. intros Hok. split; [by apply Hw|].
  exists ls. split; [done|].
  destruct Hls as [-> | [-> | ->]]; [constructor | | by repeat constructor].
  unfold writer_ok in Hok.
  destruct (werr (walWriter s)) eqn:Ew.
  - (* a failed writer appends nothing: this case of the log cannot be *)
    exfalso. revert Hwal.
    unfold appendRecord, writer_Write. rewrite Ew. cbn.
    intros Hwal. apply (f_equal length) in Hwal.
    rewrite length_app, length_app in Hwal. cbn in Hwal. lia.
  - rewrite (Hok eq_refl). by repeat constructor.
Qed.

Lemma UpdateTask_writes (R : Task -> Prop) u s :
  R u -> writes_only R s (UpdateTask u s).1.
Proof.
  intros Hu. unfold UpdateTask.
  pose proof (appendRecord_writes R (LUpdate (ID u) u)
                (set_tasks (<[ID u := u]> (tasks s)) s)) as H.
  apply H. by split.
Qed.

Lemma UpsertTask_writes (R : Task -> Prop) u s :
  R u -> writes_only R s (UpsertTask u s).1.
Proof.
  intros Hu. unfold UpsertTask.
  exact (appendRecord_writes R (LUpsert u)
           (set_tasks (<[ID u := u]> (tasks s)) s) Hu).
Qed.

Lemma update_task_writes (R : Task -> Prop) u m :
  R u -> writes_only R (store m) (store (update_task u m)).
Proof. apply UpdateTask_writes. Qed.

(* ===================================================================== *)
(** * What processing a ticket does to its task *)

Lemma attempts_at_on_item idx f t :
  attempts_at idx (on_item idx f t)
  = match Items t !! idx with
    | Some it => Attempts (f it)
    | None => 0
    end.
Proof.
  unfold attempts_at. cbn. rewrite list_lookup_alter_eq.
  by destruct (Items t !! idx).
Qed.

Lemma working_start t0 idx f :
  (forall it, Attempts (f it) = Attempts it) ->
  working t0 idx (on_item idx f (set_Status TaskStatusRunning t0)).
Proof.
  intros Hf. split; cbn; try done.
  - apply length_alter.
  - intros j Hj. by apply list_lookup_alter_ne.
  - rewrite attempts_at_on_item. unfold attempts_at. cbn.
    destruct (Items t0 !! idx); auto.
Qed.

Lemma working_on_item t0 idx t f :
  (forall it, Attempts (f it) = Attempts it) ->
  working t0 idx t -> working t0 idx (on_item idx f t).
Proof.
  intros Hf [Hid Hlen Hoth Hatt Hst]. split; cbn; try done.
  - by rewrite length_alter.
  - intros j Hj. rewrite list_lookup_alter_ne by done. by apply Hoth.
  - rewrite attempts_at_on_item, <- Hatt. unfold attempts_at.
    destruct (Items t !! idx); auto.
Qed.

Lemma working_processed t0 idx t : working t0 idx t -> processed t0 idx t.
Proof.
  intros [Hid Hlen Hoth Hatt Hst]. split; try done.
  - left. done.
  - rewrite Hst. discriminate.
Qed.

Lemma failed_processed t0 idx t cause st :
  st <> TaskStatusCompleted ->
  working t0 idx t ->
  processed t0 idx (set_Status st (on_item idx (fail_fields cause) t)).
Proof.
  intros Hne [Hid Hlen Hoth Hatt Hst]. split; cbn; try done.
  - by rewrite length_alter.
  - intros j Hj. rewrite list_lookup_alter_ne by done. by apply Hoth.
  - unfold attempts_at in *. cbn. rewrite list_lookup_alter_eq.
    destruct (Items t !! idx); cbn; [right | left]; congruence.
Qed.

Lemma failed_processed_running t0 idx t cause :
  working t0 idx t ->
  processed t0 idx (on_item idx (fail_fields cause) t).
Proof.
  intros Hw.
  pose proof (failed_processed t0 idx t cause TaskStatusRunning
                ltac:(discriminate) Hw) as H.
  destruct Hw as [_ _ _ _ Hst].
  replace (on_item idx (fail_fields cause) t)
    with (set_Status TaskStatusRunning (on_item idx (fail_fields cause) t));
    [done|].
  unfold set_Status, on_item, set_Items. cbn. by rewrite <- Hst.
Qed.

Lemma mrel_update (R : Task -> Prop) u m :
  R u -> mrel R (ID u) m (update_task u m) u.
Proof.
  intros Hu. unfold mrel. do 3 (split; [done|]).
  split; [by apply update_task_writes | apply update_task_tasks].
Qed.

Lemma mrel_trans R k m1 m2 m3 u2 u3 :
  mrel R k m1 m2 u2 -> mrel R k m2 m3 u3 -> mrel R k m1 m3 u3.
Proof.
  intros (Hc & Hq & Hp & Hw & Ht) (Hc' & Hq' & Hp' & Hw' & Ht').
  unfold mrel. do 3 (split; [congruence|]).
  split; [by apply (writes_only_trans R _ _ _ Hw Hw')|].
  by rewrite Ht', Ht, insert_insert_eq.
Qed.

Lemma mrel_set_timers R k m m' u v :
  mrel R k m m' u -> mrel R k m (set_timers v m') u.
Proof. done. Qed.

Lemma failItem_summary t0 idx t cause m :
  working t0 idx t ->
  exists u, mrel (processed t0 idx) (ID t0) m (failItem t idx cause m) u
            /\ processed t0 idx u
            /\ timers (failItem t idx cause m) = timers m.
Proof.
  intros Hw. pose proof (failed_processed_running t0 idx t cause Hw) as Hp.
  eexists. split; [|split; [exact Hp|done]].
  unfold failItem. rewrite <- (pr_id _ _ _ Hp). by apply mrel_update.
Qed.

Lemma retryOrFail_summary t0 idx t cause m :
  working t0 idx t ->
  (idx < length (Items t))%nat ->
  exists u, mrel (processed t0 idx) (ID t0) m (retryOrFail t idx cause m) u
            /\ processed t0 idx u
            /\ timer_added t0 idx u m (retryOrFail t idx cause m).
Proof.
  intros Hw Hidx.
  pose proof (failed_processed_running t0 idx t cause Hw) as Hp.
  pose proof (failed_processed t0 idx t cause TaskStatusFailed
                ltac:(discriminate) Hw) as Hpf.
  set (t1 := on_item idx (fail_fields cause) t) in *.
  assert (Hm1 : mrel (processed t0 idx) (ID t0) m (update_task t1 m) t1).
  { rewrite <- (pr_id _ _ _ Hp). by apply mrel_update. }
  unfold retryOrFail. fold t1.
  destruct (Z.leb_spec (attempts_at idx t1) (MaxRetryPerItem (cfg m)))
    as [Hle|Hgt].
  - exists t1. split; [by apply mrel_set_timers|]. split; [done|].
    right. destruct (lookup_lt_is_Some_2 (Items t) idx Hidx) as [it Hit].
    exists (mul64 (BaseBackoff (cfg m)) (attempts_at idx t1)),
           (fail_fields cause it).
    assert (Hit1 : Items t1 !! idx = Some (fail_fields cause it)).
    { subst t1. cbn. by rewrite list_lookup_alter_eq, Hit. }
    split; [cbn; by rewrite (wk_id _ _ _ Hw)|].
    split; [done|]. split; [done|].
    unfold attempts_at in Hle. by rewrite Hit1 in Hle.
  - destruct (existsb is_pending (Items t1)).
    + exists t1. split; [done|]. split; [done|]. by left.
    + exists (set_Status TaskStatusFailed t1).
      split; [|split; [done | by left]].
      eapply mrel_trans; [exact Hm1|].
      pose proof (mrel_update (processed t0 idx)
                    (set_Status TaskStatusFailed t1)
                    (update_task t1 m) Hpf) as H.
      cbn [ID set_Status] in H. rewrite (pr_id _ _ _ Hp) in H. exact H.
Qed.

Lemma finish_item_summary t0 idx t now m :
  working t0 idx t ->
  exists u, mrel (processed t0 idx) (ID t0) m (finish_item now t idx m) u
            /\ processed t0 idx u
            /\ timers (finish_item now t idx m) = timers m.
Proof.
  intros Hw.
  set (f := fun it => set_ErrorMessage ""
                        (set_IStatus ItemStatusDone
                           (set_CompletedAt (Some now) it))).
  assert (Hw1 : working t0 idx (on_item idx f t))
    by (by apply working_on_item).
  pose proof (working_processed _ _ _ Hw1) as Hp.
  set (t1 := on_item idx f t) in *.
  assert (Hm1 : mrel (processed t0 idx) (ID t0) m (update_task t1 m) t1).
  { rewrite <- (pr_id _ _ _ Hp). by apply mrel_update. }
  unfold finish_item. fold f. fold t1.
  destruct (all_done (Items t1)) eqn:Hall.
  - assert (Hpc : processed t0 idx (set_Status TaskStatusCompleted t1)).
    { destruct Hp as [Hid Hlen Hoth Hatt _]. split; done. }
    exists (set_Status TaskStatusCompleted t1).
    split; [|split; [done|done]].
    eapply mrel_trans; [exact Hm1|].
    pose proof (mrel_update (processed t0 idx)
                  (set_Status TaskStatusCompleted t1)
                  (update_task t1 m) Hpc) as H.
    cbn [ID set_Status] in H. rewrite (pr_id _ _ _ Hp) in H. exact H.
  - exists t1. done.
Qed.

Lemma timer_added_from t0 idx u m m1 m' :
  timers m1 = timers m -> cfg m1 = cfg m ->
  timer_added t0 idx u m1 m' -> timer_added t0 idx u m m'.
Proof.
  intros Ht Hc [H | (d & it' & H & ?)]; [left | right]; [congruence|].
  exists d, it'. rewrite <- Ht, <- Hc. auto.
Qed.

Lemma receive_summary env resp so tmp dst t0 idx t m :
  working t0 idx t ->
  (idx < length (Items t))%nat ->
  let m' := (receive env resp so tmp dst t idx m).1 in
  exists u, mrel (processed t0 idx) (ID t0) m m' u
            /\ processed t0 idx u
            /\ timer_added t0 idx u m m'.
Proof.
  intros Hw Hidx. unfold receive.
  destruct (negb _ && negb _); cbn [fst].
  { by apply retryOrFail_summary. }
  set (t1 := if 0 <? ContentLength resp then _ else t).
  assert (Hw1 : working t0 idx t1).
  { subst t1. destruct (0 <? _); [|done]. by apply working_on_item. }
  assert (Hidx1 : (idx < length (Items t1))%nat).
  { subst t1. destruct (0 <? _); [|done]. cbn. by rewrite length_alter. }
  destruct (open_err env); cbn [fst].
  { by apply retryOrFail_summary. }
  destruct (seek_err env); cbn [fst].
  { by apply retryOrFail_summary. }
  set (t2 := on_item idx (set_SizeDownloaded _) t1).
  assert (Hw2 : working t0 idx t2) by (by apply working_on_item).
  assert (Hidx2 : (idx < length (Items t2))%nat)
    by (subst t2; cbn; by rewrite length_alter).
  destruct (match copy_err env with Some e => Some e | None => close_err env end);
    cbn [fst].
  { by apply retryOrFail_summary. }
  destruct (rename_err env); cbn [fst].
  { by apply retryOrFail_summary. }
  destruct (finish_item_summary t0 idx t2 (now_done env) m Hw2)
    as (u & Hm & Hp & Ht).
  exists u. split; [done|]. split; [done|]. by left.
Qed.

Lemma processQueueItem_summary env qi m t0 it0 :
  tasks (store m) !! taskID qi = Some t0 ->
  0 <= itemIdx qi ->
  Items t0 !! Z.to_nat (itemIdx qi) = Some it0 ->
  let idx := Z.to_nat (itemIdx qi) in
  let m' := (processQueueItem env qi m).1 in
  exists u, mrel (processed t0 idx) (ID t0) m m' u
            /\ processed t0 idx u
            /\ timer_added t0 idx u m m'.
Proof.
  intros Hget Hpos Hit idx m'. subst m'. change (Items t0 !! idx = Some it0) in Hit.
  assert (Hlen : (idx < length (Items t0))%nat)
    by (apply lookup_lt_Some in Hit; exact Hit).
  unfold processQueueItem, GetTask. rewrite Hget.
  destruct (Z.ltb_spec (itemIdx qi) 0) as [?|_]; [lia|].
  destruct (Z.leb_spec (Z.of_nat (length (Items t0))) (itemIdx qi)) as [?|_];
    [subst idx; lia|].
  cbn [orb]. fold idx.
  set (f := fun it => set_IStatus ItemStatusDownloading
                        (set_StartedAt (Some (now_start env)) it)).
  set (t2 := on_item idx f (set_Status TaskStatusRunning t0)).
  assert (Hw2 : working t0 idx t2) by (by apply working_start).
  assert (Hidx2 : (idx < length (Items t2))%nat)
    by (subst t2; cbn; by rewrite length_alter).
  set (m1 := update_task t2 m).
  assert (Hm1 : mrel (processed t0 idx) (ID t0) m m1 t2).
  { rewrite <- (wk_id _ _ _ Hw2). apply mrel_update.
    by apply working_processed. }
  assert (Hcompose : forall m2,
    (exists u, mrel (processed t0 idx) (ID t0) m1 m2 u
               /\ processed t0 idx u /\ timer_added t0 idx u m1 m2) ->
    exists u, mrel (processed t0 idx) (ID t0) m m2 u
              /\ processed t0 idx u /\ timer_added t0 idx u m m2).
  { intros m2 (u & Hm & Hp & Ht). exists u.
    split; [by eapply mrel_trans|]. split; [done|].
    by apply (timer_added_from t0 idx u m m1 m2). }
  destruct (mkdir_err env); cbn [fst].
  { apply Hcompose.
    destruct (failItem_summary t0 idx t2 ("mkdir: " +:+ s) m1 Hw2)
      as (u & Hm & Hp & Ht).
    exists u. split; [done|]. split; [done|]. by left. }
  destruct (newreq_err env); cbn [fst].
  { apply Hcompose. by apply retryOrFail_summary. }
  destruct (do_result env) as [e|resp]; cbn [fst].
  { apply Hcompose. by apply retryOrFail_summary. }
  match goal with
  | |- context [receive ?a ?b ?c ?d ?e ?f ?g ?h] =>
      pose proof (receive_summary a b c d e t0 g f h Hw2 Hidx2) as Hr;
      destruct (receive a b c d e f g h) as [m2 tr]
  end.
  cbn [fst] in *. by apply Hcompose.
Qed.

(** [SaveSnapshot] touches the snapshot only. *)
Lemma SaveSnapshot_frame s :
  let s' := (SaveSnapshot s).1 in
  tasks s' = tasks s /\ state_wal (dir s') = state_wal (dir s)
  /\ walWriter s' = walWriter s /\ walFile s' = walFile s
  /\ (snapshot_json (dir s') = snapshot_json (dir s)
      \/ snapshot_json (dir s') = SnapOk (tasks s)).
Proof.
  unfold SaveSnapshot.
  destruct (next_io s) as [o1 s1] eqn:E1.
  apply next_io_frame in E1 as (Hd1 & Ht1 & Hf1 & Hw1).
  destruct o1; cbn; try (rewrite Hd1, Ht1, Hf1, Hw1; by auto 6).
  destruct (next_io s1) as [o2 s2] eqn:E2.
  apply next_io_frame in E2 as (Hd2 & Ht2 & Hf2 & Hw2).
  destruct o2; cbn; rewrite ?Hd2, ?Ht2, ?Hf2, ?Hw2, ?Hd1, ?Ht1, ?Hf1, ?Hw1;
    repeat split; auto.
Qed.

(** The retry callback: the item goes back to [queued], the task is
    written, the ticket is sent. *)
Lemma timer_fire_summary tm m t it :
  tasks (store m) !! tm_task tm = Some t ->
  Items t !! tm_item tm = Some it ->
  let t1 := on_item (tm_item tm) (set_IStatus ItemStatusQueued) t in
  let m' := timer_fire tm m in
  cfg m' = cfg m /\ timers m' = timers m
  /\ queue m' = queue m ++ [mkQueueItem (ID t) (Z.of_nat (tm_item tm))]
  /\ tasks (store m') = <[ID t := t1]> (tasks (store m))
  /\ writes_only (eq t1) (store m) (store m').
Proof.
  intros Hget Hit t1 m'. subst m'. unfold timer_fire. rewrite Hget. fold t1.
  assert (Hlen : (tm_item tm < length (Items t1))%nat).
  { subst t1. cbn. rewrite length_alter. by apply lookup_lt_Some in Hit. }
  do 2 (split; [done|]).
  split.
  { cbn. unfold indexOfItem.
    destruct (Nat.ltb_spec (tm_item tm) (length (Items t1))); [done|lia]. }
  split; [exact (update_task_tasks t1 m)|].
  by apply update_task_writes.
Qed.

(* ===================================================================== *)
(** * What Start does *)

Lemma restarted_upto_all i t0 t :
  (length (Items t0) <= i)%nat -> restarted_upto i t0 t ->
  Items t = restart_item <$> Items t0.
Proof.
  intros Hi [Hlen Hshape]. apply list_eq. intros j.
  rewrite Hshape, list_lookup_fmap. case_decide; [done|].
  rewrite lookup_ge_None_2 by lia. done.
Qed.

Lemma restarted_upto_skip i t0 t it :
  Items t0 !! i = Some it -> IStatus it = ItemStatusDone ->
  restarted_upto i t0 t -> restarted_upto (S i) t0 t.
Proof.
  intros Hit Hdone [Hlen Hshape]. split; [done|]. intros j.
  rewrite Hshape. destruct (decide (j = i)) as [->|Hne].
  - rewrite Hit. repeat case_decide; try lia. cbn. unfold restart_item.
    rewrite decide_False; [done|]. intros Hne. by apply Hne.
  - repeat case_decide; try lia; done.
Qed.

Lemma restarted_upto_reset i t0 t it :
  Items t0 !! i = Some it -> IStatus it <> ItemStatusDone ->
  restarted_upto i t0 t ->
  restarted_upto (S i) t0 (on_item i requeue_reset t).
Proof.
  intros Hit Hdone [Hlen Hshape]. split; [cbn; by rewrite length_alter|].
  intros j. cbn. destruct (decide (j = i)) as [->|Hne].
  - rewrite list_lookup_alter_eq, Hshape, Hit.
    repeat case_decide; try lia. cbn. unfold restart_item.
    by rewrite decide_True.
  - rewrite list_lookup_alter_ne by done. rewrite Hshape.
    repeat case_decide; try lia; done.
Qed.

Lemma restarted_upto_lookup i t0 t :
  restarted_upto i t0 t -> Items t !! i = Items t0 !! i.
Proof. intros [_ Hshape]. rewrite Hshape. case_decide; [lia|done]. Qed.

Lemma requeue_items_spec t0 n : forall i t m,
  (i + n)%nat = length (Items t0) ->
  ID t = ID t0 /\ CreatedAt t = CreatedAt t0 -> Status t = Status t0 ->
  restarted_upto i t0 t ->
  tasks (store m) !! ID t0 = Some t ->
  match requeue_items (seq i n) t m with
  | Returned (t', m') =>
      (ID t' = ID t0 /\ CreatedAt t' = CreatedAt t0) /\ Status t' = Status t0
      /\ Items t' = restart_item <$> Items t0
      /\ tasks (store m') = <[ID t0 := t']> (tasks (store m))
      /\ queue m'
         = queue m ++ ((fun idx => mkQueueItem (ID t0) (Z.of_nat idx))
                         <$> List.filter (not_done_at t0) (seq i n))
      /\ cfg m' = cfg m /\ timers m' = timers m
      /\ writes_only (restarting t0) (store m) (store m')
  | Blocked m' =>
      cfg m' = cfg m /\ writes_only (restarting t0) (store m) (store m')
  end.
Proof.
  induction n as [|n IH]; intros i t m Hlen [Hid Hcr] Hst Hshape Hget.
  - cbn. split; [done|]. split; [done|].
    split; [apply (restarted_upto_all i); [lia|done]|].
    split; [by rewrite insert_id|].
    split; [by rewrite app_nil_r|].
    do 2 (split; [done|]). apply writes_only_refl.
  - cbn [seq requeue_items].
    assert (Hi : (i < length (Items t0))%nat) by lia.
    destruct (lookup_lt_is_Some_2 _ _ Hi) as [it Hit].
    rewrite (restarted_upto_lookup _ _ _ Hshape), Hit.
    cbn [List.filter]. unfold not_done_at at 1. rewrite Hit.
    destruct (decide (IStatus it <> ItemStatusDone)) as [Hnd|Hd].
    + rewrite bool_decide_eq_true_2 by done.
      set (t1 := on_item i requeue_reset t).
      assert (Hshape1 : restarted_upto (S i) t0 t1)
        by (by apply (restarted_upto_reset i t0 t it)).
      assert (Hr1 : restarting t0 t1).
      { split; [done|]. split; [by exists (S i)|]. left. done. }
      assert (Hw1 : writes_only (restarting t0) (store m)
                      (store (update_task t1 m)))
        by (by apply update_task_writes).
      destruct (length (queue (update_task t1 m)) <? chanCap)%nat; [|done].
      set (m1 := enqueue _ (update_task t1 m)).
      assert (Hget1 : tasks (store m1) !! ID t0 = Some t1).
      { subst m1. cbn [store enqueue set_queue].
        rewrite update_task_tasks. cbn [ID t1 on_item set_Items].
        by rewrite Hid, lookup_insert_eq. }
      specialize (IH (S i) t1 m1 ltac:(lia) (conj Hid Hcr) Hst Hshape1 Hget1).
      destruct (requeue_items (seq (S i) n) t1 m1) as [[t' m']|m'].
      * destruct IH as (H1 & H2 & H3 & H4 & H5 & H6 & H7 & H8).
        do 3 (split; [done|]).
        split.
        { rewrite H4. subst m1. cbn [store enqueue set_queue].
          rewrite update_task_tasks. cbn [ID t1 on_item set_Items].
          by rewrite Hid, insert_insert_eq. }
        split.
        { rewrite H5. subst m1. cbn [queue enqueue set_queue update_task
            set_store]. rewrite <- app_assoc. cbn. by rewrite Hid. }
        do 2 (split; [done|]).
        by apply (writes_only_trans _ _ _ _ Hw1 H8).
      * destruct IH as [H1 H2]. split; [done|].
        by apply (writes_only_trans _ _ _ _ Hw1 H2).
    + rewrite bool_decide_eq_false_2 by done.
      apply IH; try done; [lia|].
      apply (restarted_upto_skip i t0 t it); [done| |done].
      by destruct (decide (IStatus it = ItemStatusDone)) as [|Hne];
        [|destruct Hd].
Qed.

Lemma restarting_restarted t0 : restarting t0 (restarted t0).
Proof.
  unfold restarted.
  assert (Hshape : forall t1, Items t1 = restart_item <$> Items t0 ->
            exists i, restarted_upto i t0 t1).
  { intros t1 Hit. exists (length (Items t0)).
    split; [by rewrite Hit, length_fmap|].
    intros j. rewrite Hit, list_lookup_fmap. case_decide; [done|].
    by rewrite lookup_ge_None_2 by lia. }
  case_decide.
  - split; [done|]. split; [by apply Hshape | by right].
  - split; [done|]. split; [by apply Hshape | by left].
Qed.

Lemma requeue_task_spec t0 m :
  tasks (store m) !! ID t0 = Some t0 ->
  match requeue_task t0 m with
  | Returned m' =>
      tasks (store m') = <[ID t0 := restarted t0]> (tasks (store m))
      /\ queue m' = queue m ++ requeue_tickets t0
      /\ cfg m' = cfg m /\ timers m' = timers m
      /\ writes_only (restarting t0) (store m) (store m')
  | Blocked m' =>
      cfg m' = cfg m /\ writes_only (restarting t0) (store m) (store m')
  end.
Proof.
  intros Hget. unfold requeue_task.
  assert (H0 : restarted_upto 0 t0 t0).
  { split; [done|]. intros j. by case_decide; [lia|]. }
  pose proof (requeue_items_spec t0 (length (Items t0)) 0%nat t0 m eq_refl
                (conj eq_refl eq_refl) eq_refl H0 Hget) as Hspec.
  destruct (requeue_items _ t0 m) as [[t1 m1]|m1]; [|done].
  destruct Hspec as ((Hid & Hcr) & Hst & Hit & Htasks & Hq & Hc & Htm & Hw).
  assert (Ht1 : t1 = set_Items (restart_item <$> Items t0) t0).
  { destruct t1, t0. cbn in Hid, Hcr, Hst, Hit. subst. reflexivity. }
  destruct (decide (Status t1 <> TaskStatusCompleted)) as [Hne|He].
  - assert (Hfin : set_Status TaskStatusPending t1 = restarted t0).
    { unfold restarted. rewrite decide_True by (by rewrite <- Hst).
      by rewrite Ht1. }
    rewrite Hfin.
    split.
    { rewrite update_task_tasks, Htasks. cbn [ID restarted].
      replace (ID (restarted t0)) with (ID t0)
        by (unfold restarted; by case_decide).
      by rewrite insert_insert_eq. }
    split; [done|]. do 2 (split; [done|]).
    eapply writes_only_trans; [exact Hw|].
    apply update_task_writes. apply restarting_restarted.
  - assert (Hfin : t1 = restarted t0).
    { unfold restarted. rewrite decide_False; [done|].
      rewrite <- Hst. intros Hne. by apply He. }
    rewrite <- Hfin. done.
Qed.

Lemma Start_on_spec ts : forall m,
  NoDup (ID <$> ts) ->
  (forall t, t ∈ ts -> tasks (store m) !! ID t = Some t) ->
  match Start_on ts m with
  | Returned m' =>
      (forall t, t ∈ ts -> tasks (store m') !! ID t = Some (restarted t))
      /\ (forall k, k ∉ ID <$> ts ->
            tasks (store m') !! k = tasks (store m) !! k)
      /\ queue m' = queue m ++ concat (requeue_tickets <$> ts)
      /\ cfg m' = cfg m /\ timers m' = timers m
      /\ writes_only (fun u => exists t, t ∈ ts /\ restarting t u)
           (store m) (store m')
  | Blocked m' =>
      cfg m' = cfg m
      /\ writes_only (fun u => exists t, t ∈ ts /\ restarting t u)
           (store m) (store m')
  end.
Proof.
  induction ts as [|t ts IH]; intros m Hnd Hget.
  - cbn. split; [by intros t Ht%elem_of_nil|]. split; [done|].
    split; [by rewrite app_nil_r|]. do 2 (split; [done|]).
    apply writes_only_refl.
  - cbn [Start_on]. cbn in Hnd. apply NoDup_cons in Hnd as [Hnotin Hnd].
    pose proof (requeue_task_spec t m (Hget t ltac:(left))) as Hone.
    assert (Hmono : forall s s', writes_only (restarting t) s s' ->
              writes_only (fun u => exists t', t' ∈ t :: ts /\ restarting t' u)
                s s').
    { intros s s'. apply writes_only_mono. intros u Hu. exists t.
      split; [left | done]. }
    assert (Hmono' : forall s s',
              writes_only (fun u => exists t', t' ∈ ts /\ restarting t' u) s s' ->
              writes_only (fun u => exists t', t' ∈ t :: ts /\ restarting t' u)
                s s').
    { intros s s'. apply writes_only_mono. intros u (t' & Ht' & Hu).
      exists t'. split; [by right | done]. }
    destruct (requeue_task t m) as [m1|m1].
    2: { destruct Hone as [Hc Hw]. split; [done | by apply Hmono]. }
    destruct Hone as (Htasks & Hq & Hc & Htm & Hw).
    assert (Hget1 : forall t', t' ∈ ts -> tasks (store m1) !! ID t' = Some t').
    { intros t' Ht'. rewrite Htasks, lookup_insert_ne.
      - apply Hget. by right.
      - intros Heq. apply Hnotin. rewrite Heq.
        apply list_elem_of_fmap. by exists t'. }
    specialize (IH m1 Hnd Hget1).
    destruct (Start_on ts m1) as [m'|m'].
    2: { destruct IH as [Hc' Hw']. split; [congruence|].
         eapply writes_only_trans; [by apply Hmono | by apply Hmono']. }
    destruct IH as (Hin & Hout & Hq' & Hc' & Htm' & Hw').
    split.
    { intros t' [->|Ht']%elem_of_cons; [|by apply Hin].
      rewrite Hout by done. by rewrite Htasks, lookup_insert_eq. }
    split.
    { intros k Hk. rewrite fmap_cons in Hk.
      apply not_elem_of_cons in Hk as [Hk1 Hk2].
      rewrite Hout by done. by rewrite Htasks, lookup_insert_ne. }
    split; [rewrite Hq', Hq; cbn; by rewrite app_assoc|].
    do 2 (split; [congruence|]).
    eapply writes_only_trans; [by apply Hmono | by apply Hmono'].
Qed.

(* ===================================================================== *)
(** * The invariant of the service *)

(** ** Facts about the vocabulary *)

Lemma sane_S c n : sane c (S n) -> sane c n.
Proof. unfold sane, bound. lia. Qed.

Lemma good_S c n t : good c n t -> good c (S n) t.
Proof.
  intros [Hs Ha]. split; [done|]. intros Hsane.
  specialize (Ha (sane_S c n Hsane)).
  eapply Forall_impl; [exact Ha|]. unfold bound. cbn. intros it. lia.
Qed.

Lemma line_of_mono (R R' : Task -> Prop) l :
  (forall u, R u -> R' u) -> line_of R l -> line_of R' l.
Proof. intros H. destruct l; cbn; [auto | intros [? ?]; auto | done | done]. Qed.

Lemma keyed_and_mono (R R' : Task -> Prop) ts :
  (forall u, R u -> R' u) -> keyed_and R ts -> keyed_and R' ts.
Proof.
  intros H Hk k t Hkt. destruct (Hk k t Hkt). auto.
Qed.

Lemma dir_ok_mono (R R' : Task -> Prop) d :
  (forall u, R u -> R' u) -> dir_ok R d -> dir_ok R' d.
Proof.
  intros H [Hs Hw]. split.
  - destruct (snapshot_json d); cbn in *; [done | done |].
    by apply (keyed_and_mono R).
  - eapply Forall_impl; [exact Hw|]. intros l. by apply line_of_mono.
Qed.

Lemma keyed_and_insert (R : Task -> Prop) ts k u :
  ID u = k -> R u -> keyed_and R ts -> keyed_and R (<[k := u]> ts).
Proof. intros Hk Hu Hts. by apply map_Forall_insert_2. Qed.

Lemma replay_line_ok (R : Task -> Prop) ts l :
  keyed_and R ts -> line_of R l -> keyed_and R (replay_line ts l).
Proof.
  intros Hts Hl. destruct l as [u|k u| |]; cbn in *; try done.
  - by apply keyed_and_insert.
  - destruct Hl as [-> Hu]. by apply keyed_and_insert.
Qed.

Lemma replay_ok (R : Task -> Prop) ls : forall ts,
  keyed_and R ts -> Forall (line_of R) ls -> keyed_and R (replay ts ls).
Proof.
  induction ls as [|l ls IH]; intros ts Hts Hls; [done|].
  apply Forall_cons in Hls as [Hl Hls].
  destruct l; cbn; try done; apply IH; try done;
    by apply (replay_line_ok R ts _ Hts Hl).
Qed.

(** What [NewStore] gives on a directory whose lines and snapshot are in
    order: whatever the I/O, a map in order. *)
Lemma NewStore_keeps (R : Task -> Prop) d plan s :
  dir_ok R d -> NewStore d plan = (Some s, None) ->
  keyed_and R (tasks s) /\ dir s = d /\ writer_ok s.
Proof.
  intros [Hsnap Hwal]. unfold NewStore.
  destruct (next_io _) as [o1 s1] eqn:E1.
  apply next_io_frame in E1 as (Hd1 & Ht1 & Hf1 & Hw1). cbn in *.
  destruct o1; try done.
  assert (Hload : keyed_and R (tasks (loadSnapshotAndWal s1).1)
                  /\ dir (loadSnapshotAndWal s1).1 = d
                  /\ walWriter (loadSnapshotAndWal s1).1 = mkWriter [] None).
  { unfold loadSnapshotAndWal. rewrite Hd1.
    assert (Hinit : keyed_and R
              (tasks match snapshot_json d with
                     | SnapOk m => set_tasks m s1
                     | _ => s1
                     end)).
    { destruct (snapshot_json d); cbn in *; rewrite ?Ht1; try done;
        apply map_Forall_empty. }
    destruct (next_io _) as [o2 s2] eqn:E2.
    apply next_io_frame in E2 as (Hd2 & Ht2 & Hf2 & Hw2).
    assert (Hdir2 : dir s2 = d).
    { rewrite Hd2. by destruct (snapshot_json d); cbn. }
    assert (Hwr2 : walWriter s2 = mkWriter [] None).
    { rewrite Hw2. by destruct (snapshot_json d); cbn. }
    rewrite <- Ht2 in Hinit.
    destruct o2; cbn; try done.
    rewrite Hdir2. split; [|done]. by apply replay_ok. }
  destruct (loadSnapshotAndWal s1) as [s2 e2] eqn:E2. cbn in Hload.
  destruct Hload as (Hk & Hd2 & Hw2).
  destruct e2; [done|].
  unfold openWal. destruct (next_io s2) as [o3 s3] eqn:E3.
  apply next_io_frame in E3 as (Hd3 & Ht3 & Hf3 & Hw3).
  destruct o3; try done. intros [= <-]. cbn.
  rewrite Ht3, Hd3. done.
Qed.

Lemma crash_wal_ok (P : walLine -> Prop) old new w :
  P LTorn -> Forall P new -> crash_wal old new w -> Forall P w.
Proof.
  intros Htorn Hnew [mid _ [k ->] | mid l _ [k ->]].
  - by apply Forall_app in Hnew as [? _].
  - apply Forall_app in Hnew as [Hmid _].
    apply Forall_app in Hmid as [Hmid _].
    apply Forall_app. split; [done | by repeat constructor].
Qed.

(** A task that a worker leaves behind is in order, if the task it took
    was and the item had an attempt to spare. *)
Lemma processed_good c n t0 idx it0 u :
  good c n t0 ->
  Items t0 !! idx = Some it0 ->
  (sane c n -> Attempts it0 <= bound c n - 1) ->
  processed t0 idx u -> good c n u.
Proof.
  intros [Hs0 Ha0] Hit0 Hspare [Hid Hlen Hoth Hatt Hsound].
  split; [done|]. intros Hsane.
  specialize (Ha0 Hsane). specialize (Hspare Hsane).
  apply Forall_lookup. intros j it Hj.
  destruct (decide (j = idx)) as [->|Hne].
  - pose proof (Forall_lookup_1 _ _ _ _ Ha0 Hit0) as Hb0. cbn in Hb0.
    unfold attempts_at in Hatt. rewrite Hit0, Hj in Hatt.
    destruct Hsane as [_ Hmax].
    destruct Hatt as [-> | ->]; [lia|].
    rewrite add64_exact; [lia|].
    unfold in_int, min_int, max_int in *. lia.
  - rewrite Hoth in Hj by done.
    exact (Forall_lookup_1 _ _ _ _ Ha0 Hj).
Qed.

Lemma requeue_reset_fields it :
  IStatus (requeue_reset it) = ItemStatusQueued
  /\ Attempts (requeue_reset it) = Attempts it.
Proof. done. Qed.

Lemma restart_item_fields it :
  Attempts (restart_item it) = Attempts it
  /\ (IStatus it = ItemStatusDone -> restart_item it = it)
  /\ (IStatus it <> ItemStatusDone ->
      IStatus (restart_item it) = ItemStatusQueued).
Proof.
  unfold restart_item. case_decide; repeat split; try done.
Qed.

Lemma all_done_lookup its j it :
  all_done its = true -> its !! j = Some it -> IStatus it = ItemStatusDone.
Proof.
  unfold all_done. rewrite forallb_forall. intros Hall Hj.
  apply list_elem_of_lookup_2, list_elem_of_In in Hj.
  specialize (Hall it Hj). by apply bool_decide_eq_true in Hall.
Qed.

Lemma all_done_intro its :
  (forall j it, its !! j = Some it -> IStatus it = ItemStatusDone) ->
  all_done its = true.
Proof.
  intros H. unfold all_done. apply forallb_forall. intros it Hin.
  apply list_elem_of_In, list_elem_of_lookup_1 in Hin as [j Hj].
  apply bool_decide_eq_true. by apply (H j).
Qed.

(** A task that [Start] writes is in order if the task it read was. *)
Lemma restarting_good c n t u : good c n t -> restarting t u -> good c n u.
Proof.
  intros [Hs Ha] (Hid & (i & Hlen & Hshape) & Hst). split.
  - intros Hc. destruct Hst as [Hst | [Hst _]]; [|congruence].
    rewrite Hst in Hc. specialize (Hs Hc).
    apply all_done_intro. intros j it Hj. rewrite Hshape in Hj.
    case_decide; [|by apply (all_done_lookup _ j it Hs)].
    destruct (Items t !! j) as [it0|] eqn:Hj0; [|done].
    cbn in Hj. injection Hj as <-.
    pose proof (all_done_lookup _ j it0 Hs Hj0) as Hd.
    destruct (restart_item_fields it0) as (_ & Hsame & _).
    by rewrite Hsame.
  - intros Hsane. specialize (Ha Hsane).
    apply Forall_lookup. intros j it Hj. rewrite Hshape in Hj.
    case_decide; [|exact (Forall_lookup_1 _ _ _ _ Ha Hj)].
    destruct (Items t !! j) as [it0|] eqn:Hj0; [|done].
    cbn in Hj. injection Hj as <-.
    destruct (restart_item_fields it0) as (-> & _).
    exact (Forall_lookup_1 _ _ _ _ Ha Hj0).
Qed.

Lemma ticket_ok_insert c n ts k t0 u idx qi :
  ts !! k = Some t0 ->
  (forall j, j <> idx -> Items u !! j = Items t0 !! j) ->
  qtok qi <> (k, Z.of_nat idx) ->
  ticket_ok c n ts qi -> ticket_ok c n (<[k := u]> ts) qi.
Proof.
  intros Hk Hoth Hne (t & it & Hget & Hpos & Hit & Hst & Hatt).
  destruct (decide (taskID qi = k)) as [Heq|Hnk].
  - exists u, it. subst k. rewrite lookup_insert_eq.
    rewrite Hk in Hget. injection Hget as <-.
    split; [done|]. split; [done|]. split; [|done].
    rewrite Hoth; [done|]. intros Hidx. apply Hne. unfold qtok.
    f_equal. rewrite <- Hidx. by rewrite Z2Nat.id.
  - exists t, it. by rewrite lookup_insert_ne.
Qed.

Lemma timer_ok_insert c ts k t0 u idx tm :
  ts !! k = Some t0 ->
  (forall j, j <> idx -> Items u !! j = Items t0 !! j) ->
  ttok tm <> (k, Z.of_nat idx) ->
  timer_ok c ts tm -> timer_ok c (<[k := u]> ts) tm.
Proof.
  intros Hk Hoth Hne (t & it & Hget & Hit & Hst & Hatt).
  destruct (decide (tm_task tm = k)) as [Heq|Hnk].
  - exists u, it. subst k. rewrite lookup_insert_eq.
    rewrite Hk in Hget. injection Hget as <-.
    split; [done|]. split; [|done].
    rewrite Hoth; [done|]. intros Hidx. apply Hne. unfold ttok.
    by rewrite Hidx.
  - exists t, it. by rewrite lookup_insert_ne.
Qed.

Lemma ticket_ok_fresh c n ts k t qi :
  ts !! k = None -> ticket_ok c n ts qi -> ticket_ok c n (<[k := t]> ts) qi.
Proof.
  intros Hk (t' & it & Hget & H). exists t', it.
  rewrite lookup_insert_ne; [done|]. intros Heq. rewrite Heq in Hk. congruence.
Qed.

Lemma timer_ok_fresh c ts k t tm :
  ts !! k = None -> timer_ok c ts tm -> timer_ok c (<[k := t]> ts) tm.
Proof.
  intros Hk (t' & it & Hget & H). exists t', it.
  rewrite lookup_insert_ne; [done|]. intros Heq. rewrite Heq in Hk. congruence.
Qed.

Lemma tokens_take_ticket m q1 qi q2 :
  queue m = q1 ++ qi :: q2 ->
  tokens m ≡ₚ qtok qi :: ((qtok <$> (q1 ++ q2)) ++ (ttok <$> timers m)).
Proof.
  intros Hq. unfold tokens. rewrite Hq, !fmap_app, fmap_cons.
  rewrite <- !app_assoc. cbn. by rewrite <- Permutation_middle.
Qed.

Lemma tokens_take_timer m t1 tm t2 :
  timers m = t1 ++ tm :: t2 ->
  tokens m ≡ₚ ttok tm :: ((qtok <$> queue m) ++ (ttok <$> (t1 ++ t2))).
Proof.
  intros Ht. unfold tokens. rewrite Ht, !fmap_app, fmap_cons.
  rewrite app_assoc, <- Permutation_middle. by rewrite <- app_assoc.
Qed.

(** What one iteration of a worker does, snapshot included. *)
Lemma worker_iteration_summary env qi m t0 it0 :
  tasks (store m) !! taskID qi = Some t0 ->
  0 <= itemIdx qi ->
  Items t0 !! Z.to_nat (itemIdx qi) = Some it0 ->
  let idx := Z.to_nat (itemIdx qi) in
  let m' := (worker_iteration env qi m).1 in
  exists u m1,
    mrel (processed t0 idx) (ID t0) m m1 u
    /\ processed t0 idx u
    /\ timer_added t0 idx u m m1
    /\ cfg m' = cfg m1 /\ queue m' = queue m1 /\ timers m' = timers m1
    /\ tasks (store m') = tasks (store m1)
    /\ state_wal (dir (store m')) = state_wal (dir (store m1))
    /\ walWriter (store m') = walWriter (store m1)
    /\ (snapshot_json (dir (store m')) = snapshot_json (dir (store m1))
        \/ snapshot_json (dir (store m')) = SnapOk (tasks (store m1))).
Proof.
  intros Hget Hpos Hit idx m'. subst m'.
  destruct (processQueueItem_summary env qi m t0 it0 Hget Hpos Hit)
    as (u & Hm & Hp & Ht).
  unfold worker_iteration.
  destruct (processQueueItem env qi m) as [m1 tr]. cbn [fst] in *.
  exists u, m1. do 3 (split; [done|]).
  destruct (_ && _); cbn [fst].
  - destruct (SaveSnapshot_frame
                (store (set_processedN (add64 (processedN m1) 1) m1)))
      as (H1 & H2 & H3 & H4 & H5).
    cbn in *. repeat split; done.
  - cbn. repeat split; auto.
Qed.

Lemma step_work_inv c n m plan env q1 qi q2 :
  up_inv c n m ->
  queue m = q1 ++ qi :: q2 ->
  up_inv c n (worker_iteration env qi
                (set_queue (q1 ++ q2) (with_io plan m))).1.
Proof.
  intros [Hn Hcfg Htasks Htok Hqueue Htimers Hwriter Hdisk] Hq.
  assert (Hqi : ticket_ok c n (tasks (store m)) qi).
  { rewrite Forall_forall in Hqueue. apply Hqueue. rewrite Hq.
    apply elem_of_app. right. left. }
  destruct Hqi as (t0 & it0 & Hget & Hpos & Hit & Hst & Hatt).
  destruct (Htasks _ _ Hget) as [Hkey Hgood0].
  set (m_in := set_queue (q1 ++ q2) (with_io plan m)).
  set (idx := Z.to_nat (itemIdx qi)) in *.
  destruct (worker_iteration_summary env qi m_in t0 it0 Hget Hpos Hit)
    as (u & m1 & (Hc1 & Hq1 & _ & Hw1 & Ht1) & Hp & Hta
        & Hc' & Hq' & Htm' & Htk' & Hwal' & Hwr' & Hsnap').
  fold idx in Hp, Hta, Hw1.
  set (m' := (worker_iteration env qi m_in).1) in *.
  cbn in Hc1, Hq1, Ht1.
  unfold timer_added in Hta.
  change (timers m_in) with (timers m) in Hta.
  change (cfg m_in) with (cfg m) in Hta.
  assert (Hgoodu : forall v, processed t0 idx v -> good c n v)
    by (intros v; by apply (processed_good c n t0 idx it0)).
  assert (Htoken : qtok qi = (ID t0, Z.of_nat idx)).
  { unfold qtok, idx. rewrite Hkey. f_equal. by rewrite Z2Nat.id. }
  rewrite (tokens_take_ticket m q1 qi q2 Hq) in Htok.
  apply NoDup_cons in Htok as [Hnotin Hrest].
  assert (Hq_ne : forall qj, qj ∈ q1 ++ q2 -> qtok qj <> (ID t0, Z.of_nat idx)).
  { intros qj Hqj Heq. apply Hnotin. rewrite Htoken, <- Heq.
    apply elem_of_app. left. apply list_elem_of_fmap. by exists qj. }
  assert (Ht_ne : forall tm, tm ∈ timers m -> ttok tm <> (ID t0, Z.of_nat idx)).
  { intros tm Htm Heq. apply Hnotin. rewrite Htoken, <- Heq.
    apply elem_of_app. right. apply list_elem_of_fmap. by exists tm. }
  assert (Hget0 : tasks (store m) !! ID t0 = Some t0) by (by rewrite Hkey).
  assert (Htimers_old :
    Forall (timer_ok c (<[ID t0 := u]> (tasks (store m)))) (timers m)).
  { apply Forall_forall. intros tm Htm.
    apply (timer_ok_insert c _ _ t0 u idx); [done | apply Hp | by apply Ht_ne |].
    rewrite Forall_forall in Htimers. by apply Htimers. }
  split.
  - done.
  - by rewrite Hc', Hc1.
  - rewrite Htk', Ht1. apply keyed_and_insert; [apply Hp | by apply Hgoodu | done].
  - unfold tokens. rewrite Hq', Hq1, Htm'.
    destruct Hta as [-> | (d & it' & -> & _)]; [done|].
    rewrite (fmap_app ttok (timers m)), app_assoc.
    apply NoDup_app. split; [done|]. split; [|apply NoDup_singleton].
    intros x Hx Hin. apply list_elem_of_fmap in Hin as (tm' & -> & Htm1).
    apply list_elem_of_singleton in Htm1 as ->.
    apply Hnotin. by rewrite Htoken.
  - rewrite Hq', Hq1, Htk', Ht1. apply Forall_forall. intros qj Hqj.
    apply (ticket_ok_insert c n _ _ t0 u idx);
      [done | apply Hp | by apply Hq_ne |].
    rewrite Forall_forall in Hqueue. apply Hqueue. rewrite Hq.
    apply elem_of_app in Hqj as [?|?]; apply elem_of_app; [by left|].
    right. by right.
  - rewrite Htm', Htk', Ht1.
    destruct Hta as [-> | (d & it' & -> & Hit' & Hst' & Hatt')]; [done|].
    apply Forall_app. split; [done|]. apply Forall_singleton.
    exists u, it'. cbn. rewrite lookup_insert_eq.
    split; [done|]. split; [done|]. split; [done|].
    cbn in Hatt'. by rewrite <- Hcfg.
  - unfold writer_ok. rewrite Hwr'.
    destruct Hw1 as [_ Hw1]. by destruct (Hw1 Hwriter) as [? _].
  - destruct Hw1 as [Hsnap1 Hw1].
    destruct (Hw1 Hwriter) as (_ & ls & Hls & Hlines).
    destruct Hdisk as [Hsnap Hwal]. split.
    + destruct Hsnap' as [-> | ->].
      * by rewrite Hsnap1.
      * cbn. rewrite Ht1.
        apply keyed_and_insert; [apply Hp | by apply Hgoodu | done].
    + rewrite Hwal', Hls. apply Forall_app. split; [done|].
      eapply Forall_impl; [exact Hlines|]. intros l.
      by apply line_of_mono.
Qed.

Lemma requeued_good c n t idx it :
  good c n t -> Items t !! idx = Some it ->
  IStatus it = ItemStatusError ->
  good c n (on_item idx (set_IStatus ItemStatusQueued) t).
Proof.
  intros [Hs Ha] Hit Herr. split.
  - intros Hc. cbn in Hc. specialize (Hs Hc).
    pose proof (all_done_lookup _ _ _ Hs Hit). congruence.
  - intros Hsane. specialize (Ha Hsane).
    apply Forall_lookup. intros j it' Hj. cbn in Hj.
    destruct (decide (j = idx)) as [->|Hne].
    + rewrite list_lookup_alter_eq, Hit in Hj. injection Hj as <-.
      exact (Forall_lookup_1 _ _ _ _ Ha Hit).
    + rewrite list_lookup_alter_ne in Hj by done.
      exact (Forall_lookup_1 _ _ _ _ Ha Hj).
Qed.

Lemma step_timer_inv c n m plan t1 tm t2 :
  up_inv c n m ->
  timers m = t1 ++ tm :: t2 ->
  up_inv c n (timer_fire tm (set_timers (t1 ++ t2) (with_io plan m))).
Proof.
  intros [Hn Hcfg Htasks Htok Hqueue Htimers Hwriter Hdisk] Htm.
  assert (Hok : timer_ok c (tasks (store m)) tm).
  { rewrite Forall_forall in Htimers. apply Htimers. rewrite Htm.
    apply elem_of_app. right. left. }
  destruct Hok as (t & it & Hget & Hit & Hst & Hatt).
  destruct (Htasks _ _ Hget) as [Hkey Hgood0].
  set (m_in := set_timers (t1 ++ t2) (with_io plan m)).
  set (idx := tm_item tm) in *.
  destruct (timer_fire_summary tm m_in t it Hget Hit)
    as (Hc' & Htm' & Hq' & Htk' & Hw').
  fold idx in Hq', Htk', Hw'.
  set (u := on_item idx (set_IStatus ItemStatusQueued) t) in *.
  set (m' := timer_fire tm m_in) in *.
  cbn in Hc', Htm', Hq', Htk'.
  assert (Hgoodu : good c n u) by (by apply (requeued_good c n t idx it)).
  assert (Hoth : forall j, j <> idx -> Items u !! j = Items t !! j).
  { intros j Hj. subst u. cbn. by rewrite list_lookup_alter_ne. }
  assert (Htoken : ttok tm = (ID t, Z.of_nat idx)).
  { unfold ttok. by rewrite Hkey. }
  rewrite (tokens_take_timer m t1 tm t2 Htm) in Htok.
  apply NoDup_cons in Htok as [Hnotin Hrest].
  assert (Hget0 : tasks (store m) !! ID t = Some t) by (by rewrite Hkey).
  split.
  - done.
  - by rewrite Hc'.
  - rewrite Htk'. by apply keyed_and_insert.
  - unfold tokens. rewrite Hq', Htm'.
    rewrite (fmap_app qtok (queue m)), <- app_assoc.
    change (qtok <$> [mkQueueItem (ID t) (Z.of_nat idx)])
      with [(ID t, Z.of_nat idx)].
    rewrite <- Htoken. cbn [app].
    rewrite <- Permutation_middle. by apply NoDup_cons.
  - rewrite Hq', Htk'. apply Forall_app. split.
    + apply Forall_forall. intros qj Hqj.
      apply (ticket_ok_insert c n _ _ t u idx); [done | done | |].
      * intros Heq. apply Hnotin. rewrite Htoken, <- Heq.
        apply elem_of_app. left. apply list_elem_of_fmap. by exists qj.
      * rewrite Forall_forall in Hqueue. by apply Hqueue.
    + apply Forall_singleton.
      exists u, (set_IStatus ItemStatusQueued it). cbn [taskID itemIdx].
      rewrite lookup_insert_eq, Nat2Z.id.
      split; [done|]. split; [lia|].
      split; [subst u; cbn; by rewrite list_lookup_alter_eq, Hit|].
      split; [done|]. intros _. cbn. unfold bound. lia.
  - rewrite Htm', Htk'. apply Forall_forall. intros tm' Htm1.
    apply (timer_ok_insert c _ _ t u idx); [done | done | |].
    + intros Heq. apply Hnotin. rewrite Htoken, <- Heq.
      apply elem_of_app. right. apply list_elem_of_fmap. by exists tm'.
    + rewrite Forall_forall in Htimers. apply Htimers. rewrite Htm.
      apply elem_of_app in Htm1 as [?|?]; apply elem_of_app; [by left|].
      right. by right.
  - destruct Hw' as [_ Hw']. by destruct (Hw' Hwriter) as [? _].
  - destruct Hw' as [Hsnap' Hw'].
    destruct (Hw' Hwriter) as (_ & ls & Hls & Hlines).
    destruct Hdisk as [Hsnap Hwal]. split; [by rewrite Hsnap'|].
    rewrite Hls. apply Forall_app. split; [done|].
    eapply Forall_impl; [exact Hlines|]. intros l.
    apply line_of_mono. by intros ? <-.
Qed.

Lemma step_snapshot_inv c n m plan :
  up_inv c n m ->
  up_inv c n (set_store (SaveSnapshot (store (with_io plan m))).1 m).
Proof.
  intros [Hn Hcfg Htasks Htok Hqueue Htimers Hwriter Hdisk].
  destruct (SaveSnapshot_frame (store (with_io plan m)))
    as (Ht & Hwal & Hwr & Hf & Hsnap).
  set (s' := (SaveSnapshot (store (with_io plan m))).1) in *.
  change (tasks (store (with_io plan m))) with (tasks (store m)) in *.
  change (dir (store (with_io plan m))) with (dir (store m)) in *.
  change (walWriter (store (with_io plan m))) with (walWriter (store m)) in *.
  split; cbn [cfg store queue timers set_store]; rewrite ?Ht; try done.
  - unfold writer_ok. by rewrite Hwr.
  - destruct Hdisk as [Hs Hw]. split; [|by rewrite Hwal].
    destruct Hsnap as [-> | ->]; done.
Qed.

Section ManagerInvariant.
Context {parser : URLParser}.

Lemma new_task_good c n rnd now urls :
  good c n (mkTask (NewID rnd) now TaskStatusPending (map new_item urls)).
Proof.
  split; [done|]. intros [Hmax _]. apply Forall_forall.
  intros it Hit. apply list_elem_of_fmap in Hit as (u & -> & _).
  cbn. unfold bound. lia.
Qed.

Lemma step_create_inv c n m plan rnd now urls :
  up_inv c n m ->
  tasks (store m) !! NewID rnd = None ->
  up_inv c n (CreateTask rnd now urls (with_io plan m)).1.
Proof.
  intros [Hn Hcfg Htasks Htok Hqueue Htimers Hwriter Hdisk] Hfresh.
  unfold CreateTask.
  set (t := mkTask (NewID rnd) now TaskStatusPending (map new_item urls)).
  pose proof (new_task_good c n rnd now urls) as Hgood. fold t in Hgood.
  pose proof (UpsertTask_tasks t (store (with_io plan m))) as Htk.
  pose proof (UpsertTask_writes (eq t) t (store (with_io plan m)) eq_refl)
    as [Hsnap' Hw'].
  destruct (Hw' Hwriter) as (Hwriter' & ls & Hls & Hlines).
  destruct (UpsertTask t (store (with_io plan m))) as [s1 err].
  cbn [fst] in *. cbn in Htk, Hsnap', Hls.
  assert (Hdisk' : dir_ok (good c n) (dir s1)).
  { destruct Hdisk as [Hsnap Hwal]. split; [by rewrite Hsnap'|].
    rewrite Hls. apply Forall_app. split; [done|].
    eapply Forall_impl; [exact Hlines|]. intros l.
    apply line_of_mono. by intros ? <-. }
  assert (Htasks' : keyed_and (good c n) (tasks s1)).
  { rewrite Htk. by apply keyed_and_insert. }
  assert (Hqueue' : Forall (ticket_ok c n (tasks s1)) (queue m)).
  { rewrite Htk. eapply Forall_impl; [exact Hqueue|].
    intros qi. by apply ticket_ok_fresh. }
  assert (Htimers' : Forall (timer_ok c (tasks s1)) (timers m)).
  { rewrite Htk. eapply Forall_impl; [exact Htimers|].
    intros tm. by apply timer_ok_fresh. }
  destruct err as [e|]; cbn [fst]; [by split|].
  split; cbn [cfg store queue timers set_store set_queue with_io];
    try done.
  - unfold tokens. cbn [queue timers set_queue set_store with_io].
    rewrite (fmap_app qtok (queue m)), <- app_assoc.
    rewrite (Permutation_app_swap_app (qtok <$> queue m)).
    apply NoDup_app. split.
    { apply NoDup_fmap_2_strong; [|apply tickets_NoDup].
      intros [k1 i1] [k2 i2] _ _ [= -> ->]. done. }
    split; [|exact Htok].
    intros x Hx Hold.
    apply list_elem_of_fmap in Hx as (qi & -> & Hqi).
    unfold tickets in Hqi. change (map ?f ?l) with (f <$> l) in Hqi.
    apply list_elem_of_fmap in Hqi as (i & -> & _).
    cbn in Hold. unfold tokens in Hold.
    apply elem_of_app in Hold as [Hold|Hold];
      apply list_elem_of_fmap in Hold as (y & Hy & Hin).
    + rewrite Forall_forall in Hqueue.
      destruct (Hqueue y Hin) as (t' & ? & Hget & _).
      injection Hy as Hy _. rewrite <- Hy in Hget. cbn in Hget. congruence.
    + rewrite Forall_forall in Htimers.
      destruct (Htimers y Hin) as (t' & ? & Hget & _).
      injection Hy as Hy _. rewrite <- Hy in Hget. cbn in Hget. congruence.
  - apply Forall_app. split; [done|].
    apply Forall_forall. intros qi Hqi.
    unfold tickets in Hqi. change (map ?f ?l) with (f <$> l) in Hqi.
    apply list_elem_of_fmap in Hqi as (i & -> & Hi).
    apply elem_of_seq in Hi. cbn in Hi. rewrite length_map in Hi.
    destruct (lookup_lt_is_Some_2 urls i ltac:(lia)) as [u Hu].
    exists t, (new_item u). cbn [taskID itemIdx].
    rewrite Htk, Nat2Z.id. change (ID t) with (NewID rnd).
    rewrite lookup_insert_eq.
    split; [done|]. split; [lia|].
    split.
    { cbn. change (map ?f ?l) with (f <$> l).
      by rewrite list_lookup_fmap, Hu. }
    split; [done|]. intros [Hmax _]. cbn. unfold bound. lia.
Qed.

End ManagerInvariant.

(** ** Start when the queue has room *)

Lemma requeue_items_returns t0 n : forall i t m,
  (i + n)%nat = length (Items t0) ->
  restarted_upto i t0 t ->
  (length (queue m) + length (List.filter (not_done_at t0) (seq i n))
   <= chanCap)%nat ->
  exists t' m', requeue_items (seq i n) t m = Returned (t', m').
Proof.
  induction n as [|n IH]; intros i t m Hlen Hshape Hroom; [by do 2 eexists|].
  cbn [seq requeue_items].
  assert (Hi : (i < length (Items t0))%nat) by lia.
  destruct (lookup_lt_is_Some_2 _ _ Hi) as [it Hit].
  rewrite (restarted_upto_lookup _ _ _ Hshape), Hit.
  cbn [seq List.filter] in Hroom. unfold not_done_at at 1 in Hroom.
  rewrite Hit in Hroom.
  destruct (decide (IStatus it <> ItemStatusDone)) as [Hnd|Hd].
  - rewrite bool_decide_eq_true_2 in Hroom by done. cbn [length] in Hroom.
    change (queue (update_task ?u m)) with (queue m).
    destruct (Nat.ltb_spec (length (queue m)) chanCap) as [_|?]; [|lia].
    apply IH; [lia | by apply (restarted_upto_reset i t0 t it) |].
    cbn [queue enqueue set_queue update_task set_store].
    rewrite length_app. cbn. lia.
  - rewrite bool_decide_eq_false_2 in Hroom by done.
    apply IH; [lia | | done].
    apply (restarted_upto_skip i t0 t it); [done | | done].
    by destruct (decide (IStatus it = ItemStatusDone)) as [|Hne];
      [|destruct Hd].
Qed.

Lemma Start_on_returns ts : forall m,
  NoDup (ID <$> ts) ->
  (forall t, t ∈ ts -> tasks (store m) !! ID t = Some t) ->
  (length (queue m) + length (concat (requeue_tickets <$> ts)) <= chanCap)%nat ->
  exists m', Start_on ts m = Returned m'.
Proof.
  induction ts as [|t ts IH]; intros m Hnd Hget Hroom; [by eexists|].
  cbn [Start_on]. cbn in Hnd. apply NoDup_cons in Hnd as [Hnotin Hnd].
  cbn in Hroom. rewrite length_app in Hroom.
  pose proof (requeue_task_spec t m (Hget t ltac:(left))) as Hone.
  assert (Hret : exists m1, requeue_task t m = Returned m1).
  { unfold requeue_task.
    destruct (requeue_items_returns t (length (Items t)) 0%nat t m eq_refl)
      as (t' & m1 & ->).
    - split; [done|]. intros j. by case_decide; [lia|].
    - unfold requeue_tickets in Hroom. rewrite length_fmap in Hroom. lia.
    - case_decide; by eexists. }
  destruct Hret as [m1 Hm1]. rewrite Hm1 in Hone |- *.
  destruct Hone as (Htasks & Hq & _).
  apply IH; [done | |].
  - intros t' Ht'. rewrite Htasks, lookup_insert_ne.
    + apply Hget. by right.
    + intros Heq. apply Hnotin. rewrite Heq.
      apply list_elem_of_fmap. by exists t'.
  - rewrite Hq, length_app. lia.
Qed.

(** ** Boot *)

Lemma NoDup_List_filter {A} (f : A -> bool) (l : list A) :
  NoDup l -> NoDup (List.filter f l).
Proof.
  induction 1 as [|x l Hx Hl IH]; cbn; [constructor|].
  destruct (f x); [|done]. constructor; [|done].
  intros Hin. apply Hx. apply list_elem_of_In in Hin.
  apply filter_In in Hin as [Hin _]. by apply list_elem_of_In.
Qed.

Lemma elem_of_concat {A} (x : A) (ls : list (list A)) :
  x ∈ concat ls -> exists l, x ∈ l /\ l ∈ ls.
Proof.
  intros Hx. apply list_elem_of_In, in_concat in Hx as (l & Hl & Hx).
  exists l. split; by apply list_elem_of_In.
Qed.

Lemma requeue_tickets_elem t qi :
  qi ∈ requeue_tickets t ->
  exists idx it,
    qi = mkQueueItem (ID t) (Z.of_nat idx)
    /\ Items t !! idx = Some it /\ IStatus it <> ItemStatusDone.
Proof.
  unfold requeue_tickets. intros Hqi.
  apply list_elem_of_fmap in Hqi as (idx & -> & Hidx).
  apply list_elem_of_In, filter_In in Hidx as [_ Hnd].
  unfold not_done_at in Hnd.
  destruct (Items t !! idx) as [it|] eqn:Hit; [|done].
  apply bool_decide_eq_true in Hnd. by exists idx, it.
Qed.

Lemma requeue_tickets_NoDup t : NoDup (qtok <$> requeue_tickets t).
Proof.
  unfold requeue_tickets. rewrite <- list_fmap_compose.
  apply NoDup_fmap_2; [|apply NoDup_List_filter, NoDup_seq].
  intros i j Hij. cbn in Hij. injection Hij as Hij. by apply Nat2Z.inj.
Qed.

Lemma requeue_all_NoDup ts :
  NoDup (ID <$> ts) -> NoDup (qtok <$> concat (requeue_tickets <$> ts)).
Proof.
  induction ts as [|t ts IH]; intros Hnd; [constructor|].
  cbn in Hnd. apply NoDup_cons in Hnd as [Hnotin Hnd].
  cbn. rewrite fmap_app. apply NoDup_app.
  split; [apply requeue_tickets_NoDup|]. split; [|by apply IH].
  intros x Hx Hin.
  apply list_elem_of_fmap in Hx as (qi & -> & Hqi).
  apply requeue_tickets_elem in Hqi as (idx & it & -> & _).
  apply list_elem_of_fmap in Hin as (qj & Heq & Hqj).
  apply elem_of_concat in Hqj as (l & Hqj & Hl).
  apply list_elem_of_fmap in Hl as (t' & -> & Ht').
  apply requeue_tickets_elem in Hqj as (idx' & it' & -> & _).
  injection Heq as Heq _. apply Hnotin. rewrite Heq.
  apply list_elem_of_fmap. by exists t'.
Qed.

Lemma ListTasks_facts (R : Task -> Prop) (tsk : gmap TaskID Task)
    (l : list Task) :
  keyed_and R tsk -> l ≡ₚ (map_to_list tsk).*2 ->
  NoDup (ID <$> l)
  /\ (forall t, t ∈ l -> tsk !! ID t = Some t)
  /\ (forall k t, tsk !! k = Some t -> t ∈ l).
Proof.
  intros Hk Hperm.
  assert (Hin : forall t, t ∈ l -> tsk !! ID t = Some t).
  { intros t Ht. rewrite Hperm in Ht.
    apply list_elem_of_fmap in Ht as ([k t'] & -> & Hkt).
    apply elem_of_map_to_list in Hkt. cbn.
    destruct (Hk _ _ Hkt) as [-> _]. done. }
  split; [|split; [done|]].
  - rewrite Hperm, <- list_fmap_compose.
    rewrite (Forall_fmap_ext_1 (ID ∘ snd) fst).
    + apply NoDup_fst_map_to_list.
    + apply Forall_forall. intros [k t] Hkt.
      apply elem_of_map_to_list in Hkt. cbn. by destruct (Hk _ _ Hkt).
  - intros k t Hkt. rewrite Hperm. apply list_elem_of_fmap.
    exists (k, t). split; [done|]. by apply elem_of_map_to_list.
Qed.

Lemma restarted_fields t :
  ID (restarted t) = ID t
  /\ Items (restarted t) = restart_item <$> Items t.
Proof. unfold restarted. by case_decide. Qed.

Lemma NewManager_fields c s :
  MaxRetryPerItem (cfg (NewManager c s)) = MaxRetryPerItem c
  /\ store (NewManager c s) = s
  /\ queue (NewManager c s) = []
  /\ timers (NewManager c s) = [].
Proof. unfold NewManager. by destruct (WorkerCount c <=? 0). Qed.

(** What [Start] makes of a task: the items that are not done are queued
    again with their message and their times cleared and their attempts
    kept, the others are left alone; the task becomes pending unless it
    is completed. *)
Lemma restarted_spec t :
  ID (restarted t) = ID t
  /\ CreatedAt (restarted t) = CreatedAt t
  /\ Status (restarted t)
     = (if decide (Status t = TaskStatusCompleted) then TaskStatusCompleted
        else TaskStatusPending)
  /\ length (Items (restarted t)) = length (Items t)
  /\ forall idx it, Items t !! idx = Some it ->
       Items (restarted t) !! idx
       = Some (if decide (IStatus it = ItemStatusDone) then it
               else mkItem (URL it) (FileName it) ItemStatusQueued
                           (Attempts it) "" (SizeExpected it)
                           (SizeDownloaded it) None None).
Proof.
  destruct (restarted_fields t) as [Hid Hit].
  split; [done|]. split; [unfold restarted; by case_decide|].
  split.
  { unfold restarted. repeat case_decide; cbn; congruence. }
  split; [by rewrite Hit, length_fmap|].
  intros idx it Hidx. rewrite Hit, list_lookup_fmap, Hidx. cbn.
  unfold restart_item. repeat case_decide; done.
Qed.

(** When the tickets fit the queue, [Start] returns, every task of the
    store is as [restarted] says, and the queue holds one ticket for each
    item that was not done and no other. *)
Lemma Start_requeues_when_room c s ts :
  keyed_and (fun _ => True) (tasks s) ->
  ts ≡ₚ ListTasks s ->
  (length (concat (requeue_tickets <$> ts)) <= chanCap)%nat ->
  exists m',
    Start_on ts (NewManager c s) = Returned m'
    /\ (forall k t, tasks s !! k = Some t ->
          tasks (store m') !! k = Some (restarted t))
    /\ queue m' = concat (requeue_tickets <$> ts)
    /\ NoDup (queue m')
    /\ (forall k t idx it, tasks s !! k = Some t -> Items t !! idx = Some it ->
          (IStatus it <> ItemStatusDone
           <-> mkQueueItem k (Z.of_nat idx) ∈ queue m')).
Proof.
  intros Hk Hperm Hroom.
  destruct (ListTasks_facts _ _ _ Hk Hperm) as (Hnd & Hin & Hall).
  destruct (NewManager_fields c s) as (_ & Hs0 & Hq0 & _).
  set (m0 := NewManager c s) in *.
  assert (Hin0 : forall t, t ∈ ts -> tasks (store m0) !! ID t = Some t).
  { intros t Ht. rewrite Hs0. by apply Hin. }
  destruct (Start_on_returns ts m0 Hnd Hin0) as [m' Hm'].
  { rewrite Hq0. cbn. lia. }
  pose proof (Start_on_spec ts m0 Hnd Hin0) as Hspec. rewrite Hm' in Hspec.
  destruct Hspec as (Hnew & _ & Hq & _).
  rewrite Hq0 in Hq. cbn [app] in Hq.
  exists m'. split; [done|]. split.
  { intros k t Hkt. destruct (Hk _ _ Hkt) as [<- _]. apply Hnew.
    by apply (Hall (ID t)). }
  split; [done|]. split.
  { rewrite Hq. apply (NoDup_fmap_1 qtok). by apply requeue_all_NoDup. }
  intros k t idx it Hkt Hit. destruct (Hk _ _ Hkt) as [<- _].
  rewrite Hq. split.
  - intros Hndone. apply list_elem_of_In, in_concat.
    exists (requeue_tickets t). split.
    + apply list_elem_of_In, list_elem_of_fmap. exists t.
      split; [done | by apply (Hall (ID t))].
    + apply list_elem_of_In. unfold requeue_tickets.
      apply list_elem_of_fmap. exists idx. split; [done|].
      apply list_elem_of_In, filter_In. split.
      * apply list_elem_of_In, elem_of_seq.
        apply lookup_lt_Some in Hit. lia.
      * unfold not_done_at. rewrite Hit. by apply bool_decide_eq_true.
  - intros Hqi. apply elem_of_concat in Hqi as (l & Hqi & Hl).
    apply list_elem_of_fmap in Hl as (t' & -> & Ht').
    apply requeue_tickets_elem in Hqi as (idx' & it' & Heq & Hit' & Hnd').
    injection Heq as Hid Hidx. apply Nat2Z.inj in Hidx. subst idx'.
    pose proof (Hin t' Ht') as Hget'. rewrite <- Hid, Hkt in Hget'.
    injection Hget' as <-. rewrite Hit in Hit'. by injection Hit' as <-.
Qed.

(** What a boot writes is in order, whether [Start] returns or blocks. *)
Lemma boot_writes c n d b :
  dir_ok (good c n) d -> boot c d b ->
  snapshot_json (dir (store (blocking_mgr b))) = snapshot_json d
  /\ exists ls, wal_of (blocking_mgr b) = state_wal d ++ ls
                /\ Forall (line_of (good c n)) ls.
Proof.
  intros Hd Hboot. destruct Hboot as [plan plan' s ts Hnew Hperm].
  destruct (NewStore_keeps _ _ _ _ Hd Hnew) as (Hk & Hdir & Hwr).
  destruct (ListTasks_facts _ _ _ Hk Hperm) as (Hnd & Hin & Hall).
  set (m0 := NewManager c (set_io plan' s)).
  destruct (NewManager_fields c (set_io plan' s)) as (_ & Hs0 & _ & _).
  fold m0 in Hs0.
  assert (Hin0 : forall t, t ∈ ts -> tasks (store m0) !! ID t = Some t).
  { intros t Ht. rewrite Hs0. cbn. by apply Hin. }
  pose proof (Start_on_spec ts m0 Hnd Hin0) as Hspec.
  assert (Hw : writes_only (fun u => exists t, t ∈ ts /\ restarting t u)
                 (store m0) (store (blocking_mgr (Start_on ts m0)))).
  { destruct (Start_on ts m0); cbn; [|by destruct Hspec].
    by destruct Hspec as (_ & _ & _ & _ & _ & ?). }
  destruct Hw as [Hsnap Hw].
  assert (Hwr0 : writer_ok (store m0)) by (rewrite Hs0; exact Hwr).
  destruct (Hw Hwr0) as (_ & ls & Hls & Hlines).
  rewrite Hs0 in Hsnap, Hls. cbn in Hsnap, Hls. rewrite Hdir in Hsnap, Hls.
  split; [done|]. exists ls. split; [done|].
  eapply Forall_impl; [exact Hlines|]. intros l.
  apply line_of_mono. intros u (t & Ht & Hu).
  apply (restarting_good c n t); [|done].
  destruct (Hk _ _ (Hin t Ht)) as [_ ?]. done.
Qed.

Lemma boot_inv c n d m :
  dir_ok (good c n) d -> boot c d (Returned m) -> up_inv c (S n) m.
Proof.
  intros Hd Hboot.
  destruct (boot_writes c n d _ Hd Hboot) as (Hsnap & ls & Hls & Hlines).
  cbn in Hsnap, Hls.
  inversion Hboot as [plan plan' s ts Hnew Hperm Hstart].
  destruct (NewStore_keeps _ _ _ _ Hd Hnew) as (Hk & Hdir & Hwr).
  destruct (ListTasks_facts _ _ _ Hk Hperm) as (Hnd & Hin & Hall).
  set (m0 := NewManager c (set_io plan' s)) in *.
  destruct (NewManager_fields c (set_io plan' s)) as (Hc0 & Hs0 & Hq0 & Ht0).
  fold m0 in Hc0, Hs0, Hq0, Ht0.
  assert (Hin0 : forall t, t ∈ ts -> tasks (store m0) !! ID t = Some t).
  { intros t Ht. rewrite Hs0. cbn. by apply Hin. }
  pose proof (Start_on_spec ts m0 Hnd Hin0) as Hspec.
  rewrite Hstart in Hspec.
  destruct Hspec as (Hnew_in & Hnew_out & Hq & Hc & Htm & Hw).
  assert (Hentry : forall k u, tasks (store m) !! k = Some u ->
            exists t, t ∈ ts /\ ID t = k /\ u = restarted t).
  { intros k u Hku.
    destruct (decide (k ∈ ID <$> ts)) as [Hk_in|Hk_out].
    - apply list_elem_of_fmap in Hk_in as (t & -> & Ht).
      rewrite (Hnew_in t Ht) in Hku. injection Hku as <-. by exists t.
    - rewrite (Hnew_out k Hk_out), Hs0 in Hku. cbn in Hku.
      pose proof (Hall _ _ Hku) as Hu. destruct (Hk _ _ Hku) as [Hid _].
      destruct Hk_out. apply list_elem_of_fmap. by exists u. }
  assert (Hgood_ts : forall t, t ∈ ts -> good c n t).
  { intros t Ht. by destruct (Hk _ _ (Hin t Ht)). }
  split.
  - lia.
  - by rewrite Hc.
  - intros k u Hku. destruct (Hentry k u Hku) as (t & Ht & <- & ->).
    split; [apply restarted_fields|].
    apply good_S. apply (restarting_good c n t); [by apply Hgood_ts|].
    apply restarting_restarted.
  - unfold tokens. rewrite Hq, Htm, Hq0, Ht0. cbn [app fmap list_fmap].
    rewrite app_nil_r. by apply requeue_all_NoDup.
  - rewrite Hq, Hq0. cbn [app]. apply Forall_forall. intros qi Hqi.
    apply elem_of_concat in Hqi as (l & Hqi & Hl).
    apply list_elem_of_fmap in Hl as (t & -> & Ht).
    apply requeue_tickets_elem in Hqi as (idx & it & -> & Hit & Hnd_it).
    exists (restarted t), (restart_item it). cbn [taskID itemIdx].
    rewrite Nat2Z.id.
    split; [by apply Hnew_in|]. split; [lia|].
    destruct (restarted_fields t) as [_ ->].
    split; [by rewrite list_lookup_fmap, Hit|].
    destruct (restart_item_fields it) as (Hatt & _ & Hst).
    split; [by apply Hst|]. intros Hsane.
    destruct (Hgood_ts t Ht) as [_ Ha].
    specialize (Ha (sane_S c n Hsane)).
    pose proof (Forall_lookup_1 _ _ _ _ Ha Hit) as Hb. cbn in Hb.
    rewrite Hatt. unfold bound in *. lia.
  - rewrite Htm, Ht0. constructor.
  - destruct Hw as [_ Hw]. apply Hw. rewrite Hs0. exact Hwr.
  - destruct Hd as [Hds Hdw]. split.
    + rewrite Hsnap. destruct (snapshot_json d); cbn in *; try done.
      apply (keyed_and_mono (good c n)); [apply good_S | done].
    + unfold wal_of in Hls. rewrite Hls. apply Forall_app. split.
      * eapply Forall_impl; [exact Hdw|]. intros l.
        apply line_of_mono, good_S.
      * eapply Forall_impl; [exact Hlines|]. intros l.
        apply line_of_mono, good_S.
Qed.

Section Reachable.
Context {parser : URLParser}.
Variable c : Config.

Lemma step_inv n m m' : up_inv c n m -> step m m' -> up_inv c n m'.
Proof.
  intros Hinv Hstep. destruct Hstep.
  - by apply step_create_inv.
  - by apply step_work_inv.
  - by apply step_timer_inv.
  - by apply step_snapshot_inv.
Qed.

(** The invariant holds in every reachable world. *)
Lemma reachable_inv n w : reachable c n w -> world_inv c n w.
Proof.
  induction 1 as [ | n d m Hreach IH Hboot | n d b w Hreach IH Hboot Hcrash
                   | n m m' Hreach IH Hstep | n m m' w Hreach IH Hstep Hcrash ].
  - split; [done | constructor].
  - by apply (boot_inv c n d).
  - cbn in *. destruct (boot_writes c n d b IH Hboot) as (_ & ls & Hls & Hl).
    destruct IH as [Hs Hw]. split; [done|]. cbn.
    apply (crash_wal_ok _ (state_wal d) (wal_of (blocking_mgr b)));
      [done | | done].
    rewrite Hls. by apply Forall_app.
  - by apply (step_inv n m).
  - cbn in *. pose proof (step_inv n m m' IH Hstep) as Hinv'.
    split; [by destruct IH as [_ _ _ _ _ _ _ [? _]]|]. cbn.
    apply (crash_wal_ok _ (wal_of m) (wal_of m')); [done | | done].
    by destruct Hinv' as [_ _ _ _ _ _ _ [_ ?]].
Qed.

End Reachable.

(* ===================================================================== *)
(** * A run of the service, for the examples *)

Lemma ex_reach_m0 : @reachable example_parser ex_cfg 1 (Up ex_m0).
Proof.
  apply (reach_boot ex_cfg 0 ex_dir0); [apply reach_install|].
  change (Returned ex_m0)
    with (Start_on [] (NewManager ex_cfg (set_io [] ex_store0))).
  apply (boot_intro ex_cfg ex_dir0 []); [reflexivity|].
  unfold ListTasks. cbn. rewrite map_to_list_empty. constructor.
Qed.

Lemma ex_reach_m1 : @reachable example_parser ex_cfg 1 (Up ex_m1).
Proof.
  apply (reach_step ex_cfg 1 ex_m0); [apply ex_reach_m0|].
  apply (@step_create example_parser [] ex_rnd 0 [ex_url] ex_m0).
  vm_compute. reflexivity.
Qed.

Lemma ex_step_m2 : @step example_parser ex_m1 ex_m2.
Proof.
  apply (@step_work example_parser [] env_ok [] ex_ticket [] ex_m1).
  vm_compute. reflexivity.
Qed.

Lemma ex_reach_dir3 : @reachable example_parser ex_cfg 1 (Down ex_dir3).
Proof.
  apply (reach_crash ex_cfg 1 ex_m1 ex_m2); [apply ex_reach_m1 | apply ex_step_m2 |].
  apply crash_clean.
  - exists (drop 1 (take 3 (wal_of ex_m2))). vm_compute. reflexivity.
  - exists (drop 3 (wal_of ex_m2)). by rewrite take_drop.
Qed.

Lemma ex_reach_m4 : @reachable example_parser ex_cfg 2 (Up ex_m4).
Proof.
  apply (reach_boot ex_cfg 1 ex_dir3); [apply ex_reach_dir3|].
  assert (Hret : Start_on (ListTasks ex_store3)
                   (NewManager ex_cfg (set_io [] ex_store3))
                 = Returned ex_m4) by (vm_compute; reflexivity).
  rewrite <- Hret.
  apply (boot_intro ex_cfg ex_dir3 [] [] ex_store3); [|done].
  vm_compute. reflexivity.
Qed.

Lemma ex_reach_f2 : @reachable example_parser ex_cfg 1 (Up ex_f2).
Proof.
  apply (reach_step ex_cfg 1 ex_m1); [apply ex_reach_m1|].
  apply (@step_work example_parser [] env_500 [] ex_ticket [] ex_m1).
  vm_compute. reflexivity.
Qed.

Lemma ex_reach_fdir : @reachable example_parser ex_cfg 1 (Down ex_fdir).
Proof.
  apply (reach_crash ex_cfg 1 ex_f2
           (set_store (SaveSnapshot (store (with_io [IoErr] ex_f2))).1 ex_f2));
    [apply ex_reach_f2 | apply step_snapshot |].
  apply crash_clean; [done|]. exists []. vm_compute. reflexivity.
Qed.

Lemma ex_reach_f3 : @reachable example_parser ex_cfg 2 (Up ex_f3).
Proof.
  apply (reach_boot ex_cfg 1 ex_fdir); [apply ex_reach_fdir|].
  assert (Hret : Start_on (ListTasks ex_fstore)
                   (NewManager ex_cfg (set_io [] ex_fstore))
                 = Returned ex_f3) by (vm_compute; reflexivity).
  rewrite <- Hret.
  apply (boot_intro ex_cfg ex_fdir [] [] ex_fstore); [|done].
  vm_compute. reflexivity.
Qed.

Lemma ex_reach_f4 : @reachable example_parser ex_cfg 2 (Up ex_f4).
Proof.
  apply (reach_step ex_cfg 2 ex_f3); [apply ex_reach_f3|].
  apply (@step_work example_parser [] env_500 [] ex_ticket [] ex_f3).
  vm_compute. reflexivity.
Qed.

(* ===================================================================== *)
(** * Properties of the service *)

Lemma persisted_ok (R : Task -> Prop) d :
  dir_ok R d -> keyed_and R (persisted d).
Proof.
  intros [Hs Hw]. unfold persisted. apply replay_ok; [|done].
  destruct (snapshot_json d); cbn in *; try done; apply map_Forall_empty.
Qed.

(** The worker that finishes the last item marks the task completed. *)
Lemma finish_item_completes now t idx m :
  all_done (alter (fun it => set_ErrorMessage ""
                     (set_IStatus ItemStatusDone
                        (set_CompletedAt (Some now) it))) idx (Items t))
  = true ->
  exists u, tasks (store (finish_item now t idx m)) !! ID t = Some u
            /\ Status u = TaskStatusCompleted
            /\ all_done (Items u) = true.
Proof.
  intros Hall. unfold finish_item. cbn [Items on_item set_Items].
  rewrite Hall. eexists. split; [final_task; reflexivity|]. done.
Qed.

(** C1 (as stated, refuted).  A task with one URL is created and its
    download succeeds; the service dies between the record that marks the
    item done and the record that marks the task completed, and is
    started again.  [Start] finds no item to requeue and sets the task to
    [pending]: in memory and on disk the task has every item done and is
    not completed, with no ticket in flight that could change it. *)
Lemma completed_iff_all_done_counterexample :
  exists m t,
    @reachable example_parser ex_cfg 2 (Up m)
    /\ persisted (dir (store m)) !! ex_id = Some t
    /\ tasks (store m) !! ex_id = Some t
    /\ all_done (Items t) = true
    /\ Status t = TaskStatusPending
    /\ queue m = [] /\ timers m = [].
Proof.
  exists ex_m4. eexists. split; [apply ex_reach_m4|].
  vm_compute. repeat split; reflexivity.
Qed.

(** C1 (amended).  In every reachable world, running or stopped, crashed
    in the middle of an operation or not, restarted or not, a task of the
    persisted store (and of the map in memory) whose status is
    [completed] has every item [done].  The other direction is what the
    worker does when it finishes an item: if every item is then done it
    sets the task to [completed] and writes it. *)
Theorem completed_implies_all_done {parser : URLParser} (c : Config)
    (n : nat) (w : World) :
  reachable c n w ->
  (forall k t, persisted (dir_of w) !! k = Some t ->
     Status t = TaskStatusCompleted -> all_done (Items t) = true)
  /\ (forall m k t, w = Up m -> tasks (store m) !! k = Some t ->
        Status t = TaskStatusCompleted -> all_done (Items t) = true)
  /\ (forall now t idx m,
        all_done (Items (on_item idx
                           (fun it => set_ErrorMessage ""
                              (set_IStatus ItemStatusDone
                                 (set_CompletedAt (Some now) it))) t)) = true ->
        exists u, tasks (store (finish_item now t idx m)) !! ID t = Some u
                  /\ Status u = TaskStatusCompleted).
Proof.
  intros Hreach. pose proof (reachable_inv c n w Hreach) as Hinv.
  split; [|split].
  - intros k t Hkt.
    assert (Hdir : dir_ok (good c n) (dir_of w)).
    { destruct w; cbn in *; [done | by destruct Hinv]. }
    destruct (persisted_ok _ _ Hdir k t Hkt) as [_ [Hs _]]. exact Hs.
  - intros m k t -> Hkt. cbn in Hinv.
    destruct (ui_tasks _ _ _ Hinv k t Hkt) as [_ [Hs _]]. exact Hs.
  - intros now t idx m Hall.
    destruct (finish_item_completes now t idx m Hall) as (u & ? & ? & _).
    by exists u.
Qed.

Lemma completed_implies_all_done_witness :
  @reachable example_parser ex_cfg 1 (Up ex_m2)
  /\ persisted (dir (store ex_m2)) !! ex_id = Some ex_done
  /\ Status ex_done = TaskStatusCompleted
  /\ all_done (Items ex_done) = true.
Proof.
  assert (Hreach : @reachable example_parser ex_cfg 1 (Up ex_m2))
    by (apply (reach_step ex_cfg 1 ex_m1);
          [apply ex_reach_m1 | apply ex_step_m2]).
  assert (Hget : persisted (dir (store ex_m2)) !! ex_id = Some ex_done)
    by (vm_compute; reflexivity).
  split; [exact Hreach|]. split; [exact Hget|]. split; [reflexivity|].
  exact (proj1 (@completed_implies_all_done example_parser ex_cfg 1
                  (Up ex_m2) Hreach) ex_id ex_done Hget eq_refl).
Defined.

(** C4 (as stated, refuted).  With [MaxRetryPerItem = 0] an item fails
    once (one attempt, the budget is spent), the service is restarted,
    [Start] requeues the item with its counter, and it fails again: two
    attempts, above [MaxRetryPerItem + 1]. *)
Lemma attempts_bound_counterexample :
  exists m t it,
    @reachable example_parser ex_cfg 2 (Up m)
    /\ tasks (store m) !! ex_id = Some t
    /\ Items t !! 0%nat = Some it
    /\ Attempts it = 2
    /\ ~ Attempts it <= MaxRetryPerItem ex_cfg + 1.
Proof.
  exists ex_f4. do 2 eexists. split; [apply ex_reach_f4|].
  split; [vm_compute; reflexivity|]. split; [reflexivity|].
  split; [reflexivity|]. vm_compute. intros H. by apply H.
Qed.

(** C4 (amended).  Let the retry budget be non-negative (and the bound
    below fit an [int]).  In every reachable world in which the service
    has been restarted [r] times, every item, in memory and in the
    persisted store, has [attempts <= MaxRetryPerItem + 1 + r]; with no
    restart this is [attempts <= MaxRetryPerItem + 1]. *)
Theorem attempts_bounded_by_restarts {parser : URLParser} (c : Config)
    (r : nat) (w : World) :
  0 <= MaxRetryPerItem c ->
  MaxRetryPerItem c + 1 + Z.of_nat r <= max_int ->
  reachable c (S r) w ->
  (forall k t it, persisted (dir_of w) !! k = Some t -> it ∈ Items t ->
     0 <= Attempts it <= MaxRetryPerItem c + 1 + Z.of_nat r)
  /\ (forall m k t it, w = Up m -> tasks (store m) !! k = Some t ->
        it ∈ Items t ->
        0 <= Attempts it <= MaxRetryPerItem c + 1 + Z.of_nat r).
Proof.
  intros Hmax Hfit Hreach.
  pose proof (reachable_inv c (S r) w Hreach) as Hinv.
  assert (Hsane : sane c (S r)) by (unfold sane, bound; lia).
  assert (Hbound : bound c (S r) = MaxRetryPerItem c + 1 + Z.of_nat r)
    by (unfold bound; lia).
  assert (Huse : forall t it, good c (S r) t -> it ∈ Items t ->
            0 <= Attempts it <= MaxRetryPerItem c + 1 + Z.of_nat r).
  { intros t it [_ Ha] Hit. specialize (Ha Hsane).
    unfold attempts_below in Ha. rewrite Forall_forall in Ha.
    rewrite <- Hbound. by apply Ha. }
  split.
  - intros k t it Hkt Hit.
    assert (Hdir : dir_ok (good c (S r)) (dir_of w)).
    { destruct w; cbn in *; [done | by destruct Hinv]. }
    destruct (persisted_ok _ _ Hdir k t Hkt) as [_ Hg]. by apply (Huse t).
  - intros m k t it -> Hkt Hit. cbn in Hinv.
    destruct (ui_tasks _ _ _ Hinv k t Hkt) as [_ Hg]. by apply (Huse t).
Qed.

Lemma attempts_bounded_by_restarts_witness :
  0 <= MaxRetryPerItem ex_cfg
  /\ MaxRetryPerItem ex_cfg + 1 + Z.of_nat 1 <= max_int
  /\ @reachable example_parser ex_cfg 2 (Up ex_f4)
  /\ tasks (store ex_f4) !! ex_id = Some ex_failed
  /\ 0 <= Attempts ex_failed_item <= MaxRetryPerItem ex_cfg + 1 + Z.of_nat 1.
Proof.
  assert (H0 : 0 <= MaxRetryPerItem ex_cfg) by (vm_compute; discriminate).
  assert (H1 : MaxRetryPerItem ex_cfg + 1 + Z.of_nat 1 <= max_int)
    by (vm_compute; discriminate).
  assert (Hget : tasks (store ex_f4) !! ex_id = Some ex_failed)
    by (vm_compute; reflexivity).
  split; [exact H0|]. split; [exact H1|]. split; [apply ex_reach_f4|].
  split; [exact Hget|].
  apply (proj2 (@attempts_bounded_by_restarts example_parser ex_cfg 1
                  (Up ex_f4) H0 H1 ex_reach_f4)
           ex_f4 ex_id ex_failed ex_failed_item eq_refl Hget).
  left.
Defined.

(* ===================================================================== *)
(** * Start with more unfinished items than the queue holds *)

(** C3 (the code departs from the claim).  With 1026 items that are not
    done, [Start] does not return: it blocks on the send of the 1025th
    ticket, no worker being there to receive.  At that point 1024 tickets
    are buffered, the 1025th item has been reset to [queued] and written
    but has no ticket, the 1026th item is still in [error], and the task,
    which is not completed, has not been set to [pending]. *)
Theorem Start_blocks_when_queue_fills :
  blocked_with
    (fun m =>
       (length (queue m) =? 1024)%nat
       && bool_decide (item_status m "t" 1023 = Some ItemStatusQueued)
       && bool_decide (mkQueueItem "t" 1023 ∈ queue m)
       && bool_decide (item_status m "t" 1024 = Some ItemStatusQueued)
       && bool_decide (mkQueueItem "t" 1024 ∉ queue m)
       && bool_decide (item_status m "t" 1025 = Some ItemStatusError)
       && bool_decide (task_status m "t" = Some TaskStatusFailed))
    (Start (NewManager ex_cfg ex_big_store))
  = true.
Proof. vm_compute. reflexivity. Qed.

(* ===================================================================== *)
(** * The function-level properties at work on the example run *)

Lemma processQueueItem_drops_stale_ticket_witness :
  (GetTask (taskID ex_stale) (store ex_m1) = None
   \/ exists t, GetTask (taskID ex_stale) (store ex_m1) = Some t
                /\ (itemIdx ex_stale < 0
                    \/ Z.of_nat (length (Items t)) <= itemIdx ex_stale))
  /\ processQueueItem env_ok ex_stale ex_m1 = (ex_m1, []).
Proof.
  assert (H : GetTask (taskID ex_stale) (store ex_m1) = None
              \/ exists t, GetTask (taskID ex_stale) (store ex_m1) = Some t
                           /\ (itemIdx ex_stale < 0
                               \/ Z.of_nat (length (Items t))
                                  <= itemIdx ex_stale)).
  { right. exists ex_new. split; [vm_compute; reflexivity|].
    right. vm_compute. discriminate. }
  split; [exact H|].
  exact (processQueueItem_drops_stale_ticket env_ok ex_stale ex_m1 H).
Defined.

(* ===================================================================== *)
(** * The store under failures *)

Lemma run_op_tasks op s :
  tasks (run_op op s).1 = <[ID (op_task op) := op_task op]> (tasks s).
Proof. destruct op; [apply UpsertTask_tasks | apply UpdateTask_tasks]. Qed.

Lemma run_op_as_append op s :
  exists rec, is_torn rec = false
    /\ run_op op s
       = appendRecord rec
           (set_tasks (<[ID (op_task op) := op_task op]> (tasks s)) s).
Proof. destruct op as [t|t]; eexists; (split; [|reflexivity]); done. Qed.

(** A write refused by the writer: nothing reaches the file. *)
Lemma appendRecord_failed_writer rec s e :
  werr (walWriter s) = Some e -> appendRecord rec s = (s, Some e).
Proof.
  intros He. unfold appendRecord, writer_Write. by rewrite He.
Qed.

Lemma appendRecord_closed rec s :
  fclosed (walFile s) = true ->
  exists s' e, appendRecord rec s = (s', Some e)
               /\ dir s' = dir s /\ tasks s' = tasks s
               /\ walFile s' = walFile s /\ werr (walWriter s') <> None.
Proof.
  intros Hc. unfold appendRecord, writer_Write, writer_Flush.
  destruct (werr (walWriter s)) eqn:Ew; cbn.
  { exists s, s0. by rewrite Ew. }
  destruct (wbuf (walWriter s) ++ [rec]) as [|l0 data] eqn:Ed; cbn.
  { by destruct (wbuf (walWriter s)). }
  rewrite Hc. cbn. by eexists _, _.
Qed.

(** X1.  [UpsertTask] and [UpdateTask] put the task in the map before they
    write the record, and do not take it back when the write fails.  On a
    store whose writer is sound and whose file is open, a flush that fails
    (nothing written, or part of the record) makes the call return the
    error; the map holds the task all the same, a restart would load what
    it loaded before the call, and the writer is left failed. *)
Theorem failed_flush_is_not_rolled_back (op : StoreOp) (s : Store)
    (o : IoOutcome) (plan : list IoOutcome) :
  writer_ok s -> werr (walWriter s) = None -> fclosed (walFile s) = false ->
  io s = o :: plan -> o <> IoOk ->
  let r := run_op op s in
  r.2 = Some ErrIO
  /\ GetTask (ID (op_task op)) r.1 = Some (op_task op)
  /\ persisted (dir r.1) = persisted (dir s)
  /\ werr (walWriter r.1) = Some ErrIO.
Proof.
  intros Hok Hw Hc Hio Ho r. subst r.
  destruct (run_op_as_append op s) as (rec & Hrec & ->).
  set (s0 := set_tasks _ s).
  assert (Hbuf : wbuf (walWriter s) = []) by by apply Hok.
  unfold appendRecord, writer_Write, writer_Flush. cbn.
  rewrite Hw. cbn. rewrite Hbuf. cbn. rewrite Hc.
  unfold next_io. cbn. rewrite Hio. cbn.
  unfold GetTask.
  destruct o; [done| |]; cbn; rewrite lookup_insert_eq.
  - done.
  - repeat split; try done. unfold persisted. cbn.
    clear. generalize (load_snapshot (snapshot_json (dir s))).
    induction (state_wal (dir s)) as [|l ls IH]; intros m0; [done|].
    destruct l; cbn; auto.
Qed.

Lemma failed_flush_is_not_rolled_back_witness :
  exists r,
    r = run_op (OpUpsert (mkTask "b" 0 TaskStatusPending []))
          (set_io [IoShort] ex_quiet)
    /\ r.2 = Some ErrIO
    /\ GetTask "b" r.1 = Some (mkTask "b" 0 TaskStatusPending [])
    /\ persisted (dir r.1) = persisted (dir (set_io [IoShort] ex_quiet)).
Proof.
  eexists. split; [reflexivity|].
  assert (Hne : IoShort <> IoOk) by discriminate.
  assert (Hok : writer_ok (set_io [IoShort] ex_quiet)) by (intros _; reflexivity).
  destruct (failed_flush_is_not_rolled_back
              (OpUpsert (mkTask "b" 0 TaskStatusPending []))
              (set_io [IoShort] ex_quiet) IoShort [] Hok eq_refl eq_refl
              eq_refl Hne) as (H1 & H2 & H3 & _).
  split; [exact H1|]. split; [exact H2|]. exact H3.
Defined.

(** X2.  Once the [bufio.Writer] of the log has failed, it stays failed:
    every later [UpsertTask] and [UpdateTask] returns the same error and
    leaves the directory as it is, while the map goes on taking the tasks
    (the last writer of an id wins).  Memory and disk part until the
    service is restarted. *)
Theorem failed_writer_stays_failed (e : string) (ops : list StoreOp)
    (s : Store) :
  werr (walWriter s) = Some e ->
  let r := run_all ops s in
  dir r.1 = dir s
  /\ r.2 = repeat (Some e) (length ops)
  /\ tasks r.1 = last_written (tasks s) ops
  /\ werr (walWriter r.1) = Some e.
Proof.
  revert s. induction ops as [|op ops IH]; intros s He; [done|].
  cbn. destruct (run_op_as_append op s) as (rec & _ & Hrun).
  rewrite (appendRecord_failed_writer rec _ e) in Hrun by done.
  rewrite Hrun.
  specialize (IH (set_tasks (<[ID (op_task op) := op_task op]> (tasks s)) s) He).
  destruct (run_all ops _) as [s2 es]. cbn in IH |- *.
  destruct IH as (Hd & Hes & Ht & Hw). by rewrite Hes.
Qed.

Lemma failed_writer_stays_failed_witness :
  exists s,
    s = (run_op (OpUpsert sample_task) (set_io [IoErr] ex_quiet)).1
    /\ werr (walWriter s) = Some ErrIO
    /\ (run_all [OpUpdate sample_task; OpUpsert sample_task] s).2
       = [Some ErrIO; Some ErrIO]
    /\ dir (run_all [OpUpdate sample_task; OpUpsert sample_task] s).1 = dir s.
Proof.
  eexists. split; [reflexivity|].
  set (s := (run_op (OpUpsert sample_task) (set_io [IoErr] ex_quiet)).1).
  assert (He : werr (walWriter s) = Some ErrIO) by reflexivity.
  destruct (failed_writer_stays_failed ErrIO
              [OpUpdate sample_task; OpUpsert sample_task] s He)
    as (H1 & H2 & _).
  split; [exact He|]. split; [exact H2 | exact H1].
Defined.

(** X3.  After [Close], every [UpsertTask] and [UpdateTask] returns an
    error and adds nothing to the directory; the map is updated all the
    same. *)
Theorem write_after_Close_fails (s : Store) (ops : list StoreOp) :
  let s1 := (Close s).1 in
  let r := run_all ops s1 in
  dir r.1 = dir s1
  /\ Forall (fun x => x <> None) r.2
  /\ length r.2 = length ops
  /\ tasks r.1 = last_written (tasks s) ops.
Proof.
  intros s1 r. subst r.
  assert (Hc : fclosed (walFile s1) = true) by apply Close_closes.
  assert (Ht : tasks s1 = tasks s).
  { subst s1. unfold Close, writer_Flush, file_Close. store_cases; cbn; congruence. }
  rewrite <- Ht. clear Ht. generalize dependent s1. clear s.
  intros s1 Hc. revert s1 Hc.
  induction ops as [|op ops IH]; intros s Hc; [done|].
  cbn. destruct (run_op_as_append op s) as (rec & _ & Hrun).
  destruct (appendRecord_closed rec
              (set_tasks (<[ID (op_task op) := op_task op]> (tasks s)) s) Hc)
    as (s' & e & Happ & Hd & Hts & Hf & _).
  rewrite Hrun, Happ.
  assert (Hc' : fclosed (walFile s') = true) by (by rewrite Hf).
  specialize (IH s' Hc').
  destruct (run_all ops s') as [s2 es]. cbn in IH |- *.
  destruct IH as (Hd2 & Hes & Hlen & Ht2).
  rewrite Hd2, Hd, Ht2, Hts, Hlen. cbn. repeat split; try done.
  by constructor.
Qed.

(** ** Replaying a log over the map it gave *)

Lemma replay_lookup k ls : forall m,
  replay m ls !! k = last_write k ls (m !! k).
Proof.
  induction ls as [|l ls IH]; intros m; [done|].
  destruct l as [t|k' t| |]; cbn; rewrite ?IH; try done.
  - case_decide as Hk.
    + by rewrite Hk, lookup_insert_eq.
    + by rewrite lookup_insert_ne.
  - case_decide as Hk.
    + by rewrite Hk, lookup_insert_eq.
    + by rewrite lookup_insert_ne.
Qed.

Lemma last_write_idem k ls : forall cur,
  last_write k ls (last_write k ls cur) = last_write k ls cur.
Proof.
  induction ls as [|l ls IH]; intros cur; [done|].
  destruct l as [t|k' t| |]; cbn; [| |by apply IH|done];
    (case_decide; [done | apply IH]).
Qed.

Lemma replay_idem m ls : replay (replay m ls) ls = replay m ls.
Proof. apply map_eq. intros k. rewrite !replay_lookup. apply last_write_idem. Qed.

(** X4.  The end of [main] and the next start.  On a store whose map is
    what its directory holds, whose writer is empty and whose file is
    open, and with no failure of the disk: [SaveSnapshot] succeeds and
    leaves the log as it is (the log is never truncated), [Close]
    succeeds, and the [NewStore] of the next start loads the same map:
    replaying the whole log over the snapshot of the map it gave changes
    nothing. *)
Theorem snapshot_Close_restart (s : Store) :
  tasks s = persisted (dir s) -> walWriter s = mkWriter [] None ->
  fclosed (walFile s) = false -> io s = [] ->
  exists s1 s2 s3,
    SaveSnapshot s = (s1, None) /\ Close s1 = (s2, None)
    /\ state_wal (dir s2) = state_wal (dir s)
    /\ NewStore (dir s2) [] = (Some s3, None)
    /\ tasks s3 = tasks s.
Proof.
  intros Ht Hw Hc Hio.
  destruct s as [d ts f w plan]. cbn in *. subst w plan.
  destruct f as [c]. cbn in Hc. subst c.
  destruct (NewStore_ok (mkDir (SnapOk ts) (state_wal d)))
    as (s3 & Hnew & Hts & _).
  eexists _, _, s3. split; [reflexivity|]. split; [reflexivity|].
  split; [reflexivity|]. split; [exact Hnew|].
  rewrite Hts. unfold persisted. cbn. rewrite Ht at 1. unfold persisted.
  rewrite replay_idem. by rewrite Ht.
Qed.

Lemma snapshot_Close_restart_witness :
  exists s1 s2 s3,
    SaveSnapshot ex_quiet = (s1, None) /\ Close s1 = (s2, None)
    /\ state_wal (dir s2) = state_wal (dir ex_quiet)
    /\ NewStore (dir s2) [] = (Some s3, None)
    /\ tasks s3 = tasks ex_quiet.
Proof.
  apply (snapshot_Close_restart ex_quiet); reflexivity.
Defined.


(** ** Without failures, memory and disk stay in step *)

Lemma run_op_quiet op s :
  quiet s -> (run_op op s).2 = None /\ quiet (run_op op s).1.
Proof.
  intros (Hin & Hio & Hc).
  assert (Hrun : exists s1, run_op op s = (s1, None) /\ io s1 = []
                            /\ walFile s1 = walFile s).
  { destruct Hin as (_ & _ & Hw).
    destruct s as [d ts [c] w plan]. cbn in *. subst.
    destruct op; eexists; (split; [reflexivity|done]). }
  destruct Hrun as (s1 & Hrun & Hio1 & Hf1).
  destruct (run_op_in_step op s s1 Hin Hrun) as [Hin1 _].
  rewrite Hrun. cbn. split; [done|]. split; [done|]. split; [done|].
  by rewrite Hf1.
Qed.

Lemma update_task_quiet u m :
  quiet (store m) -> quiet (store (update_task u m)).
Proof. intros Hq. exact (proj2 (run_op_quiet (OpUpdate u) (store m) Hq)). Qed.












(* ===================================================================== *)
(** * Listing the tasks *)

Lemma elem_of_ListTasks s t :
  t ∈ ListTasks s <-> exists id, GetTask id s = Some t.
Proof.
  unfold ListTasks, GetTask. rewrite list_elem_of_fmap. split.
  - intros ([k u] & -> & Hin). apply elem_of_map_to_list in Hin. by exists k.
  - intros (k & Hk). exists (k, t). split; [done|].
    by apply elem_of_map_to_list.
Qed.

(** X7.  [ListTasks] returns the tasks that [GetTask] finds, one for each
    key of the map.  After [UpsertTask] or [UpdateTask] the task written
    is in the list; the list is one longer when the id was new and as
    long as before when it was there; the tasks held under the other ids
    stay. *)
Theorem ListTasks_after_write (op : StoreOp) (s : Store) :
  let s' := (run_op op s).1 in
  (forall t, t ∈ ListTasks s <-> exists id, GetTask id s = Some t)
  /\ length (ListTasks s) = size (tasks s)
  /\ op_task op ∈ ListTasks s'
  /\ length (ListTasks s')
     = match GetTask (ID (op_task op)) s with
       | Some _ => length (ListTasks s)
       | None => S (length (ListTasks s))
       end
  /\ (forall id t, GetTask id s = Some t -> id <> ID (op_task op) ->
        t ∈ ListTasks s').
Proof.
  intros s'.
  assert (Hlen : forall s0, length (ListTasks s0) = size (tasks s0)).
  { intros s0. unfold ListTasks.
    by rewrite length_fmap, length_map_to_list. }
  assert (Hts : tasks s' = <[ID (op_task op) := op_task op]> (tasks s))
    by apply run_op_tasks.
  split; [intros t; apply elem_of_ListTasks|]. split; [apply Hlen|].
  split; [|split].
  - apply elem_of_ListTasks. exists (ID (op_task op)).
    unfold GetTask. by rewrite Hts, lookup_insert_eq.
  - rewrite !Hlen, Hts, map_size_insert. unfold GetTask.
    by destruct (tasks s !! ID (op_task op)).
  - intros id t Hget Hne. apply elem_of_ListTasks. exists id.
    unfold GetTask in *. by rewrite Hts, lookup_insert_ne.
Qed.

(* ===================================================================== *)
(** * Outcomes of a download *)

Lemma sizes_only_id : sizes_only (fun it => it).
Proof. by intros []. Qed.

Lemma sizes_only_expected v : sizes_only (set_SizeExpected v).
Proof. by intros []. Qed.

Lemma sizes_only_downloaded v g :
  sizes_only g -> sizes_only (fun it => set_SizeDownloaded v (g it)).
Proof. intros Hg it. rewrite (Hg it). by destruct it. Qed.

Lemma on_item_on_item idx f g t :
  on_item idx f (on_item idx g t) = on_item idx (fun it => f (g it)) t.
Proof.
  unfold on_item, set_Items. cbn. f_equal.
  by rewrite list_alter_alter_eq.
Qed.

(** Where a ticket of the store leads: to [failItem] when the directory
    cannot be made, to [finish_item] when everything succeeds, to
    [retryOrFail] otherwise; on the way only the sizes were set. *)
Lemma processQueueItem_shape env qi m t :
  GetTask (taskID qi) (store m) = Some t ->
  0 <= itemIdx qi -> (Z.to_nat (itemIdx qi) < length (Items t))%nat ->
  let idx := Z.to_nat (itemIdx qi) in
  let t2 := started (now_start env) idx t in
  let m1 := update_task t2 m in
  let m' := (processQueueItem env qi m).1 in
  match mkdir_err env with
  | Some e => m' = failItem t2 idx ("mkdir: " +:+ e) m1
  | None =>
      exists g, sizes_only g
        /\ if succeeds env
           then m' = finish_item (now_done env) (on_item idx g t2) idx m1
           else exists cause,
                  m' = retryOrFail (on_item idx g t2) idx cause m1
  end.
Proof.
  intros Hget Hidx Hlen idx t2 m1 m'. subst m'.
  unfold processQueueItem. rewrite Hget.
  destruct (Z.ltb_spec (itemIdx qi) 0) as [?|_]; [lia|].
  destruct (Z.leb_spec (Z.of_nat (length (Items t))) (itemIdx qi)) as [?|_];
    [subst idx; lia|].
  cbn [orb]. fold idx. change (on_item idx _ (set_Status _ t)) with t2.
  fold m1. unfold succeeds.
  destruct (mkdir_err env) as [e|]; [done|].
  assert (Hid : forall u, u = on_item idx (fun it => it) u).
  { intros u. unfold on_item, set_Items. destruct u. cbn. f_equal.
    symmetry. apply list_alter_id. done. }
  destruct (newreq_err env) as [e|]; cbn [no_err andb fst].
  { exists (fun it => it). split; [apply sizes_only_id|].
    eexists. by rewrite <- Hid. }
  destruct (do_result env) as [e|resp].
  { exists (fun it => it). split; [apply sizes_only_id|].
    eexists. cbn. by rewrite <- Hid. }
  destruct (receive _ _ _ _ _ _ _ _) as [m2 tr] eqn:Erecv. cbn [fst].
  revert Erecv. unfold receive.
  destruct (Z.eqb (StatusCode resp) StatusOK
            || Z.eqb (StatusCode resp) StatusPartialContent) eqn:Est.
  2: { apply orb_false_elim in Est as [-> ->]. cbn. intros [= <- _].
       exists (fun it => it). split; [apply sizes_only_id|].
       eexists. by rewrite <- Hid. }
  replace (negb (StatusCode resp =? StatusOK)
           && negb (StatusCode resp =? StatusPartialContent)) with false
    by (rewrite <- negb_orb, Est; done).
  cbn [andb].
  set (so := match stat_size env with Some sz => sz | None => 0 end).
  set (g1 := if 0 <? ContentLength resp
             then set_SizeExpected (add64 so (ContentLength resp))
             else fun it => it).
  assert (Hg1 : sizes_only g1).
  { subst g1. case_match; [apply sizes_only_expected | apply sizes_only_id]. }
  assert (Ht1 : (if 0 <? ContentLength resp
                 then on_item idx (set_SizeExpected
                        (add64 so (ContentLength resp))) t2
                 else t2) = on_item idx g1 t2).
  { subst g1. case_match; [done | apply Hid]. }
  rewrite Ht1. clear Ht1.
  destruct (open_err env) as [e|]; cbn [no_err andb].
  { intros [= <- _]. exists g1. split; [done|]. by eexists. }
  destruct (seek_err env) as [e|]; cbn [no_err andb].
  { intros [= <- _]. exists g1. split; [done|]. by eexists. }
  rewrite on_item_on_item.
  set (g2 := fun it => set_SizeDownloaded (add64 so (copy_written env)) (g1 it)).
  assert (Hg2 : sizes_only g2) by (by apply sizes_only_downloaded).
  destruct (copy_err env) as [e|]; cbn [no_err andb].
  { intros [= <- _]. exists g2. split; [done|]. by eexists. }
  destruct (close_err env) as [e|]; cbn [no_err andb].
  { intros [= <- _]. exists g2. split; [done|]. by eexists. }
  destruct (rename_err env) as [e|]; cbn [no_err andb].
  { intros [= <- _]. exists g2. split; [done|]. by eexists. }
  intros [= <- _]. exists g2. by split.
Qed.

Lemma started_lookup now idx t it g :
  Items t !! idx = Some it ->
  Items (on_item idx g (started now idx t)) !! idx
  = Some (g (set_IStatus ItemStatusDownloading (set_StartedAt (Some now) it))).
Proof.
  intros Hit. unfold started. rewrite on_item_on_item. cbn.
  by rewrite list_lookup_alter_eq, Hit.
Qed.

Lemma on_item_other idx f t j :
  j <> idx -> Items (on_item idx f t) !! j = Items t !! j.
Proof. intros Hj. cbn. by rewrite list_lookup_alter_ne. Qed.

Lemma retryOrFail_result t idx cause m it :
  Items t !! idx = Some it ->
  let a' := add64 (Attempts it) 1 in
  let t1 := on_item idx (fail_fields cause) t in
  let m' := retryOrFail t idx cause m in
  cfg m' = cfg m /\ queue m' = queue m
  /\ exists t',
       tasks (store m') = <[ID t := t']> (tasks (store m))
       /\ Items t' = Items t1 /\ ID t' = ID t
       /\ if a' <=? MaxRetryPerItem (cfg m)
          then timers m'
               = timers m ++ [mkTimer (ID t) idx (mul64 (BaseBackoff (cfg m)) a')]
               /\ Status t' = Status t
          else timers m' = timers m
               /\ Status t' = (if existsb is_pending (Items t1)
                               then Status t else TaskStatusFailed).
Proof.
  intros Hit a' t1 m'. subst m'. unfold retryOrFail. fold t1.
  assert (Ha : attempts_at idx t1 = a').
  { subst t1. rewrite attempts_at_on_item, Hit. done. }
  rewrite Ha.
  destruct (a' <=? MaxRetryPerItem (cfg m)).
  { split; [done|]. split; [done|]. exists t1.
    rewrite store_set_timers, update_task_tasks. done. }
  destruct (existsb is_pending (Items t1)) eqn:Ep.
  { split; [done|]. split; [done|]. exists t1.
    by rewrite update_task_tasks. }
  split; [done|]. split; [done|]. exists (set_Status TaskStatusFailed t1).
  rewrite !update_task_tasks. cbn [ID set_Status].
  by rewrite insert_insert_eq.
Qed.

Lemma finish_item_result now t idx m :
  let t1 := on_item idx (done_fields now) t in
  let m' := finish_item now t idx m in
  cfg m' = cfg m /\ queue m' = queue m /\ timers m' = timers m
  /\ exists t',
       tasks (store m') = <[ID t := t']> (tasks (store m))
       /\ Items t' = Items t1 /\ ID t' = ID t
       /\ Status t' = (if all_done (Items t1) then TaskStatusCompleted
                       else Status t).
Proof.
  intros t1 m'. subst m'. unfold finish_item. fold (done_fields now). fold t1.
  destruct (all_done (Items t1)) eqn:Ea.
  - do 3 (split; [done|]). exists (set_Status TaskStatusCompleted t1).
    rewrite !update_task_tasks. cbn [ID set_Status].
    by rewrite insert_insert_eq.
  - do 3 (split; [done|]). exists t1. by rewrite update_task_tasks.
Qed.

Lemma sizes_only_fields g it :
  sizes_only g ->
  URL (g it) = URL it /\ FileName (g it) = FileName it
  /\ IStatus (g it) = IStatus it /\ Attempts (g it) = Attempts it
  /\ ErrorMessage (g it) = ErrorMessage it
  /\ StartedAt (g it) = StartedAt it /\ CompletedAt (g it) = CompletedAt it.
Proof. intros Hg. by rewrite (Hg it). Qed.

(** X8.  [processQueueItem] on a ticket of the store settles its item:
    whatever the world answers, the item ends [done] (every step
    succeeded) or [error] (one more attempt counted), never [queued] or
    [downloading]; [started_at] is the time of entry, [completed_at] is
    set on success only; URL and file name are kept, the other items are
    untouched, no ticket is sent; and the task is never left [pending]:
    it is [completed] exactly when the download succeeded and every item
    is done, and [failed] only after a failure. *)
Theorem processQueueItem_settles_item (env : DownloadEnv) (qi : queueItem)
    (m : Manager) (t : Task) (it : Item) :
  GetTask (taskID qi) (store m) = Some t ->
  0 <= itemIdx qi ->
  Items t !! Z.to_nat (itemIdx qi) = Some it ->
  let idx := Z.to_nat (itemIdx qi) in
  let m' := (processQueueItem env qi m).1 in
  queue m' = queue m
  /\ exists t' it',
       tasks (store m') !! ID t = Some t'
       /\ Items t' !! idx = Some it'
       /\ IStatus it'
          = (if succeeds env then ItemStatusDone else ItemStatusError)
       /\ Attempts it'
          = (if succeeds env then Attempts it else add64 (Attempts it) 1)
       /\ StartedAt it' = Some (now_start env)
       /\ CompletedAt it'
          = (if succeeds env then Some (now_done env) else CompletedAt it)
       /\ (succeeds env = true -> ErrorMessage it' = "")
       /\ URL it' = URL it /\ FileName it' = FileName it
       /\ length (Items t') = length (Items t)
       /\ (forall j, j <> idx -> Items t' !! j = Items t !! j)
       /\ Status t' <> TaskStatusPending
       /\ (Status t' = TaskStatusCompleted <->
           succeeds env = true /\ all_done (Items t') = true)
       /\ (Status t' = TaskStatusFailed -> succeeds env = false).
Proof.
  intros Hget Hidx Hit idx m'.
  change (Items t !! idx = Some it) in Hit.
  assert (Hlen : (idx < length (Items t))%nat)
    by (apply lookup_lt_Some in Hit; exact Hit).
  pose proof (processQueueItem_shape env qi m t Hget Hidx Hlen) as Hshape.
  cbn zeta in Hshape. fold idx m' in Hshape.
  set (now := now_start env) in *.
  set (it2 := set_IStatus ItemStatusDownloading (set_StartedAt (Some now) it)).
  assert (Hsucc_mk : forall e, mkdir_err env = Some e -> succeeds env = false).
  { intros e He. unfold succeeds. by rewrite He. }
  destruct (mkdir_err env) as [e|] eqn:Emk.
  { rewrite (Hsucc_mk e eq_refl). rewrite Hshape. unfold failItem.
    split; [done|].
    eexists _, _. split; [rewrite !update_task_tasks; apply lookup_insert_eq|].
    unfold started. rewrite on_item_on_item.
    cbn [Items on_item set_Items set_Status].
    rewrite list_lookup_alter_eq, Hit. cbn.
    do 8 (split; [done|]).
    split; [by rewrite !length_alter|].
    split; [intros j Hj; by rewrite !list_lookup_alter_ne|].
    repeat split; try done; by intros [? _]. }
  destruct Hshape as (g & Hg & Hshape).
  pose proof (started_lookup now idx t it g Hit) as Hit3. fold it2 in Hit3.
  destruct (sizes_only_fields g it2 Hg) as (Hu & Hf & Hs & Ha & He & Hst & Hco).
  set (t3 := on_item idx g (started now idx t)) in *.
  assert (Hoth : forall j, j <> idx -> Items t3 !! j = Items t !! j).
  { intros j Hj. subst t3. rewrite on_item_other by done.
    unfold started. by rewrite on_item_other. }
  assert (Hlen3 : length (Items t3) = length (Items t)).
  { subst t3. cbn. by rewrite !length_alter. }
  assert (Hid3 : ID t3 = ID t) by done.
  assert (Hst3 : Status t3 = TaskStatusRunning) by done.
  destruct (succeeds env) eqn:Esucc.
  - rewrite Hshape.
    destruct (finish_item_result (now_done env) t3 idx
                (update_task (started now idx t) m))
      as (_ & Hq & _ & t' & Htasks & Hitems & Hid & Hstatus).
    split; [by rewrite Hq|].
    exists t', (done_fields (now_done env) (g it2)).
    rewrite Htasks. change (ID t3) with (ID t).
    rewrite lookup_insert_eq, Hitems.
    cbn [Items on_item set_Items]. rewrite list_lookup_alter_eq, Hit3.
    split; [done|]. split; [done|]. cbn.
    do 3 (split; [done|]). split; [done|]. split; [done|].
    split; [done|]. split; [done|].
    split; [by rewrite length_alter|].
    split; [intros j Hj; rewrite list_lookup_alter_ne by done; by apply Hoth|].
    rewrite Hstatus, Hst3. cbn [Items on_item set_Items].
    destruct (all_done _); repeat split; try done; by intros [_ ?].
  - destruct Hshape as [cause Hshape]. rewrite Hshape.
    destruct (retryOrFail_result t3 idx cause
                (update_task (started now idx t) m) (g it2) Hit3)
      as (_ & Hq & t' & Htasks & Hitems & Hid & Hcase).
    split; [by rewrite Hq|].
    exists t', (fail_fields cause (g it2)).
    rewrite Htasks. change (ID t3) with (ID t).
    rewrite lookup_insert_eq, Hitems.
    cbn [Items on_item set_Items]. rewrite list_lookup_alter_eq, Hit3.
    split; [done|]. split; [done|]. cbn.
    split; [done|]. split; [by rewrite Ha|]. split; [done|].
    split; [done|]. split; [done|]. split; [done|]. split; [done|].
    split; [by rewrite length_alter|].
    split; [intros j Hj; rewrite list_lookup_alter_ne by done; by apply Hoth|].
    assert (Hs' : Status t' = TaskStatusRunning \/ Status t' = TaskStatusFailed).
    { destruct (_ <=? _); destruct Hcase as [_ ->]; [by left|].
      destruct (existsb _ _); [by left | by right]. }
    destruct Hs' as [-> | ->]; repeat split; try done; by intros [? _].
Qed.

Lemma processQueueItem_settles_item_witness :
  exists t' it',
    tasks (store (processQueueItem env_500 ex_ticket ex_m1).1) !! ex_id
    = Some t'
    /\ Items t' !! 0%nat = Some it'
    /\ IStatus it' = ItemStatusError /\ Attempts it' = 1.
Proof.
  assert (Hget : GetTask (taskID ex_ticket) (store ex_m1) = Some ex_new)
    by (vm_compute; reflexivity).
  assert (Hidx : 0 <= itemIdx ex_ticket) by (vm_compute; discriminate).
  assert (Hit : Items ex_new !! Z.to_nat (itemIdx ex_ticket) = Some ex_item_new)
    by reflexivity.
  destruct (processQueueItem_settles_item env_500 ex_ticket ex_m1 ex_new
              ex_item_new Hget Hidx Hit)
    as (_ & t' & it' & H1 & H2 & H3 & H4 & _).
  exists t', it'. split; [exact H1|]. split; [exact H2|].
  split; [exact H3 | exact H4].
Defined.

(** X9.  When the data directory cannot be made, the item goes to [error]
    with the message "mkdir: ..." and one more attempt, and that is all:
    whatever [MaxRetryPerItem] is, no retry is scheduled, no ticket is
    sent, no request goes out, and the task stays [running]. *)
Theorem mkdir_failure_is_not_retried (env : DownloadEnv) (qi : queueItem)
    (m : Manager) (t : Task) (it : Item) (e : string) :
  GetTask (taskID qi) (store m) = Some t ->
  0 <= itemIdx qi ->
  Items t !! Z.to_nat (itemIdx qi) = Some it ->
  mkdir_err env = Some e ->
  let idx := Z.to_nat (itemIdx qi) in
  let r := processQueueItem env qi m in
  r.2 = [FsMkdirAll (DataDir (cfg m))]
  /\ timers r.1 = timers m /\ queue r.1 = queue m
  /\ exists t' it',
       tasks (store r.1) !! ID t = Some t'
       /\ Items t' !! idx = Some it'
       /\ IStatus it' = ItemStatusError
       /\ ErrorMessage it' = "mkdir: " +:+ e
       /\ Attempts it' = add64 (Attempts it) 1
       /\ Status t' = TaskStatusRunning.
Proof.
  intros Hget Hidx Hit Hmk idx r. subst r.
  change (Items t !! idx = Some it) in Hit.
  assert (Hlen : (idx < length (Items t))%nat)
    by (apply lookup_lt_Some in Hit; exact Hit).
  unfold processQueueItem. rewrite Hget.
  destruct (Z.ltb_spec (itemIdx qi) 0) as [?|_]; [lia|].
  destruct (Z.leb_spec (Z.of_nat (length (Items t))) (itemIdx qi)) as [?|_];
    [subst idx; lia|].
  cbn [orb]. rewrite Hmk. fold idx. cbn [fst snd].
  split; [done|]. split; [done|]. split; [done|].
  unfold failItem. eexists _, _.
  split; [rewrite !update_task_tasks; apply lookup_insert_eq|].
  rewrite on_item_on_item. cbn [Items on_item set_Items set_Status].
  rewrite list_lookup_alter_eq, Hit. cbn. done.
Qed.

Lemma mkdir_failure_is_not_retried_witness :
  (processQueueItem env_mkdir_fails ex_ticket ex_m1).2 = [FsMkdirAll "data"]
  /\ timers (processQueueItem env_mkdir_fails ex_ticket ex_m1).1 = [].
Proof.
  assert (Hget : GetTask (taskID ex_ticket) (store ex_m1) = Some ex_new)
    by (vm_compute; reflexivity).
  assert (Hidx : 0 <= itemIdx ex_ticket) by (vm_compute; discriminate).
  assert (Hit : Items ex_new !! Z.to_nat (itemIdx ex_ticket) = Some ex_item_new)
    by reflexivity.
  destruct (mkdir_failure_is_not_retried env_mkdir_fails ex_ticket ex_m1
              ex_new ex_item_new "permission denied" Hget Hidx Hit eq_refl)
    as (H1 & H2 & _).
  split; [exact H1 | exact H2].
Defined.

(** The failed download of a ticket of the store, as [retryOrFail] leaves
    it. *)
Lemma failed_download_result env qi m t it :
  GetTask (taskID qi) (store m) = Some t ->
  0 <= itemIdx qi ->
  Items t !! Z.to_nat (itemIdx qi) = Some it ->
  mkdir_err env = None -> succeeds env = false ->
  let idx := Z.to_nat (itemIdx qi) in
  let a' := add64 (Attempts it) 1 in
  let m' := (processQueueItem env qi m).1 in
  cfg m' = cfg m /\ queue m' = queue m
  /\ exists t' it',
       tasks (store m') = <[ID t := t']> (tasks (store m))
       /\ ID t' = ID t
       /\ Items t' !! idx = Some it'
       /\ IStatus it' = ItemStatusError /\ Attempts it' = a'
       /\ (forall j, j <> idx -> Items t' !! j = Items t !! j)
       /\ if a' <=? MaxRetryPerItem (cfg m)
          then timers m'
               = timers m ++ [mkTimer (ID t) idx (mul64 (BaseBackoff (cfg m)) a')]
               /\ Status t' = TaskStatusRunning
          else timers m' = timers m
               /\ Status t' = (if existsb is_pending (Items t')
                               then TaskStatusRunning else TaskStatusFailed).
Proof.
  intros Hget Hidx Hit Hmk Hsucc idx a' m'.
  change (Items t !! idx = Some it) in Hit.
  assert (Hlen : (idx < length (Items t))%nat)
    by (apply lookup_lt_Some in Hit; exact Hit).
  pose proof (processQueueItem_shape env qi m t Hget Hidx Hlen) as Hshape.
  cbn zeta in Hshape. fold idx m' in Hshape.
  rewrite Hmk, Hsucc in Hshape. destruct Hshape as (g & Hg & cause & Hshape).
  set (now := now_start env) in *.
  set (it2 := set_IStatus ItemStatusDownloading (set_StartedAt (Some now) it)).
  pose proof (started_lookup now idx t it g Hit) as Hit3. fold it2 in Hit3.
  destruct (sizes_only_fields g it2 Hg) as (_ & _ & _ & Ha & _).
  set (t3 := on_item idx g (started now idx t)) in *.
  destruct (retryOrFail_result t3 idx cause
              (update_task (started now idx t) m) (g it2) Hit3)
    as (Hc & Hq & t' & Htasks & Hitems & Hid & Hcase).
  rewrite Hshape. split; [done|]. split; [done|].
  exists t', (fail_fields cause (g it2)).
  split.
  { rewrite Htasks, update_task_tasks. change (ID t3) with (ID t).
    change (ID (started now idx t)) with (ID t). by rewrite insert_insert_eq. }
  split; [done|]. rewrite Hitems. cbn [Items on_item set_Items].
  rewrite list_lookup_alter_eq, Hit3. split; [done|]. split; [done|].
  split; [cbn; by rewrite Ha|].
  split.
  { intros j Hj. rewrite list_lookup_alter_ne by done. subst t3.
    rewrite on_item_other by done. unfold started.
    by rewrite on_item_other. }
  cbn in Ha. rewrite Ha in Hcase. fold a' in Hcase.
  change (cfg (update_task (started now idx t) m)) with (cfg m) in Hcase.
  change (timers (update_task (started now idx t) m)) with (timers m) in Hcase.
  change (ID t3) with (ID t) in Hcase.
  change (Status t3) with TaskStatusRunning in Hcase.
  exact Hcase.
Qed.

(** X10.  A download that fails after the directory was made: with
    [a] the attempts counted so far plus one, a retry is scheduled
    exactly when [a <= MaxRetryPerItem], for the delay [BaseBackoff * a]
    (an [int64] product), and the task stays [running]; beyond the budget
    no retry is scheduled and the task becomes [failed] exactly when no
    item is [queued] or [downloading], and stays [running] otherwise. *)
Theorem failed_download_retry_schedule (env : DownloadEnv) (qi : queueItem)
    (m : Manager) (t : Task) (it : Item) :
  GetTask (taskID qi) (store m) = Some t ->
  0 <= itemIdx qi ->
  Items t !! Z.to_nat (itemIdx qi) = Some it ->
  mkdir_err env = None -> succeeds env = false ->
  let idx := Z.to_nat (itemIdx qi) in
  let a' := add64 (Attempts it) 1 in
  let m' := (processQueueItem env qi m).1 in
  queue m' = queue m
  /\ exists t',
       tasks (store m') !! ID t = Some t'
       /\ (a' <= MaxRetryPerItem (cfg m) ->
             timers m'
             = timers m ++ [mkTimer (ID t) idx (mul64 (BaseBackoff (cfg m)) a')]
             /\ Status t' = TaskStatusRunning)
       /\ (MaxRetryPerItem (cfg m) < a' ->
             timers m' = timers m
             /\ (Status t' = TaskStatusFailed <->
                 forall it'', it'' ∈ Items t' ->
                   IStatus it'' <> ItemStatusQueued
                   /\ IStatus it'' <> ItemStatusDownloading)
             /\ (Status t' <> TaskStatusFailed -> Status t' = TaskStatusRunning)).
Proof.
  intros Hget Hidx Hit Hmk Hsucc idx a' m'.
  destruct (failed_download_result env qi m t it Hget Hidx Hit Hmk Hsucc)
    as (_ & Hq & t' & it' & Htasks & _ & _ & _ & _ & _ & Hcase).
  fold idx a' m' in Hq, Htasks, Hcase.
  split; [done|]. exists t'. split; [by rewrite Htasks, lookup_insert_eq|].
  destruct (Z.leb_spec a' (MaxRetryPerItem (cfg m))) as [Hle|Hgt].
  { split; [done | intros; lia]. }
  split; [intros; lia|]. intros _. destruct Hcase as [Htm Hst].
  split; [done|]. rewrite Hst.
  destruct (existsb is_pending (Items t')) eqn:Ep.
  - split; [|done]. split; [done|]. intros Hall.
    apply existsb_exists in Ep as (x & Hx & Hp).
    apply list_elem_of_In in Hx. destruct (Hall x Hx) as [H1 H2].
    unfold is_pending in Hp. apply orb_prop in Hp as [Hp|Hp];
      apply bool_decide_eq_true_1 in Hp; done.
  - split; [|done]. split; [|done]. intros _ x Hx.
    apply list_elem_of_In in Hx.
    assert (Hnp : is_pending x = false).
    { destruct (is_pending x) eqn:Epx; [|done].
      assert (existsb is_pending (Items t') = true)
        by (apply existsb_exists; eauto).
      congruence. }
    unfold is_pending in Hnp. apply orb_false_elim in Hnp as [H1 H2].
    apply bool_decide_eq_false_1 in H1, H2. done.
Qed.

Lemma failed_download_retry_schedule_witness :
  mkdir_err env_500 = None /\ succeeds env_500 = false
  /\ MaxRetryPerItem (cfg ex_m1) < add64 (Attempts ex_item_new) 1
  /\ timers (processQueueItem env_500 ex_ticket ex_m1).1 = timers ex_m1.
Proof.
  assert (Hget : GetTask (taskID ex_ticket) (store ex_m1) = Some ex_new)
    by (vm_compute; reflexivity).
  assert (Hidx : 0 <= itemIdx ex_ticket) by (vm_compute; discriminate).
  assert (Hit : Items ex_new !! Z.to_nat (itemIdx ex_ticket) = Some ex_item_new)
    by reflexivity.
  assert (Hgt : MaxRetryPerItem (cfg ex_m1) < add64 (Attempts ex_item_new) 1)
    by (vm_compute; reflexivity).
  destruct (failed_download_retry_schedule env_500 ex_ticket ex_m1 ex_new
              ex_item_new Hget Hidx Hit eq_refl eq_refl)
    as (_ & t' & _ & _ & H3).
  split; [reflexivity|]. split; [reflexivity|]. split; [exact Hgt|].
  exact (proj1 (H3 Hgt)).
Defined.

(** X11.  From a failure within the budget to the next attempt: the
    timer that [retryOrFail] schedules, when it fires, puts the item back
    to [queued], keeping the attempts counted and the rest of the item,
    writes the task and sends the very ticket that had been processed. *)
Theorem retry_timer_sends_the_ticket_back (env : DownloadEnv)
    (qi : queueItem) (m : Manager) (t : Task) (it : Item) :
  GetTask (taskID qi) (store m) = Some t -> ID t = taskID qi ->
  0 <= itemIdx qi ->
  Items t !! Z.to_nat (itemIdx qi) = Some it ->
  mkdir_err env = None -> succeeds env = false ->
  add64 (Attempts it) 1 <= MaxRetryPerItem (cfg m) ->
  let idx := Z.to_nat (itemIdx qi) in
  let m1 := (processQueueItem env qi m).1 in
  exists tm,
    timers m1 = timers m ++ [tm]
    /\ tm_delay tm = mul64 (BaseBackoff (cfg m)) (add64 (Attempts it) 1)
    /\ let m2 := timer_fire tm (set_timers (timers m) m1) in
       queue m2 = queue m ++ [qi] /\ timers m2 = timers m
       /\ exists t1 it1 t2 it2,
            tasks (store m1) !! ID t = Some t1
            /\ Items t1 !! idx = Some it1
            /\ tasks (store m2) !! ID t = Some t2
            /\ Items t2 !! idx = Some it2
            /\ it2 = set_IStatus ItemStatusQueued it1
            /\ Attempts it2 = add64 (Attempts it) 1
            /\ Status t2 = TaskStatusRunning
            /\ (forall j, j <> idx -> Items t2 !! j = Items t !! j).
Proof.
  intros Hget Hkey Hidx Hit Hmk Hsucc Hle idx m1.
  destruct (failed_download_result env qi m t it Hget Hidx Hit Hmk Hsucc)
    as (_ & Hq & t' & it' & Htasks & Hid & Hit' & _ & Ha & Hoth & Hcase).
  fold idx m1 in Hq, Htasks, Hit', Hoth, Hcase.
  destruct (Z.leb_spec (add64 (Attempts it) 1) (MaxRetryPerItem (cfg m)))
    as [_|?]; [|lia].
  destruct Hcase as [Htm Hst].
  eexists. split; [exact Htm|]. split; [done|].
  set (tm := mkTimer _ _ _).
  assert (Hget1 : tasks (store (set_timers (timers m) m1)) !! tm_task tm
                  = Some t').
  { cbn. by rewrite Htasks, lookup_insert_eq. }
  destruct (timer_fire_summary tm (set_timers (timers m) m1) t' it' Hget1 Hit')
    as (_ & Htm2 & Hq2 & Htasks2 & _).
  cbn zeta. split.
  { rewrite Hq2. cbn. rewrite Hq, Hid, Hkey. subst idx.
    rewrite Z2Nat.id by done. by destruct qi. }
  split; [done|].
  eexists t', it', _, _.
  split; [by rewrite Htasks, lookup_insert_eq|]. split; [done|].
  split; [rewrite Htasks2, Hid; apply lookup_insert_eq|].
  cbn [Items on_item set_Items tm_item tm].
  rewrite list_lookup_alter_eq, Hit'. cbn.
  split; [done|]. split; [done|]. split; [done|]. split; [done|].
  intros j Hj. rewrite list_lookup_alter_ne by done. by apply Hoth.
Qed.

Lemma retry_timer_sends_the_ticket_back_witness :
  exists tm,
    timers (processQueueItem env_500 ex_ticket ex_r1).1 = [tm]
    /\ tm_delay tm = 500000000
    /\ queue (timer_fire tm
                (set_timers [] (processQueueItem env_500 ex_ticket ex_r1).1))
       = queue ex_r1 ++ [ex_ticket].
Proof.
  assert (Hget : GetTask (taskID ex_ticket) (store ex_r1) = Some ex_new)
    by (vm_compute; reflexivity).
  assert (Hidx : 0 <= itemIdx ex_ticket) by (vm_compute; discriminate).
  assert (Hit : Items ex_new !! Z.to_nat (itemIdx ex_ticket) = Some ex_item_new)
    by reflexivity.
  assert (Hle : add64 (Attempts ex_item_new) 1 <= MaxRetryPerItem (cfg ex_r1))
    by (vm_compute; discriminate).
  destruct (retry_timer_sends_the_ticket_back env_500 ex_ticket ex_r1 ex_new
              ex_item_new Hget eq_refl Hidx Hit eq_refl eq_refl Hle)
    as (tm & H1 & H2 & H3 & _).
  exists tm. split; [exact H1|]. split; [exact H2 | exact H3].
Defined.

(** ** When every download succeeds *)

Lemma worker_iteration_tasks env qi m :
  tasks (store (worker_iteration env qi m).1)
  = tasks (store (processQueueItem env qi m).1).
Proof.
  unfold worker_iteration. destruct (processQueueItem env qi m) as [m1 tr].
  case_match; [|done]. cbn.
  by destruct (SaveSnapshot_frame (store m1)) as [-> _].
Qed.

Lemma successful_download_result env qi m t :
  GetTask (taskID qi) (store m) = Some t ->
  0 <= itemIdx qi -> (Z.to_nat (itemIdx qi) < length (Items t))%nat ->
  succeeds env = true ->
  let idx := Z.to_nat (itemIdx qi) in
  let m' := (worker_iteration env qi m).1 in
  exists t',
    tasks (store m') = <[ID t := t']> (tasks (store m))
    /\ ID t' = ID t /\ length (Items t') = length (Items t)
    /\ (exists it', Items t' !! idx = Some it' /\ IStatus it' = ItemStatusDone)
    /\ (forall j, j <> idx -> Items t' !! j = Items t !! j)
    /\ (forall j it it', Items t !! j = Some it -> Items t' !! j = Some it' ->
          URL it' = URL it /\ FileName it' = FileName it
          /\ Attempts it' = Attempts it)
    /\ (Status t' = TaskStatusCompleted <-> all_done (Items t') = true).
Proof.
  intros Hget Hidx Hlen Hsucc idx m'. subst m'.
  rewrite worker_iteration_tasks.
  pose proof (processQueueItem_shape env qi m t Hget Hidx Hlen) as Hshape.
  cbn zeta in Hshape. fold idx in Hshape.
  assert (Hmk : mkdir_err env = None).
  { unfold succeeds in Hsucc. by destruct (mkdir_err env). }
  rewrite Hmk, Hsucc in Hshape. destruct Hshape as (g & Hg & ->).
  set (now := now_start env) in *.
  destruct (lookup_lt_is_Some_2 (Items t) idx Hlen) as [it Hit].
  set (it2 := set_IStatus ItemStatusDownloading (set_StartedAt (Some now) it)).
  pose proof (started_lookup now idx t it g Hit) as Hit3. fold it2 in Hit3.
  destruct (sizes_only_fields g it2 Hg) as (Hu & Hf & _ & Ha & _).
  set (t3 := on_item idx g (started now idx t)) in *.
  destruct (finish_item_result (now_done env) t3 idx
              (update_task (started now idx t) m))
    as (_ & _ & _ & t' & Htasks & Hitems & Hid & Hstatus).
  assert (Hoth : forall j, j <> idx -> Items t' !! j = Items t !! j).
  { intros j Hj. rewrite Hitems. rewrite on_item_other by done. subst t3.
    rewrite on_item_other by done. unfold started.
    by rewrite on_item_other. }
  assert (Hidx' : Items t' !! idx = Some (done_fields (now_done env) (g it2))).
  { rewrite Hitems. cbn [Items on_item set_Items].
    by rewrite list_lookup_alter_eq, Hit3. }
  exists t'. split.
  { rewrite Htasks, update_task_tasks. change (ID t3) with (ID t).
    change (ID (started now idx t)) with (ID t). by rewrite insert_insert_eq. }
  split; [done|].
  split; [rewrite Hitems; subst t3; cbn; by rewrite !length_alter|].
  split; [by eexists|]. split; [done|]. split.
  { intros j x x' Hx Hx'. destruct (decide (j = idx)) as [->|Hj].
    - rewrite Hidx' in Hx'. rewrite Hit in Hx. simplify_eq. cbn.
      by rewrite Hu, Hf, Ha.
    - rewrite Hoth in Hx' by done. by simplify_eq. }
  rewrite Hstatus, <- Hitems. change (Status t3) with TaskStatusRunning.
  by destruct (all_done (Items t')).
Qed.

Lemma run_workers_app l1 l2 m :
  run_workers (l1 ++ l2) m = run_workers l2 (run_workers l1 m).
Proof.
  revert m. induction l1 as [|[env qi] l1 IH]; intros m; [done|].
  cbn. apply IH.
Qed.

Lemma run_workers_succeed id t jobs : forall m,
  tasks (store m) !! id = Some t -> ID t = id ->
  (forall env qi, (env, qi) ∈ jobs ->
     succeeds env = true /\ taskID qi = id
     /\ 0 <= itemIdx qi < Z.of_nat (length (Items t))) ->
  exists t',
    tasks (store (run_workers jobs m)) !! id = Some t'
    /\ ID t' = id /\ length (Items t') = length (Items t)
    /\ (forall j it it', Items t !! j = Some it -> Items t' !! j = Some it' ->
          URL it' = URL it /\ FileName it' = FileName it
          /\ Attempts it' = Attempts it
          /\ (IStatus it = ItemStatusDone
              \/ (exists env, (env, mkQueueItem id (Z.of_nat j)) ∈ jobs) ->
              IStatus it' = ItemStatusDone))
    /\ (jobs <> [] ->
        (Status t' = TaskStatusCompleted <-> all_done (Items t') = true)).
Proof.
  induction jobs as [|[env qi] jobs IH] using rev_ind; intros m Hget Hid Hjobs.
  { exists t. split; [done|]. split; [done|]. split; [done|].
    split; [|done]. intros j it it' Hit Hit'. simplify_eq.
    do 3 (split; [done|]). intros [?|[? Hin]]; [done|].
    by apply elem_of_nil in Hin. }
  destruct (IH m Hget Hid) as (t1 & Hget1 & Hid1 & Hlen1 & Hitems1 & _).
  { intros env' qi' Hin. apply Hjobs. apply elem_of_app. by left. }
  destruct (Hjobs env qi) as (Hsucc & Hkey & Hlo & Hhi).
  { apply elem_of_app. right. by apply list_elem_of_singleton. }
  rewrite run_workers_app. cbn [run_workers].
  set (m1 := run_workers jobs m) in *.
  assert (Hget1' : GetTask (taskID qi) (store m1) = Some t1)
    by (by rewrite Hkey).
  assert (Hlt : (Z.to_nat (itemIdx qi) < length (Items t1))%nat)
    by (rewrite Hlen1; lia).
  destruct (successful_download_result env qi m1 t1 Hget1' Hlo Hlt Hsucc)
    as (t' & Htasks & Hid' & Hlen' & (it' & Hit' & Hdone) & Hoth & Hsame & Hst).
  exists t'. split; [by rewrite Htasks, Hid1, lookup_insert_eq|].
  split; [congruence|]. split; [congruence|]. split; [|done].
  intros j x x' Hx Hx'.
  assert (Hj : (j < length (Items t1))%nat).
  { rewrite Hlen1. by apply lookup_lt_Some in Hx. }
  destruct (lookup_lt_is_Some_2 _ _ Hj) as [x1 Hx1].
  destruct (Hitems1 j x x1 Hx Hx1) as (Hu & Hf & Ha & Hd).
  destruct (Hsame j x1 x' Hx1 Hx') as (Hu' & Hf' & Ha').
  split; [congruence|]. split; [congruence|]. split; [congruence|].
  intros Hcov. destruct (decide (j = Z.to_nat (itemIdx qi))) as [->|Hne].
  { rewrite Hit' in Hx'. by simplify_eq. }
  rewrite Hoth in Hx' by done. simplify_eq. apply Hd.
  destruct Hcov as [?|[env' Hin]]; [by left|]. right.
  apply elem_of_app in Hin as [Hin|Hin]; [by exists env'|].
  apply list_elem_of_singleton in Hin. simplify_eq. cbn in Hne. lia.
Qed.

(** X12.  When every download succeeds, the task is completed.  Let the
    workers take, one after the other and in any order, tickets of one
    task, at least one for every item that is not done (a ticket taken
    twice downloads twice), each download succeeding.  Then the task ends
    [completed] with every item [done], its items keeping their URL, file
    name and attempts. *)
Theorem all_downloads_succeed_completes (id : TaskID) (t : Task)
    (jobs : list (DownloadEnv * queueItem)) (m : Manager) :
  tasks (store m) !! id = Some t -> ID t = id -> jobs <> [] ->
  (forall env qi, (env, qi) ∈ jobs ->
     succeeds env = true /\ taskID qi = id
     /\ 0 <= itemIdx qi < Z.of_nat (length (Items t))) ->
  (forall idx it, Items t !! idx = Some it ->
     IStatus it = ItemStatusDone
     \/ exists env, (env, mkQueueItem id (Z.of_nat idx)) ∈ jobs) ->
  exists t',
    tasks (store (run_workers jobs m)) !! id = Some t'
    /\ Status t' = TaskStatusCompleted
    /\ all_done (Items t') = true
    /\ length (Items t') = length (Items t)
    /\ (forall j it it', Items t !! j = Some it -> Items t' !! j = Some it' ->
          URL it' = URL it /\ FileName it' = FileName it
          /\ Attempts it' = Attempts it).
Proof.
  intros Hget Hid Hne Hjobs Hcov.
  destruct (run_workers_succeed id t jobs m Hget Hid Hjobs)
    as (t' & Hget' & _ & Hlen & Hitems & Hst).
  assert (Hall : all_done (Items t') = true).
  { apply all_done_intro. intros j it' Hit'.
    assert (Hj : (j < length (Items t))%nat).
    { rewrite <- Hlen. by apply lookup_lt_Some in Hit'. }
    destruct (lookup_lt_is_Some_2 _ _ Hj) as [it Hit].
    destruct (Hitems j it it' Hit Hit') as (_ & _ & _ & Hd).
    apply Hd. by apply (Hcov j). }
  exists t'. split; [done|]. split; [by apply Hst|]. split; [done|].
  split; [done|]. intros j it it' Hit Hit'.
  destruct (Hitems j it it' Hit Hit') as (? & ? & ? & _). done.
Qed.

Lemma all_downloads_succeed_completes_witness :
  exists t',
    tasks (store (run_workers [(env_ok, ex_ticket)] ex_m1)) !! ex_id = Some t'
    /\ Status t' = TaskStatusCompleted.
Proof.
  assert (Hget : tasks (store ex_m1) !! ex_id = Some ex_new)
    by (vm_compute; reflexivity).
  assert (Hne : [(env_ok, ex_ticket)] <> []) by discriminate.
  assert (Hjobs : forall env qi, (env, qi) ∈ [(env_ok, ex_ticket)] ->
            succeeds env = true /\ taskID qi = ex_id
            /\ 0 <= itemIdx qi < Z.of_nat (length (Items ex_new))).
  { intros env qi Hin. apply list_elem_of_singleton in Hin.
    injection Hin as -> ->. split; [reflexivity|]. split; [reflexivity|].
    split; [discriminate | reflexivity]. }
  assert (Hcov : forall idx it, Items ex_new !! idx = Some it ->
            IStatus it = ItemStatusDone
            \/ exists env, (env, mkQueueItem ex_id (Z.of_nat idx))
                           ∈ [(env_ok, ex_ticket)]).
  { intros idx it Hit. right. exists env_ok.
    destruct idx as [|idx]; [|discriminate]. apply list_elem_of_here. }
  destruct (all_downloads_succeed_completes ex_id ex_new
              [(env_ok, ex_ticket)] ex_m1 Hget eq_refl Hne Hjobs Hcov)
    as (t' & H1 & H2 & _).
  exists t'. split; [exact H1 | exact H2].
Defined.

(* ===================================================================== *)
(** * The file name as a path component *)

Lemma chars_app a b :
  list_ascii_of_string (a +:+ b)
  = list_ascii_of_string a ++ list_ascii_of_string b.
Proof.
  induction a as [|c a IH]; [done|].
  change (String c a +:+ b) with (String c (a +:+ b)).
  cbn [list_ascii_of_string]. by rewrite IH.
Qed.

Lemma length_chars s : length (list_ascii_of_string s) = String.length s.
Proof. induction s as [|c s IH]; [done|]. cbn. by rewrite IH. Qed.

Lemma hex_char_not_separator c :
  is_hex_char c = true -> c <> slash /\ c <> dot.
Proof. intros Hc. split; intros ->; discriminate Hc. Qed.

Lemma ext_scan_shape r : forall seen,
  Forall (fun c => c <> dot /\ c <> slash) seen ->
  ext_scan r seen = []
  \/ exists rest, ext_scan r seen = dot :: rest
                  /\ Forall (fun c => c <> dot /\ c <> slash) rest.
Proof.
  induction r as [|c r IH]; intros seen Hseen; [by left|].
  cbn. destruct (Ascii.eqb_spec c slash) as [->|Hs]; [by left|].
  destruct (Ascii.eqb_spec c dot) as [->|Hd]; [right; by exists seen|].
  apply IH. by constructor.
Qed.

(** X13.  The file name that [DeriveDeterministicFileName] gives holds no
    [/]: joined to the data directory it names a file of that directory.
    It is 32 to 42 bytes long: the hash, alone or followed by a dot and at
    most nine bytes that are neither a dot nor a slash. *)
Theorem file_name_is_one_path_component {parser : URLParser} (u : string) :
  let name := DeriveDeterministicFileName u in
  (forall c, In c (list_ascii_of_string name) -> c <> slash)
  /\ (32 <= String.length name <= 42)%nat
  /\ exists ext,
       name = hash_name u +:+ ext
       /\ (ext = ""
           \/ exists rest,
                ext = String dot rest
                /\ forall c, In c (list_ascii_of_string rest) ->
                     c <> dot /\ c <> slash).
Proof.
  intros name.
  assert (Hhash : forall c, In c (list_ascii_of_string (hash_name u)) ->
                    c <> slash).
  { intros c Hc. pose proof (all_hex_EncodeToString
        (take 16 (sha256.Sum256 (bytes_of_string u)))) as Hall.
    unfold all_hex in Hall. rewrite forallb_forall in Hall.
    by destruct (hex_char_not_separator c (Hall c Hc)). }
  assert (Hext : exists ext,
            name = hash_name u +:+ ext
            /\ (String.length ext <= 10)%nat
            /\ (ext = ""
                \/ exists rest,
                     ext = String dot rest
                     /\ forall c, In c (list_ascii_of_string rest) ->
                          c <> dot /\ c <> slash)).
  { subst name. unfold DeriveDeterministicFileName.
    assert (Hbare : exists ext,
              hash_name u = hash_name u +:+ ext
              /\ (String.length ext <= 10)%nat
              /\ (ext = ""
                  \/ exists rest,
                       ext = String dot rest
                       /\ forall c, In c (list_ascii_of_string rest) ->
                            c <> dot /\ c <> slash)).
    { exists "". rewrite string_app_nil_r. cbn. split; [done|].
      split; [lia | by left]. }
    destruct (url_Parse_Path u) as [p|]; [|done].
    destruct (_ && negb (contains_qmark _)); [|done].
    destruct (0 <? _) eqn:H0; [|done].
    destruct (len _ <=? 10) eqn:H10; [|done]. cbn [andb].
    exists (path_Ext (path_Base p)). split; [done|].
    split; [apply Z.leb_le in H10; unfold len in H10; lia|].
    unfold path_Ext.
    destruct (ext_scan_shape (rev (list_ascii_of_string (path_Base p))) [])
      as [->|(rest & -> & Hrest)]; [by constructor | by left|].
    right. exists (string_of_list_ascii rest). split; [done|].
    intros c Hc. rewrite list_ascii_of_string_of_list_ascii in Hc.
    rewrite Forall_forall in Hrest. apply Hrest. by apply list_elem_of_In. }
  destruct Hext as (ext & Hname & Hlen & Hshape).
  split; [|split].
  - intros c Hc. rewrite Hname, chars_app in Hc.
    apply in_app_or in Hc as [Hc|Hc]; [by apply Hhash|].
    destruct Hshape as [->|(rest & -> & Hrest)]; [done|].
    destruct Hc as [<-|Hc]; [done|]. by destruct (Hrest c Hc).
  - rewrite Hname, <- length_chars, chars_app, length_app, !length_chars.
    rewrite length_hash_name. lia.
  - by exists ext.
Qed.

(* ===================================================================== *)
(** * Tickets and timers of a running service *)

(** X14.  In a running service that was reached from a fresh install
    (operations run one at a time, ids not repeated by the random source),
    no item has two tickets, two timers, or a ticket and a timer; every
    ticket in flight names an item of the store that is [queued], every
    pending timer an item that is in [error]; and every task is held
    under its own id, in memory and in what a restart would load. *)
Theorem tickets_are_unique_and_live {parser : URLParser} (c : Config)
    (n : nat) (m : Manager) :
  reachable c n (Up m) ->
  NoDup (tokens m)
  /\ (forall qi, qi ∈ queue m ->
        exists t it,
          GetTask (taskID qi) (store m) = Some t /\ ID t = taskID qi
          /\ 0 <= itemIdx qi
          /\ Items t !! Z.to_nat (itemIdx qi) = Some it
          /\ IStatus it = ItemStatusQueued)
  /\ (forall tm, tm ∈ timers m ->
        exists t it,
          GetTask (tm_task tm) (store m) = Some t /\ ID t = tm_task tm
          /\ Items t !! tm_item tm = Some it
          /\ IStatus it = ItemStatusError)
  /\ (forall k t, GetTask k (store m) = Some t -> ID t = k)
  /\ (forall k t, persisted (dir (store m)) !! k = Some t -> ID t = k).
Proof.
  intros Hreach. pose proof (reachable_inv c n (Up m) Hreach) as Hinv.
  cbn in Hinv. destruct Hinv as [_ _ Htasks Htok Hq Htm _ Hdisk].
  split; [done|]. split; [|split; [|split]].
  - intros qi Hin. rewrite Forall_forall in Hq.
    destruct (Hq qi Hin) as (t & it & Hget & H0 & Hit & Hst & _).
    exists t, it. destruct (Htasks _ _ Hget) as [Hid _]. done.
  - intros tm Hin. rewrite Forall_forall in Htm.
    destruct (Htm tm Hin) as (t & it & Hget & Hit & Hst & _).
    exists t, it. destruct (Htasks _ _ Hget) as [Hid _]. done.
  - intros k t Hget. by destruct (Htasks _ _ Hget).
  - intros k t Hget. by destruct (persisted_ok _ _ Hdisk k t Hget).
Qed.

Lemma tickets_are_unique_and_live_witness :
  NoDup (tokens ex_m1)
  /\ exists t it,
       GetTask (taskID ex_ticket) (store ex_m1) = Some t
       /\ ID t = taskID ex_ticket /\ 0 <= itemIdx ex_ticket
       /\ Items t !! Z.to_nat (itemIdx ex_ticket) = Some it
       /\ IStatus it = ItemStatusQueued.
Proof.
  destruct (@tickets_are_unique_and_live example_parser ex_cfg 1 ex_m1
              ex_reach_m1) as (H1 & H2 & _).
  split; [exact H1|]. apply H2. apply list_elem_of_here.
Defined.

(* ===================================================================== *)
(** * The configuration *)

(** The standard-library functions on examples: ASCII spaces, a
    no-break space (C2 A0), an em space (E2 80 83) and an ideographic
    space (E3 80 80) in UTF-8, and a lone byte A0, which is no valid
    encoding and so no space. *)
Example TrimSpace_examples :
  map strings.TrimSpace
    ["  a b  "; ""; "   "; "x";
     String "009"%char "k=v" +:+ String "013"%char "";
     String "194"%char (String "160"%char "a");
     "a" +:+ String "226"%char (String "128"%char (String "131"%char " "));
     String "160"%char "a ";
     String "227"%char (String "128"%char (String "128"%char "a"))]
  = ["a b"; ""; ""; "x"; "k=v"; "a"; "a"; String "160"%char "a"; "a"].
Proof. vm_compute. reflexivity. Qed.

Example Atoi_examples :
  map strconv.Atoi ["4"; "-1"; "+07"; ""; "-"; "4 "; "0x10"; "1_000";
                    "9223372036854775807"; "9223372036854775808";
                    "-9223372036854775808"; "-9223372036854775809"]
  = [Some 4; Some (-1); Some 7; None; None; None; None; None;
     Some 9223372036854775807; None; Some (-9223372036854775808); None].
Proof. vm_compute. reflexivity. Qed.

Example scan_lines_examples :
  map bufio.scan_lines
    ["a" +:+ nl +:+ "b"; "a" +:+ nl; ""; nl;
     "a" +:+ String "013"%char nl +:+ "b"]
  = [["a"; "b"]; ["a"]; []; [""]; ["a"; "b"]].
Proof. vm_compute. reflexivity. Qed.

Example Load_example :
  config.Load
    (Some (unlines ["# settings"; "PORT = 9090";
                    "DATA_DIR=" +:+ dquote +:+ "my data" +:+ dquote;
                    "WORKERS=abc"; "novalue"; "RETRY_MAX='5'"; "=x"]))
    {["PORT" := "1"; "RETRY_BACKOFF_MS" := "250"]}
  = ({["PORT" := "9090"; "RETRY_BACKOFF_MS" := "250"; "DATA_DIR" := "my data";
       "WORKERS" := "abc"; "RETRY_MAX" := "5"]},
     config.mkConfig "9090" "my data" "var/state" 4 5 250).
Proof. vm_compute. reflexivity. Qed.

(** ** Lines of the file *)

Lemma scan_space_plain c s :
  plain c = true -> strings.scan_space (c :: s) = strings.Stopped (c :: s).
Proof.
  unfold plain. intros Hc. apply andb_prop in Hc as [Ha Hs].
  cbn. apply Z.ltb_lt in Ha.
  destruct (Z.leb_spec utf8.RuneSelf (bv c)); [lia|].
  apply negb_true_iff in Hs. by rewrite Hs.
Qed.

Lemma TrimSpace_edges_plain s :
  edges_plain s = true -> strings.TrimSpace s = s.
Proof.
  unfold edges_plain, strings.TrimSpace, strings.trim_space.
  intros He. apply andb_prop in He as [H1 H2].
  destruct (list_ascii_of_string s) as [|c l] eqn:El; [done|].
  rewrite (scan_space_plain c l H1).
  destruct (rev (c :: l)) as [|c' l'] eqn:Er; [done|].
  rewrite (scan_space_plain c' l' H2), <- Er, rev_involutive, <- El.
  apply string_of_list_ascii_of_string.
Qed.

Lemma TrimSpace_empty : strings.TrimSpace "" = "".
Proof. reflexivity. Qed.

Lemma cut_eq_first k raw :
  existsb (fun c => bv c =? 61) k = false ->
  strings.cut_eq (k ++ "="%char :: raw) = Some (k, raw).
Proof.
  induction k as [|c k IH]; intros Hk; [done|].
  cbn in Hk. apply orb_false_elim in Hk as [Hc Hk].
  cbn. destruct (Ascii.eqb_spec c "="%char) as [->|_]; [done|].
  by rewrite IH.
Qed.

Lemma edges_plain_app_l k s :
  edges_plain k = true -> (s = "" \/ edges_plain s = true) ->
  edges_plain (k +:+ "=" +:+ s) = true.
Proof.
  unfold edges_plain. intros Hk Hs. apply andb_prop in Hk as [Hk1 Hk2].
  rewrite !chars_app. cbn [list_ascii_of_string app].
  destruct (list_ascii_of_string k) as [|c l] eqn:Ek; [done|].
  cbn [app]. rewrite Hk1. cbn [andb].
  change (c :: l ++ "="%char :: list_ascii_of_string s)
    with ((c :: l) ++ ["="%char] ++ list_ascii_of_string s).
  rewrite !rev_app_distr.
  destruct Hs as [->|Hs]; [done|].
  apply andb_prop in Hs as [_ Hs2].
  by destruct (rev (list_ascii_of_string s)).
Qed.

Lemma length_app_string a b :
  String.length (a +:+ b) = (String.length a + String.length b)%nat.
Proof. by rewrite <- !length_chars, chars_app, length_app. Qed.

Lemma substring_app_l v t :
  String.substring 0 (String.length v) (v +:+ t) = v.
Proof.
  induction v as [|c v IH]; [by destruct t|].
  change (String c v +:+ t) with (String c (v +:+ t)). cbn. by rewrite IH.
Qed.

Lemma get_app_r v c t :
  String.get (String.length v) (v +:+ String c t) = Some c.
Proof.
  induction v as [|d v IH]; [done|].
  change (String d v +:+ String c t) with (String d (v +:+ String c t)).
  cbn. exact IH.
Qed.

Lemma unquote_quoted (q : ascii) (v : string) :
  q = "034"%char \/ q = "'"%char ->
  config.unquote (String q (v +:+ String q "")) = v.
Proof.
  intros Hq. unfold config.unquote.
  assert (Hlen : String.length (String q (v +:+ String q ""))
                 = S (S (String.length v))).
  { cbn. rewrite length_app_string. cbn. lia. }
  rewrite Hlen. cbn [String.get Nat.leb Nat.sub].
  replace (String.length v - 0)%nat with (String.length v) by lia.
  rewrite get_app_r. cbn [andb String.substring].
  rewrite substring_app_l.
  destruct Hq as [-> | ->]; reflexivity.
Qed.

Lemma load_line_assignment (k raw : string) (env : gmap string string) :
  name_ok k = true -> (raw = "" \/ edges_plain raw = true) ->
  config.has_byte 0 (config.unquote raw) = false ->
  config.load_line (k +:+ "=" +:+ raw) env = <[k := config.unquote raw]> env
  /\ k <> "".
Proof.
  intros Hk Hraw Hnul. unfold name_ok in Hk.
  apply andb_prop in Hk as [Hk Hhash]. apply andb_prop in Hk as [Hk Hk0].
  apply andb_prop in Hk as [Hedge Hkeq].
  apply negb_true_iff in Hhash, Hk0, Hkeq.
  assert (Hne : k <> "").
  { intros ->. discriminate Hedge. }
  split; [|done].
  unfold config.load_line.
  rewrite (TrimSpace_edges_plain _ (edges_plain_app_l k raw Hedge Hraw)).
  assert (Hnot_empty : String.eqb (k +:+ "=" +:+ raw) "" = false).
  { destruct k; [done|]. reflexivity. }
  assert (Hnot_comment : strings.HasPrefix (k +:+ "=" +:+ raw) "#" = false).
  { revert Hhash. unfold strings.HasPrefix. rewrite chars_app.
    change ("=" +:+ raw) with (String "="%char raw).
    destruct (list_ascii_of_string k) as [|c l]; [done|].
    cbn. by destruct l. }
  rewrite Hnot_empty, Hnot_comment. cbn [orb].
  unfold strings.SplitN_eq_2. rewrite chars_app. cbn [list_ascii_of_string app].
  change (list_ascii_of_string k ++ list_ascii_of_string ("=" +:+ raw))
    with (list_ascii_of_string k ++ "="%char :: list_ascii_of_string raw).
  rewrite (cut_eq_first _ _ Hkeq), !string_of_list_ascii_of_string.
  rewrite (TrimSpace_edges_plain k Hedge).
  assert (Hraw' : strings.TrimSpace raw = raw).
  { destruct Hraw as [->|Hraw]; [done | by apply TrimSpace_edges_plain]. }
  rewrite Hraw'. unfold config.os_Setenv.
  assert (Hk_ne : String.eqb k "" = false) by (by apply String.eqb_neq).
  by rewrite Hk_ne, Hkeq, Hk0, Hnul.
Qed.

Lemma os_Getenv_insert k v (env : gmap string string) :
  k <> "" -> config.os_Getenv k (<[k := v]> env) = v.
Proof.
  intros Hk. unfold config.os_Getenv.
  apply String.eqb_neq in Hk. by rewrite Hk, lookup_insert_eq.
Qed.

(** X15.  A line [name=value] of [.env].  For a name that starts and ends
    with an ASCII byte that is no space, holds no [=] and no zero byte
    and does not start with [#], and a value that is empty or starts and
    ends with such a byte: the line sets the variable to the value, its
    quotes removed when it has the same quote at both ends, and leaves
    the other variables alone. *)
Theorem env_file_line_sets_variable (k raw : string)
    (env : gmap string string) :
  name_ok k = true -> (raw = "" \/ edges_plain raw = true) ->
  config.has_byte 0 (config.unquote raw) = false ->
  config.load_line (k +:+ "=" +:+ raw) env = <[k := config.unquote raw]> env
  /\ config.os_Getenv k (config.load_line (k +:+ "=" +:+ raw) env)
     = config.unquote raw
  /\ (forall k', k' <> k ->
        config.load_line (k +:+ "=" +:+ raw) env !! k' = env !! k')
  /\ (forall v, config.unquote (dquote +:+ v +:+ dquote) = v
                /\ config.unquote ("'" +:+ v +:+ "'") = v).
Proof.
  intros Hk Hraw Hnul.
  destruct (load_line_assignment k raw env Hk Hraw Hnul) as [Hload Hne].
  split; [done|]. split; [rewrite Hload; by apply os_Getenv_insert|].
  split; [intros k' Hk'; rewrite Hload; by apply lookup_insert_ne|].
  intros v. split.
  - apply (unquote_quoted "034"%char). by left.
  - apply (unquote_quoted "'"%char). by right.
Qed.

Lemma env_file_line_sets_variable_witness :
  config.os_Getenv "PORT"
    (config.load_line ("PORT" +:+ "=" +:+ "'9090'") {["PORT" := "1"]})
  = "9090".
Proof.
  assert (Hraw : "'9090'" = "" \/ edges_plain "'9090'" = true)
    by (right; reflexivity).
  exact (proj1 (proj2 (env_file_line_sets_variable "PORT" "'9090'"
                         {["PORT" := "1"]} eq_refl Hraw eq_refl))).
Defined.

(** ** The file, line by line *)

Lemma dropCR_no_CR l :
  match rev l with
  | c :: _ => negb (bv c =? 13)
  | [] => true
  end = true ->
  bufio.dropCR l = l.
Proof.
  unfold bufio.dropCR. destruct (rev l) as [|c r]; [done|].
  intros Hc. apply negb_true_iff in Hc. by rewrite Hc.
Qed.

Lemma scan_from_line l rest : forall cur,
  existsb (fun c => bv c =? 10) l = false ->
  bufio.scan_from cur (l ++ "010"%char :: rest)
  = if Z.of_nat (length cur + length l) <? bufio.MaxScanTokenSize
    then bufio.dropCR (rev cur ++ l) :: bufio.scan_from [] rest
    else [].
Proof.
  induction l as [|c l IH]; intros cur Hl.
  - cbn [app bufio.scan_from]. change (bv "010" =? 10) with true. cbn match.
    by rewrite Nat.add_0_r, app_nil_r.
  - cbn in Hl. apply orb_false_elim in Hl as [Hc Hl].
    cbn [app bufio.scan_from]. rewrite Hc, IH by done.
    cbn [length rev]. rewrite <- app_assoc. cbn [app].
    by replace (S (length cur) + length l)%nat
      with (length cur + S (length l))%nat by lia.
Qed.

Lemma scan_lines_unlines lines :
  forallb line_ok lines = true -> bufio.scan_lines (unlines lines) = lines.
Proof.
  induction lines as [|l lines IH]; intros Hok; [done|].
  cbn in Hok. apply andb_prop in Hok as [Hl Hok].
  unfold line_ok in Hl. apply andb_prop in Hl as [Hl Hcr].
  apply andb_prop in Hl as [Hlf Hlen]. apply negb_true_iff in Hlf.
  unfold bufio.scan_lines in *. cbn [unlines fold_right].
  rewrite chars_app. change (nl +:+ ?r) with (String "010"%char r).
  cbn [list_ascii_of_string].
  rewrite scan_from_line by done. cbn [length Nat.add rev app].
  rewrite length_chars, Hlen. cbn [fmap list_fmap].
  rewrite dropCR_no_CR by done.
  rewrite string_of_list_ascii_of_string. f_equal. by apply IH.
Qed.

(** X16.  The file wins over the environment, and its last line over the
    others: after [loadEnvFile] of a file whose last line is such a line
    [name=value], [os.Getenv] gives the value of that line, whatever the
    environment and the lines before held, and so does [getenv] when the
    value is not empty.  A file of lines that the scanner gives back as
    they are is applied line by line, in order; without a file the
    environment is left as it is. *)
Theorem env_file_overrides_environment (lines : list string)
    (k raw : string) (env : gmap string string) :
  forallb line_ok lines = true -> line_ok (k +:+ "=" +:+ raw) = true ->
  name_ok k = true -> (raw = "" \/ edges_plain raw = true) ->
  config.has_byte 0 (config.unquote raw) = false ->
  let env' := config.loadEnvFile
                (Some (unlines (lines ++ [k +:+ "=" +:+ raw]))) env in
  config.os_Getenv k env' = config.unquote raw
  /\ (forall def, config.unquote raw <> "" ->
        config.getenv k def env' = config.unquote raw)
  /\ config.loadEnvFile (Some (unlines lines)) env
     = fold_left (fun e text => config.load_line text e) lines env
  /\ config.loadEnvFile None env = env.
Proof.
  intros Hlines Hline Hk Hraw Hnul env'.
  assert (Hget : config.os_Getenv k env' = config.unquote raw).
  { subst env'. unfold config.loadEnvFile.
    rewrite scan_lines_unlines.
    2: { rewrite forallb_app, Hlines. cbn. by rewrite Hline. }
    rewrite fold_left_app. cbn [fold_left].
    destruct (load_line_assignment k raw
                (fold_left (fun e text => config.load_line text e) lines env)
                Hk Hraw Hnul) as [-> Hne].
    by apply os_Getenv_insert. }
  split; [done|]. split.
  { intros def Hne. unfold config.getenv. rewrite Hget.
    apply String.eqb_neq in Hne. by rewrite Hne. }
  split; [|done].
  unfold config.loadEnvFile. by rewrite scan_lines_unlines.
Qed.

Lemma env_file_overrides_environment_witness :
  config.os_Getenv "PORT"
    (config.loadEnvFile
       (Some (unlines (["# settings"; "PORT=1"] ++ ["PORT" +:+ "=" +:+ "9090"])))
       {["PORT" := "80"]})
  = "9090".
Proof.
  assert (Hraw : "9090" = "" \/ edges_plain "9090" = true)
    by (right; reflexivity).
  exact (proj1 (env_file_overrides_environment ["# settings"; "PORT=1"]
                  "PORT" "9090" {["PORT" := "80"]}
                  eq_refl eq_refl eq_refl Hraw eq_refl)).
Defined.

(** ** Numbers *)

Lemma digit_pretty_N_char y :
  (y < 10)%N -> strconv.digit (pretty_N_char y) = Some (Z.of_N y).
Proof.
  intros Hy.
  assert (H : (y = 0 \/ y = 1 \/ y = 2 \/ y = 3 \/ y = 4 \/ y = 5 \/ y = 6
               \/ y = 7 \/ y = 8 \/ y = 9)%N) by lia.
  repeat destruct H as [->|H]; try subst y; reflexivity.
Qed.

Lemma digits_pretty_N_go x : forall s,
  strconv.digits 0 (list_ascii_of_string (pretty_N_go x s))
  = strconv.digits (Z.of_N x) (list_ascii_of_string s).
Proof.
  induction x as [x IH] using (well_founded_induction N.lt_wf_0). intros s.
  destruct (decide (x = 0%N)) as [->|Hx]; [by rewrite pretty_N_go_0|].
  rewrite pretty_N_go_step by lia.
  rewrite IH by (apply N.div_lt; lia).
  cbn [list_ascii_of_string strconv.digits].
  rewrite digit_pretty_N_char by (apply N.mod_lt; lia).
  f_equal. rewrite N2Z.inj_div, N2Z.inj_mod. change (Z.of_N 10) with 10.
  pose proof (Z.div_mod (Z.of_N x) 10). lia.
Qed.

Lemma digits_first_is_digit c s acc n :
  strconv.digits acc (c :: s) = Some n ->
  Ascii.eqb c "-"%char = false /\ Ascii.eqb c "+"%char = false.
Proof.
  cbn. unfold strconv.digit, utf8.between.
  destruct (Ascii.eqb_spec c "-"%char) as [->|_]; [done|].
  destruct (Ascii.eqb_spec c "+"%char) as [->|_]; done.
Qed.

Lemma Atoi_pretty_pos (p : positive) :
  Z.pos p <= max_int ->
  strconv.Atoi (pretty (Z.pos p)) = Some (Z.pos p)
  /\ strconv.digits 0 (list_ascii_of_string (pretty (Z.pos p)))
     = Some (Z.pos p).
Proof.
  intros Hfit.
  assert (Hd : strconv.digits 0 (list_ascii_of_string (pretty (Z.pos p)))
               = Some (Z.pos p)).
  { change (pretty (Z.pos p)) with (pretty_N_go (N.pos p) "").
    by rewrite digits_pretty_N_go. }
  split; [|done]. unfold strconv.Atoi.
  destruct (list_ascii_of_string (pretty (Z.pos p))) as [|c s] eqn:Ecs;
    [done|].
  destruct (digits_first_is_digit c s 0 _ Hd) as [-> ->].
  rewrite Hd. unfold min_int, max_int in *.
  destruct (Z.leb_spec (- 2 ^ 63) (Z.pos p)); [|lia].
  destruct (Z.leb_spec (Z.pos p) (2 ^ 63 - 1)); [done|lia].
Qed.

Lemma Atoi_pretty z : in_int z -> strconv.Atoi (pretty z) = Some z.
Proof.
  intros [Hlo Hhi]. destruct z as [|p|p]; [done | |].
  - by apply Atoi_pretty_pos.
  - change (pretty (Z.neg p)) with ("-" +:+ pretty (Z.pos p)).
    unfold strconv.Atoi.
    change (list_ascii_of_string ("-" +:+ pretty (Z.pos p)))
      with ("-"%char :: list_ascii_of_string (pretty (Z.pos p))).
    cbn [Ascii.eqb Bool.eqb]. cbn match.
    assert (Hd : strconv.digits 0 (list_ascii_of_string (pretty (Z.pos p)))
                 = Some (Z.pos p)).
    { change (pretty (Z.pos p)) with (pretty_N_go (N.pos p) "").
      by rewrite digits_pretty_N_go. }
    destruct (list_ascii_of_string (pretty (Z.pos p))) as [|c s] eqn:Ecs;
      [done|].
    rewrite Hd. unfold min_int, max_int in *.
    destruct (Z.leb_spec (- 2 ^ 63) (- Z.pos p)); [|lia].
    destruct (Z.leb_spec (- Z.pos p) (2 ^ 63 - 1)); [done|lia].
Qed.

Lemma digits_non_digit acc pre c post :
  strconv.digit c = None -> strconv.digits acc (pre ++ c :: post) = None.
Proof.
  intros Hc. revert acc. induction pre as [|d pre IH]; intros acc; cbn.
  - by rewrite Hc.
  - destruct (strconv.digit d); [apply IH | done].
Qed.

Lemma Atoi_in_int s v : strconv.Atoi s = Some v -> in_int v.
Proof.
  unfold strconv.Atoi.
  destruct (match list_ascii_of_string s with
            | [] => (false, [])
            | c :: rest => _
            end) as [neg ds].
  destruct ds as [|d ds]; [done|].
  destruct (strconv.digits 0 (d :: ds)) as [n|]; [|done].
  destruct (_ && _) eqn:Hr; [|done]. intros [= <-].
  apply andb_prop in Hr as [H1 H2].
  apply Z.leb_le in H1, H2. done.
Qed.

Lemma getenvInt_in_int key def (env : gmap string string) :
  in_int def -> in_int (config.getenvInt key def env).
Proof.
  intros Hdef. unfold config.getenvInt.
  destruct (negb _); [|done].
  destruct (strconv.Atoi _) as [i|] eqn:Ha; [|done].
  by apply Atoi_in_int in Ha.
Qed.

(** X17.  [getenvInt] reads back every [int] written in decimal; it
    gives the default when the variable is empty or not set, and when its
    value holds, after the first byte, a byte that is no digit; and what
    it gives fits an [int] when the default does. *)
Theorem getenvInt_reads_decimal_or_defaults (key : string) (def : Z)
    (env : gmap string string) :
  (forall z, key <> "" -> in_int z ->
     config.getenvInt key def (<[key := pretty z]> env) = z)
  /\ (config.os_Getenv key env = "" -> config.getenvInt key def env = def)
  /\ (forall pre c post,
        list_ascii_of_string (config.os_Getenv key env) = pre ++ c :: post ->
        pre <> [] -> strconv.digit c = None ->
        config.getenvInt key def env = def)
  /\ (in_int def -> in_int (config.getenvInt key def env)).
Proof.
  split; [|split; [|split]].
  - intros z Hkey Hz. unfold config.getenvInt, config.os_Getenv.
    apply String.eqb_neq in Hkey. rewrite Hkey, lookup_insert_eq. cbn.
    pose proof (Atoi_pretty z Hz) as Ha. rewrite Ha.
    by destruct (String.eqb_spec (pretty z) "") as [He|_];
      [rewrite He in Ha|].
  - intros Hv. unfold config.getenvInt. by rewrite Hv.
  - intros pre c post Hv Hpre Hc. unfold config.getenvInt.
    destruct (negb _); [|done].
    unfold strconv.Atoi. rewrite Hv.
    destruct pre as [|c0 pre]; [done|]. cbn [app].
    assert (Hrest : forall acc, strconv.digits acc (pre ++ c :: post) = None)
      by (intros; by apply digits_non_digit).
    assert (Hall : forall acc, strconv.digits acc (c0 :: pre ++ c :: post) = None).
    { intros acc. cbn. destruct (strconv.digit c0); [apply Hrest | done]. }
    destruct (Ascii.eqb c0 "-"); [|destruct (Ascii.eqb c0 "+")].
    + destruct (pre ++ c :: post) eqn:E; [done|]. by rewrite Hrest.
    + destruct (pre ++ c :: post) eqn:E; [done|]. by rewrite Hrest.
    + by rewrite Hall.
  - apply getenvInt_in_int.
Qed.

Lemma getenvInt_reads_decimal_or_defaults_witness :
  config.getenvInt "WORKERS" 4 (<["WORKERS" := pretty (-12)]> ∅) = -12
  /\ config.getenvInt "WORKERS" 4 {["WORKERS" := "1e3"]} = 4.
Proof.
  assert (Hk : "WORKERS" <> "") by discriminate.
  assert (Hz : in_int (-12)) by (split; discriminate).
  assert (Hv : list_ascii_of_string
                 (config.os_Getenv "WORKERS" {["WORKERS" := "1e3"]})
               = ["1"%char] ++ "e"%char :: ["3"%char]) by reflexivity.
  assert (Hpre : ["1"%char] <> []) by discriminate.
  split.
  - exact (proj1 (getenvInt_reads_decimal_or_defaults "WORKERS" 4 ∅)
             (-12) Hk Hz).
  - exact (proj1 (proj2 (proj2 (getenvInt_reads_decimal_or_defaults
                                  "WORKERS" 4 {["WORKERS" := "1e3"]})))
             _ _ _ Hv Hpre eq_refl).
Defined.

Lemma getenv_not_empty key def env :
  def <> "" -> config.getenv key def env <> "".
Proof.
  intros Hdef. unfold config.getenv.
  by destruct (String.eqb_spec (config.os_Getenv key env) "").
Qed.

(** X18.  Whatever the environment and the file hold, [Load] gives a
    configuration that the service can start with: port and directories
    are not empty, the numbers fit an [int], and the manager that [main]
    builds from it has at least one worker ([WORKERS] when it is positive,
    4 otherwise), the retry budget of [RETRY_MAX] as it is, a snapshot
    every 50 tickets, and an empty queue.  With nothing set the
    configuration is the default one. *)
Theorem Load_gives_a_usable_configuration (file : option string)
    (env : gmap string string) (s : Store) :
  let c := (config.Load file env).2 in
  let m := NewManager (manager_config c) s in
  config.Port c <> "" /\ config.DataDir c <> "" /\ config.StateDir c <> ""
  /\ in_int (config.Workers c) /\ in_int (config.RetryMax c)
  /\ in_int (config.RetryBackoffMs c)
  /\ 0 < WorkerCount (cfg m)
  /\ (0 < config.Workers c -> WorkerCount (cfg m) = config.Workers c)
  /\ MaxRetryPerItem (cfg m) = config.RetryMax c
  /\ SnapshotEveryN (cfg m) = 50
  /\ DataDir (cfg m) = config.DataDir c
  /\ store m = s /\ queue m = []
  /\ config.Load None ∅
     = (∅, config.mkConfig "8080" "data" "var/state" 4 3 500).
Proof.
  intros c m. subst c m. unfold config.Load. cbn [snd].
  set (env' := config.loadEnvFile file env).
  pose proof (getenvInt_in := fun key def => getenvInt_in_int key def env').
  split; [by apply getenv_not_empty|].
  split; [by apply getenv_not_empty|].
  split; [by apply getenv_not_empty|].
  split; [apply getenvInt_in; split; discriminate|].
  split; [apply getenvInt_in; split; discriminate|].
  split; [apply getenvInt_in; split; discriminate|].
  unfold NewManager, manager_config. cbn [config.Workers WorkerCount].
  destruct (Z.leb_spec (config.getenvInt "WORKERS" 4 env') 0);
    cbn; repeat split; try done; lia.
Qed.

(* ===================================================================== *)
(** * The HTTP handlers *)

Lemma has_prefix_app p s :
  strings.has_prefix (p ++ s) p = true.
Proof.
  induction p as [|c p IH]; [by destruct s|].
  cbn. by rewrite Ascii.eqb_refl, IH.
Qed.

Lemma TrimPrefix_app p s : strings.TrimPrefix (p +:+ s) p = s.
Proof.
  unfold strings.TrimPrefix, strings.HasPrefix.
  rewrite chars_app, has_prefix_app, <- length_chars, drop_app_length.
  apply string_of_list_ascii_of_string.
Qed.

Section HandlerFacts.
Context {parser : URLParser}.

(** X19.  A [POST /tasks] whose body does not decode, or holds no URL, is
    answered 400 ("invalid json", "urls is required") and changes nothing
    in the manager: no task, no record, no ticket. *)
Theorem post_without_urls_changes_nothing (rnd : list Z) (now : Z)
    (ts : list Task) (r : httpapi.Request) (m : Manager) :
  httpapi.Method r = "POST" ->
  httpapi.Body r = None \/ httpapi.Body r = Some [] ->
  let res := httpapi.tasks_handler rnd now ts r m in
  res.1 = m /\ httpapi.Code res.2 = 400
  /\ httpapi.Sent res.2
     = httpapi.Text (match httpapi.Body r with
                     | Some _ => "urls is required"
                     | None => "invalid json"
                     end +:+ nl).
Proof.
  intros Hm Hb res. subst res.
  unfold httpapi.tasks_handler, httpapi.handleCreateTask. rewrite Hm. cbn.
  by destruct Hb as [-> | ->].
Qed.


(** X21.  When the record of a new task cannot be written, [POST /tasks]
    is answered 500 without the id and no ticket is sent; but the task
    stays in the map of the store: a [GET] of [/tasks/<id>] is answered
    200 with it, its items [queued], though no worker will take them. *)
Theorem failed_create_leaves_the_task_in_memory (rnd : list Z) (now : Z)
    (ts : list Task) (urls : list string) (m : Manager)
    (r : httpapi.Request) :
  httpapi.Method r = "POST" -> httpapi.Body r = Some urls -> urls <> [] ->
  (UpsertTask (mkTask (NewID rnd) now TaskStatusPending (map new_item urls))
     (store m)).2 <> None ->
  let t := mkTask (NewID rnd) now TaskStatusPending (map new_item urls) in
  let res := httpapi.tasks_handler rnd now ts r m in
  httpapi.Code res.2 = 500
  /\ httpapi.Sent res.2 = httpapi.Text ("failed to create task" +:+ nl)
  /\ queue res.1 = queue m
  /\ GetTask (NewID rnd) (store res.1) = Some t
  /\ (forall p, httpapi.task_handler
        (httpapi.mkRequest "GET" ("/tasks/" +:+ NewID rnd) p) res.1
      = httpapi.writeJSON (httpapi.OneTask t) 200).
Proof.
  intros Hm Hb Hne Hfail t res. subst res.
  unfold httpapi.tasks_handler, httpapi.handleCreateTask. rewrite Hm, Hb.
  cbn [String.eqb Ascii.eqb Bool.eqb andb].
  destruct urls as [|u urls]; [done|]. cbn [length Nat.eqb].
  unfold CreateTask. fold t. fold t in Hfail.
  pose proof (UpsertTask_tasks t (store m)) as Hts.
  destruct (UpsertTask t (store m)) as [s1 e].
  cbn in Hfail, Hts. destruct e as [e|]; [|done]. cbn.
  assert (Hget : GetTask (NewID rnd) s1 = Some t).
  { unfold GetTask. by rewrite Hts, lookup_insert_eq. }
  split; [done|]. split; [done|]. split; [done|]. split; [done|].
  intros p. unfold httpapi.task_handler. cbn [httpapi.Method httpapi.Path].
  cbn [String.eqb Ascii.eqb Bool.eqb andb negb].
  rewrite TrimPrefix_app.
  destruct (String.eqb_spec (NewID rnd) "") as [He|_].
  { pose proof (NewID_length rnd) as Hlen. rewrite He in Hlen.
    discriminate Hlen. }
  cbn. by rewrite Hget.
Qed.

(** X22.  The handler of [/tasks/]: 405 for a method other than [GET];
    404 for an empty id and for an id that the store does not hold; 200
    with the task of the store otherwise, and in no other case. *)
Theorem task_handler_answers (r : httpapi.Request) (m : Manager) :
  let res := httpapi.task_handler r m in
  let id := strings.TrimPrefix (httpapi.Path r) "/tasks/" in
  (httpapi.Method r <> "GET" -> httpapi.Code res = 405)
  /\ (httpapi.Method r = "GET" ->
      match GetTask id (store m) with
      | Some t =>
          if String.eqb id "" then res = httpapi.http_NotFound
          else res = httpapi.writeJSON (httpapi.OneTask t) 200
      | None => res = httpapi.http_NotFound
      end)
  /\ (httpapi.Code res = 200 ->
      exists t, GetTask id (store m) = Some t
                /\ httpapi.Sent res = httpapi.OneTask t).
Proof.
  intros res id. subst res. unfold httpapi.task_handler. fold id.
  destruct (String.eqb_spec (httpapi.Method r) "GET") as [Hg|Hg]; cbn [negb].
  - split; [done|]. split.
    + intros _. destruct (GetTask id (store m)); by destruct (String.eqb id "").
    + destruct (String.eqb id ""); [done|].
      destruct (GetTask id (store m)); [|done]. by eexists.
  - split; [done|]. split; done.
Qed.

End HandlerFacts.

Lemma post_without_urls_changes_nothing_witness :
  (@httpapi.tasks_handler example_parser ex_rnd 0 []
     (httpapi.mkRequest "POST" "/tasks" (Some [])) ex_m0).1 = ex_m0
  /\ httpapi.Code
       (@httpapi.tasks_handler example_parser ex_rnd 0 []
          (httpapi.mkRequest "POST" "/tasks" (Some [])) ex_m0).2 = 400.
Proof.
  assert (Hb : httpapi.Body (httpapi.mkRequest "POST" "/tasks" (Some []))
               = None
               \/ httpapi.Body (httpapi.mkRequest "POST" "/tasks" (Some []))
                  = Some []) by (right; reflexivity).
  destruct (@post_without_urls_changes_nothing example_parser ex_rnd 0 []
              (httpapi.mkRequest "POST" "/tasks" (Some [])) ex_m0 eq_refl Hb)
    as (H1 & H2 & _).
  split; [exact H1 | exact H2].
Defined.


Lemma failed_create_leaves_the_task_in_memory_witness :
  httpapi.Code
    (@httpapi.tasks_handler example_parser ex_rnd 0 []
       (httpapi.mkRequest "POST" "/tasks" (Some [ex_url]))
       (with_io [IoErr] ex_m0)).2 = 500
  /\ GetTask ex_id
       (store (@httpapi.tasks_handler example_parser ex_rnd 0 []
                 (httpapi.mkRequest "POST" "/tasks" (Some [ex_url]))
                 (with_io [IoErr] ex_m0)).1)
     = Some ex_new.
Proof.
  assert (Hne : [ex_url] <> []) by discriminate.
  assert (Hfail : (UpsertTask
                     (mkTask (NewID ex_rnd) 0 TaskStatusPending
                        (map (@new_item example_parser) [ex_url]))
                     (store (with_io [IoErr] ex_m0))).2 <> None)
    by (vm_compute; discriminate).
  destruct (@failed_create_leaves_the_task_in_memory example_parser ex_rnd 0
              [] [ex_url] (with_io [IoErr] ex_m0)
              (httpapi.mkRequest "POST" "/tasks" (Some [ex_url]))
              eq_refl eq_refl Hne Hfail) as (H1 & _ & _ & H4 & _).
  split; [exact H1|]. 
  assert (He : mkTask (NewID ex_rnd) 0 TaskStatusPending
                 (map (@new_item example_parser) [ex_url]) = ex_new)
    by (vm_compute; reflexivity).
  rewrite <- He. exact H4.
Defined.

Lemma task_handler_answers_witness :
  httpapi.Code (httpapi.task_handler
                  (httpapi.mkRequest "DELETE" "/tasks/x" None) ex_m0) = 405
  /\ httpapi.task_handler (httpapi.mkRequest "GET" "/tasks/" None) ex_m1
     = httpapi.http_NotFound.
Proof.
  assert (Hm : httpapi.Method (httpapi.mkRequest "DELETE" "/tasks/x" None)
               <> "GET") by discriminate.
  split.
  - exact (proj1 (task_handler_answers
                    (httpapi.mkRequest "DELETE" "/tasks/x" None) ex_m0) Hm).
  - exact (proj1 (proj2 (task_handler_answers
                           (httpapi.mkRequest "GET" "/tasks/" None) ex_m1))
             eq_refl).
Defined.

(* ===================================================================== *)
(** * Stopping the manager *)

(** X23.  After [StopAndWait]: a second call does nothing and returns
    [nil]; a worker that receives a ticket drops it and leaves the store
    as it is; a retry timer that fires writes its item as [queued] (on a
    store in step with a disk that does not fail the record reaches the
    log) and then panics, sending on the closed queue. *)
Theorem after_StopAndWait (e e' : option string) (sv : Service) :
  let sv1 := (StopAndWait e sv).1 in
  mgr sv1 = mgr sv
  /\ StopAndWait e' sv1 = (sv1, None)
  /\ (forall env qi, worker_receive env qi sv1 = (sv1, []))
  /\ (forall tm t it,
        tasks (store (mgr sv)) !! tm_task tm = Some t ->
        Items t !! tm_item tm = Some it ->
        let t1 := on_item (tm_item tm) (set_IStatus ItemStatusQueued) t in
        exists sv',
          timer_callback tm sv1 = Panics sv'
          /\ stopped sv' = true /\ queue (mgr sv') = queue (mgr sv)
          /\ tasks (store (mgr sv')) = <[ID t := t1]> (tasks (store (mgr sv)))
          /\ (quiet (store (mgr sv)) ->
              persisted (dir (store (mgr sv'))) !! ID t = Some t1)).
Proof.
  intros sv1.
  assert (Hs : stopped sv1 = true).
  { subst sv1. unfold StopAndWait. by destruct (stopped sv) eqn:Es. }
  assert (Hm : mgr sv1 = mgr sv).
  { subst sv1. unfold StopAndWait. by destruct (stopped sv). }
  split; [done|]. split; [unfold StopAndWait; by rewrite Hs|].
  split; [intros env qi; unfold worker_receive; by rewrite Hs|].
  intros tm t it Hget Hit t1. unfold timer_callback, send.
  rewrite Hm, Hget. fold t1. cbn [stopped mgr]. rewrite Hs.
  eexists. split; [done|]. cbn [stopped mgr]. split; [done|].
  split; [done|]. split; [exact (update_task_tasks t1 (mgr sv))|].
  intros Hq. destruct (update_task_quiet t1 (mgr sv) Hq) as ((<- & _) & _).
  rewrite (update_task_tasks t1 (mgr sv)). apply lookup_insert_eq.
Qed.

Lemma after_StopAndWait_witness :
  exists sv',
    timer_callback (mkTimer ex_id 0 0)
      (StopAndWait None (mkService ex_m1 false)).1 = Panics sv'
    /\ stopped sv' = true.
Proof.
  assert (Hget : tasks (store (mgr (mkService ex_m1 false)))
                 !! tm_task (mkTimer ex_id 0 0) = Some ex_new)
    by (vm_compute; reflexivity).
  assert (Hit : Items ex_new !! tm_item (mkTimer ex_id 0 0) = Some ex_item_new)
    by reflexivity.
  destruct (proj2 (proj2 (proj2 (after_StopAndWait None None
                                   (mkService ex_m1 false))))
              (mkTimer ex_id 0 0) ex_new ex_item_new Hget Hit)
    as (sv' & H1 & H2 & _).
  exists sv'. split; [exact H1 | exact H2].
Defined.
